(** * pyQSC: near-axis surface reconstruction and VMEC boundary output

    A shallow embedding of [qsc/plot.py] (the closures [Raxisf], [Zaxisf],
    the spline wrappers, [rSurf], [zSurf], [Bf]) and of [qsc/to_vmec.py]
    ([to_Fourier], [to_vmec]).

    Numbers.  Python's [float] and numpy's [float64] are read as real
    numbers: [+], [*], [/], [np.cos], [np.sin] are the operations of [R],
    so the statements below are about the formulas the code evaluates, not
    about rounding.  Python's [int] is [Z]; array indices and lengths are
    [nat].  Operations that raise in Python ([IndexError], [TypeError],
    [ValueError], [ZeroDivisionError] on an [int] divisor) return [None]. *)

From Stdlib Require Import Reals Lra Lia ZArith.
From stdpp Require Import base option list strings gmap.

(** ** Shared numeric helpers *)

(** [sum(xs)] of Python: start from 0 and add from the left. *)
Definition py_sum (xs : list R) : R := fold_left Rplus xs 0%R.

(** [np.mod(x, p)] on floats: the remainder with the sign of the divisor,
    [x - floor(x / p) * p]. *)
Definition np_mod (x p : R) : R := (x - IZR (Zfloor (x / p)) * p)%R.

(** [range(n)] and [range(lo, hi)]. *)
Definition range (n : Z) : list Z := seqZ 0 n.
Definition range2 (lo hi : Z) : list Z := seqZ lo (hi - lo).

(** ** Arrays and Python objects *)

(** A two-dimensional [ndarray] of floats, as the list of its rows. *)
Abbreviation grid := (list (list R)).

(** The two kinds of object [to_Fourier] returns for a spectrum: an array,
    or the [int] that [RBS = 0] and [ZBC = 0] bind. *)
Inductive pyobj :=
| PyInt (z : Z)
| NdArray (a : grid).

(** One row of [tangent_cylindrical], [normal_cylindrical] or
    [binormal_cylindrical]: the (R, phi, Z) components; [a[:,0]] and
    [a[:,2]] are the columns [cylR] and [cylZ]. *)
Record cyl := Cyl { cylR : R; cylPhi : R; cylZ : R }.

(** The attributes of [self] that [plot] and [to_vmec] read, and the four
    that [to_vmec] binds at its end ([None]: not bound yet). *)
Record Qsc := {
  rc : list R;
  rs : list R;
  zc : list R;
  zs : list R;
  nfp : Z;
  nphi : Z;
  phi : list R;
  tangent_cylindrical : list cyl;
  normal_cylindrical : list cyl;
  binormal_cylindrical : list cyl;
  X1c : list R; X1s : list R; Y1c : list R; Y1s : list R;
  X20 : list R; X2c : list R; X2s : list R;
  Y20 : list R; Y2c : list R; Y2s : list R;
  Z20 : list R; Z2c : list R; Z2s : list R;
  B20 : list R;
  iota : R;
  iotaN : R;
  order : string;
  B0 : R;
  etabar : R;
  B2c : R;
  B2s : R;
  sigma0 : R;
  spsi : R;
  Bbar : R;
  p2 : R;
  I2 : R;
  lasym : bool;
  RBC : option pyobj;
  ZBS : option pyobj;
  RBS : option pyobj;
  ZBC : option pyobj
}.

(** ** plot.py *)

Module Plot.

Section closures.
(** [spline(x, y, k=3, s=0)] of scipy, as the function it returns. *)
Variable spline : list R -> list R -> R -> R.
Variable self : Qsc.

Local Open Scope R_scope.

Definition Raxisf (phi : R) : R :=
  py_sum (map (fun i => nth i (rc self) 0 * cos (IZR (Z.of_nat i * nfp self) * phi))
              (seq 0 (length (rc self)))).

Definition Zaxisf (phi : R) : R :=
  py_sum (map (fun i => nth i (zs self) 0 * sin (IZR (Z.of_nat i * nfp self) * phi))
              (seq 0 (length (zs self)))).

(** The common body of the twenty spline closures:
    [sp = spline(self.phi, y, k=3, s=0); return sp(np.mod(phi, 2*np.pi/self.nfp))].
    The field-period count of a configuration is not zero (the grid
    [self.phi] is itself built from [2*pi/nfp]), and the quotient is
    written with the division of [R]. *)
Definition splined (y : list R) (phi0 : R) : R :=
  spline (phi self) y (np_mod phi0 (2 * PI / IZR (nfp self))).

Definition tangentR := splined (map cylR (tangent_cylindrical self)).
Definition tangentZ := splined (map cylZ (tangent_cylindrical self)).
Definition normalR := splined (map cylR (normal_cylindrical self)).
Definition normalZ := splined (map cylZ (normal_cylindrical self)).
Definition binormalR := splined (map cylR (binormal_cylindrical self)).
Definition binormalZ := splined (map cylZ (binormal_cylindrical self)).
Definition X1cF := splined (X1c self).
Definition X1sF := splined (X1s self).
Definition Y1cF := splined (Y1c self).
Definition Y1sF := splined (Y1s self).
Definition X20F := splined (X20 self).
Definition X2cF := splined (X2c self).
Definition X2sF := splined (X2s self).
Definition Y20F := splined (Y20 self).
Definition Y2cF := splined (Y2c self).
Definition Y2sF := splined (Y2s self).
Definition Z20F := splined (Z20 self).
Definition Z2cF := splined (Z2c self).
Definition Z2sF := splined (Z2s self).
Definition B20F := splined (B20 self).

Definition is_r1 : bool := String.eqb (order self) "r1".

Definition rSurf (r phi theta : R) : R :=
  let thetaN := theta - (iota self - iotaN self) * phi in
  let r0 := Raxisf phi in
  let r1 := (X1cF phi * cos thetaN + X1sF phi * sin thetaN) * normalR phi
            + (Y1cF phi * cos thetaN + Y1sF phi * sin thetaN) * binormalR phi in
  let r2 :=
    if negb is_r1 then
      (X20F phi + X2cF phi * cos (2 * thetaN) + X2sF phi * sin (2 * thetaN)) * normalR phi
      + (Y20F phi + Y2cF phi * cos (2 * thetaN) + Y2sF phi * sin (2 * thetaN)) * binormalR phi
      + (Z20F phi + Z2cF phi * cos (2 * thetaN) + Z2sF phi * sin (2 * thetaN)) * tangentR phi
    else 0 in
  r0 + r * r1 + r ^ 2 * r2.

Definition zSurf (r phi theta : R) : R :=
  let thetaN := theta - (iota self - iotaN self) * phi in
  let z0 := Zaxisf phi in
  let z1 := (X1cF phi * cos thetaN + X1sF phi * sin thetaN) * normalZ phi
            + (Y1cF phi * cos thetaN + Y1sF phi * sin thetaN) * binormalZ phi in
  let z2 :=
    if negb is_r1 then
      (X20F phi + X2cF phi * cos (2 * thetaN) + X2sF phi * sin (2 * thetaN)) * normalZ phi
      + (Y20F phi + Y2cF phi * cos (2 * thetaN) + Y2sF phi * sin (2 * thetaN)) * binormalZ phi
      + (Z20F phi + Z2cF phi * cos (2 * thetaN) + Z2sF phi * sin (2 * thetaN)) * tangentZ phi
    else 0 in
  z0 + r * z1 + r ^ 2 * z2.

Definition Bf (r phi theta : R) : R :=
  let thetaN := theta - (iota self - iotaN self) * phi in
  if is_r1 then
    B0 self * (1 + r * etabar self * cos thetaN)
  else
    B0 self * (1 + r * etabar self * cos thetaN)
    + r * r * (B20F phi + B2c self * cos thetaN + B2s self * sin thetaN).

(** The field magnitude as the specification words it: the second-order
    harmonics are taken at twice the corrected angle. *)
Definition Bf_spec (r phi theta : R) : R :=
  let thetaN := theta - (iota self - iotaN self) * phi in
  if is_r1 then
    B0 self * (1 + r * etabar self * cos thetaN)
  else
    B0 self * (1 + r * etabar self * cos thetaN)
    + r ^ 2 * (B20F phi + B2c self * cos (2 * thetaN) + B2s self * sin (2 * thetaN)).

(** The axis as the specification words it: the truncated Fourier sums
    [sum_i rc[i] cos(i nfp phi)] and [sum_i zs[i] sin(i nfp phi)], with
    [i] the position of the coefficient. *)
Fixpoint fourier_from (trig : R -> R) (i : nat) (coeffs : list R) (phi : R) : R :=
  match coeffs with
  | [] => 0
  | c :: cs => c * trig (INR i * IZR (nfp self) * phi) + fourier_from trig (S i) cs phi
  end.

Definition evaluateAxis (phi : R) : R * R :=
  (fourier_from cos 0 (rc self) phi, fourier_from sin 0 (zs self) phi).

(** The pair of the two closures [rSurf] and [zSurf]. *)
Definition evaluateSurface (r phi theta : R) : R * R :=
  (rSurf r phi theta, zSurf r phi theta).

End closures.

End Plot.

(** ** to_vmec.py *)

Module ToVmec.

Local Open Scope Z_scope.

(** *** Indexing *)

(** A Python index into a sequence of length [len]: a negative index counts
    from the end, anything out of range raises [IndexError]. *)
Definition py_index (len : nat) (i : Z) : option nat :=
  if 0 <=? i then
    if i <? Z.of_nat len then Some (Z.to_nat i) else None
  else
    if 0 <=? i + Z.of_nat len then Some (Z.to_nat (i + Z.of_nat len)) else None.

(** [xs[i]] on a one-dimensional array. *)
Definition getitem1 (xs : list R) (i : Z) : option R :=
  k ← py_index (length xs) i; xs !! k.

(** [a[i, j]] *)
Definition getitem (a : grid) (i j : Z) : option R :=
  k ← py_index (length a) i;
  row ← a !! k;
  l ← py_index (length row) j;
  row !! l.

(** [a[i, j] = v] *)
Definition setitem (a : grid) (i j : Z) (v : R) : option grid :=
  k ← py_index (length a) i;
  row ← a !! k;
  l ← py_index (length row) j;
  Some (<[k := <[l := v]> row]> a).

(** [o[i, j]] on an object that is an array or an [int] ([TypeError]). *)
Definition obj_getitem (o : pyobj) (i j : Z) : option R :=
  match o with
  | NdArray a => getitem a i j
  | PyInt _ => None
  end.

(** [np.array(a).shape[1]]: no second dimension without a first row. *)
Definition shape1 (a : grid) : option nat := length <$> head a.

(** [np.zeros((rows, cols))]: [ValueError] on a negative dimension. *)
Definition np_zeros (rows cols : Z) : option grid :=
  if (0 <=? rows) && (0 <=? cols)
  then Some (replicate (Z.to_nat rows) (replicate (Z.to_nat cols) 0%R))
  else None.

(** [np.linspace(0, stop, num, endpoint=False)]: [arange(num) * (stop/num)];
    [ValueError] on a negative [num]. *)
Definition linspace (stop : R) (num : Z) : option (list R) :=
  if num <? 0 then None
  else Some ((fun j => (IZR j * (stop / IZR num))%R) <$> range num).

(** [np.sum(a)]: the sum of all entries. *)
Definition np_sum (a : grid) : R := py_sum (concat a).

(** [a.transpose()] on a two-dimensional array. *)
Definition transpose (a : grid) : grid :=
  match a with
  | [] => []
  | row :: _ => (fun j => (fun r => nth j r 0%R) <$> a) <$> seq 0 (length row)
  end.

Definition obj_transpose (o : pyobj) : option pyobj :=
  match o with
  | NdArray a => Some (NdArray (transpose a))
  | PyInt _ => None
  end.

(** *** Loops *)

(** [for x in xs: body], threading the state and stopping at the first
    exception. *)
Fixpoint for_each {A S : Type} (xs : list A) (body : A -> S -> option S) (s : S)
  : option S :=
  match xs with
  | [] => Some s
  | x :: xs' => s' ← body x s; for_each xs' body s'
  end.

(** *** to_Fourier *)

(** The four accumulators [RBC, RBS, ZBC, ZBS] of the loop. *)
Record spectra := Spectra {
  acc_RBC : grid;
  acc_RBS : grid;
  acc_ZBC : grid;
  acc_ZBS : grid
}.

(** Lines 43-46: [factor2], the scale of one term.  Under the parity guard
    the true division [ntheta/2] is exact, so it is the integer quotient. *)
Definition factor2 (factor : R) (ntheta nphi_conversion m n : Z) : R :=
  let factor2 := factor in
  let factor2 :=
    if (ntheta mod 2 =? 0) && (m =? ntheta / 2) then (factor2 / 2)%R else factor2 in
  let factor2 :=
    if (nphi_conversion mod 2 =? 0) && (Z.abs n =? nphi_conversion / 2)
    then (factor2 / 2)%R else factor2 in
  factor2.

(** [angle = m * theta[j_theta] - n * nfp * phi_conversion[j_phi]] *)
Definition angle_of (nfp m n : Z) (th ph : R) : R :=
  (IZR m * th - IZR (n * nfp) * ph)%R.

(** One statement [A[i,j] = A[i,j] + X[j_theta,j_phi] * trig * factor2]. *)
Definition add_term (A : grid) (i j : Z) (X : grid) (j_theta j_phi : Z)
    (trig factor2 : R) : option grid :=
  old ← getitem A i j;
  x ← getitem X j_theta j_phi;
  setitem A i j (old + x * trig * factor2)%R.

Section to_Fourier.
Variables R_2D Z_2D : grid.
Variables nfp ntheta mpol ntor : Z.
Variable lasym : bool.

(** Lines 40-50: the body of the innermost loop. *)
Definition accumulate (nphi_conversion : Z) (theta phi_conversion : list R)
    (factor : R) (j_phi j_theta m n : Z) (s : spectra) : option spectra :=
  th ← getitem1 theta j_theta;
  ph ← getitem1 phi_conversion j_phi;
  let angle := angle_of nfp m n th ph in
  let sinangle := sin angle in
  let cosangle := cos angle in
  let factor2 := factor2 factor ntheta nphi_conversion m n in
  RBC ← add_term (acc_RBC s) (n + ntor) m R_2D j_theta j_phi cosangle factor2;
  RBS ← add_term (acc_RBS s) (n + ntor) m R_2D j_theta j_phi sinangle factor2;
  ZBC ← add_term (acc_ZBC s) (n + ntor) m Z_2D j_theta j_phi cosangle factor2;
  ZBS ← add_term (acc_ZBS s) (n + ntor) m Z_2D j_theta j_phi sinangle factor2;
  Some (Spectra RBC RBS ZBC ZBS).

(** Lines 34-50: the four nested loops. *)
Definition accumulate_all (nphi_conversion : Z) (theta phi_conversion : list R)
    (factor : R) (s : spectra) : option spectra :=
  for_each (range nphi_conversion) (fun j_phi =>
    for_each (range ntheta) (fun j_theta =>
      for_each (range (mpol + 1)) (fun m =>
        let nmin := if m =? 0 then 1 else - ntor in
        for_each (range2 nmin (ntor + 1)) (fun n =>
          accumulate nphi_conversion theta phi_conversion factor j_phi j_theta m n)))) s.

Definition to_Fourier : option (grid * pyobj * pyobj * grid) :=
  nphi_conversion ← Z.of_nat <$> shape1 R_2D;
  theta ← linspace (2 * PI) ntheta;
  period ← (if nfp =? 0 then None else Some (2 * PI / IZR nfp)%R);
  phi_conversion ← linspace period nphi_conversion;
  RBC ← np_zeros (2 * ntor + 1) (mpol + 1);
  RBS ← np_zeros (2 * ntor + 1) (mpol + 1);
  ZBC ← np_zeros (2 * ntor + 1) (mpol + 1);
  ZBS ← np_zeros (2 * ntor + 1) (mpol + 1);
  factor ← (if ntheta * nphi_conversion =? 0 then None
            else Some (2 / IZR (ntheta * nphi_conversion))%R);
  s ← accumulate_all nphi_conversion theta phi_conversion factor
        (Spectra RBC RBS ZBC ZBS);
  RBC ← setitem (acc_RBC s) ntor 0 (np_sum R_2D / IZR (ntheta * nphi_conversion))%R;
  ZBC ← setitem (acc_ZBC s) ntor 0 (np_sum Z_2D / IZR (ntheta * nphi_conversion))%R;
  let RBS := if negb lasym then PyInt 0 else NdArray (acc_RBS s) in
  let ZBC := if negb lasym then PyInt 0 else NdArray ZBC in
  Some (RBC, RBS, ZBC, acc_ZBS s).
End to_Fourier.

(** *** to_vmec *)

(** The values a caller puts in the [params] dictionary: numbers and lists
    of numbers. *)
Inductive pyval :=
| PInt (z : Z)
| PFloat (x : R)
| PInts (l : list Z)
| PFloats (l : list R).

(** [int(x)] on a float truncates toward zero. *)
Definition int_of_float (x : R) : Z :=
  if Rle_dec 0 x then Zfloor x else Zceil x.

(** [int(v)]: [TypeError] on a list. *)
Definition py_int (v : pyval) : option Z :=
  match v with
  | PInt z => Some z
  | PFloat x => Some (int_of_float x)
  | PInts _ | PFloats _ => None
  end.

(** [np.floor] *)
Definition np_floor (x : R) : R := IZR (Zfloor x).

(** [x != 0] on a float. *)
Definition nonzero (x : R) : bool := if Req_dec_T x 0 then false else true.

(** What [str(.)] is applied to when a line is written. *)
Inductive text :=
| SInt (z : Z)
| SFloat (x : R)
| SBool (b : bool)
| SStr (s : string)
| SFloats (xs : list R)
| SInts (xs : list Z)
| SVal (v : pyval).

(** The lines of the output file, by the statement that writes them; the
    decimal rendering of the numbers is left to [str] and the format
    specifications. *)
Inductive line :=
| Literal (s : string)
| DateLine
| Banner (items : list (string * text))
| Assign (key : string) (v : text)
| AssignSliced (key : string) (v : text)
| AssignQuoted (key : string) (s : string)
| Boundary (c1 : string) (n m : Z) (v1 : R) (c2 : string) (v2 : R).

(** [if key not in params.keys(): params[key] = v] *)
Definition setdefault (key : string) (v : pyval) (params : gmap string pyval)
  : gmap string pyval :=
  match params !! key with
  | None => <[key := v]> params
  | Some _ => params
  end.

(** [self] with the four spectra attributes rebound. *)
Definition bind_spectra (self : Qsc) (rbc zbs rbs zbc : pyobj) : Qsc :=
  {| rc := rc self; rs := rs self; zc := zc self; zs := zs self;
     nfp := nfp self; nphi := nphi self; phi := phi self;
     tangent_cylindrical := tangent_cylindrical self;
     normal_cylindrical := normal_cylindrical self;
     binormal_cylindrical := binormal_cylindrical self;
     X1c := X1c self; X1s := X1s self; Y1c := Y1c self; Y1s := Y1s self;
     X20 := X20 self; X2c := X2c self; X2s := X2s self;
     Y20 := Y20 self; Y2c := Y2c self; Y2s := Y2s self;
     Z20 := Z20 self; Z2c := Z2c self; Z2s := Z2s self;
     B20 := B20 self; iota := iota self; iotaN := iotaN self;
     order := order self; B0 := B0 self; etabar := etabar self;
     B2c := B2c self; B2s := B2s self; sigma0 := sigma0 self;
     spsi := spsi self; Bbar := Bbar self; p2 := p2 self; I2 := I2 self;
     lasym := lasym self;
     RBC := Some rbc; ZBS := Some zbs; RBS := Some rbs; ZBC := Some zbc |}.

(** Lines 73-77: the poloidal mode count. *)
Definition choose_mpol (params : gmap string pyval) (ntheta : Z) : option Z :=
  match params !! "mpol" with
  | None =>
      let mpol1d := 100 in
      Some (int_of_float (np_floor (Rmin (IZR ntheta / 2) (IZR mpol1d))))
  | Some v => py_int v
  end.

(** Lines 78-83: the toroidal mode count. *)
Definition choose_ntor (params : gmap string pyval) (self : Qsc) : option Z :=
  match params !! "ntor" with
  | None =>
      let ntord := 100 in
      Some (int_of_float (Rmin (IZR (nphi self) / 2 + 1) (IZR ntord)))
  | Some v => py_int v
  end.

(** Lines 84-95: the defaults written into [params]. *)
Definition fill_defaults (params : gmap string pyval) : gmap string pyval :=
  let params := setdefault "delt" (PFloat (9 / 10)) params in
  let params := setdefault "nstep" (PInt 200) params in
  let params := setdefault "tcon0" (PFloat 2) params in
  let params := setdefault "ns_array" (PInts [16; 49; 101]) params in
  let params := setdefault "ftol_array"
      (PFloats [/ 10 ^ 13; / 10 ^ 12; / 10 ^ 11]%R) params in
  let params := setdefault "niter_array"
      (PInts [1000; 1000; 1500]) params in
  params.

(** Lines 159-162: the body of the boundary loop, appending to the file. *)
Definition boundary_record (lasym : bool) (ntor : Z) (RBC : grid)
    (RBS ZBC : pyobj) (ZBS : grid) (m n : Z) (file : list line)
  : option (list line) :=
  rbc ← getitem RBC (n + ntor) m;
  test ← (if nonzero rbc then Some true
          else nonzero <$> getitem ZBS (n + ntor) m);
  if (test : bool) then
    rbc ← getitem RBC (n + ntor) m;
    zbs ← getitem ZBS (n + ntor) m;
    let file := file ++ [Boundary "RBC" n m rbc "ZBS" zbs] in
    if lasym then
      rbs ← obj_getitem RBS (n + ntor) m;
      zbc ← obj_getitem ZBC (n + ntor) m;
      Some (file ++ [Boundary "RBS" n m rbs "ZBC" zbc])
    else Some file
  else Some file.

(** Lines 157-162: the boundary loop. *)
Definition boundary_records (lasym : bool) (mpol ntor : Z) (RBC : grid)
    (RBS ZBC : pyobj) (ZBS : grid) (file : list line) : option (list line) :=
  for_each (range (mpol + 1)) (fun m =>
    for_each (range2 (- ntor) (ntor + 1)) (fun n =>
      boundary_record lasym ntor RBC RBS ZBC ZBS m n)) file.

Section to_vmec.
(** [mu0] of [qsc/util.py] and the method [Frenet_to_cylindrical] of
    [qsc/Frenet_to_cylindrical.py], which [to_vmec] imports. *)
Variable mu0 : R.
Variable Frenet_to_cylindrical : Qsc -> R -> Z -> option (grid * grid * grid).

(** Lines 120-156: everything written before the boundary records. *)
Definition indata_lines (self : Qsc) (r : R) (params : gmap string pyval)
    (ntheta ntorMax mpol ntor : Z) : option (list line) :=
  let phiedge := (PI * r * r * spsi self * Bbar self)%R in
  let temp := (- p2 self * r * r)%R in
  let am := [temp; (- temp)%R] in
  let pmass_type := "power_series" in
  let pres_scale := 1 in
  let ncurr := 1 in
  let pcurr_type := "power_series" in
  let ac := [1] in
  let curtor := (2 * PI / mu0 * I2 self * r * r)%R in
  delt ← params !! "delt";
  nstep ← params !! "nstep";
  tcon0 ← params !! "tcon0";
  ns_array ← params !! "ns_array";
  ftol_array ← params !! "ftol_array";
  niter_array ← params !! "niter_array";
  Some (
    [ Literal "! This &INDATA namelist was generated by pyQSC: github.com/landreman/pyQSC";
      DateLine;
      Banner [("! Near-axis parameters:  radius r = ", SFloat r);
            (", etabar = ", SFloat (etabar self))];
      Banner [("! nphi = ", SInt (nphi self)); (", order = ", SStr (order self));
            (", sigma0 = ", SFloat (sigma0 self)); (", I2 = ", SFloat (I2 self));
            (", B0 = ", SFloat (B0 self))];
      Banner [("! Resolution parameters: ntheta = ", SInt ntheta);
            (", mpol = ", SInt mpol); (", ntor = ", SInt ntor)];
      Literal "!----- Runtime Parameters -----";
      Literal "&INDATA";
      Assign "DELT" (SVal delt);
      Assign "NSTEP" (SVal nstep);
      Assign "TCON0" (SVal tcon0);
      AssignSliced "NS_ARRAY" (SVal ns_array);
      AssignSliced "FTOL_ARRAY" (SVal ftol_array);
      AssignSliced "NITER_ARRAY" (SVal niter_array);
      Literal "!----- Grid Parameters -----";
      Assign "LASYM" (SBool (lasym self));
      Assign "NFP" (SInt (nfp self));
      Assign "MPOL" (SInt mpol);
      Assign "NTOR" (SInt (Z.min ntor ntorMax));
      Assign "PHIEDGE" (SFloat phiedge);
      Literal "!----- Pressure Parameters -----";
      Assign "PRES_SCALE" (SInt pres_scale);
      AssignQuoted "PMASS_TYPE" pmass_type;
      AssignSliced "AM" (SFloats am);
      Literal "!----- Current/Iota Parameters -----";
      Assign "CURTOR" (SFloat curtor);
      Assign "NCURR" (SInt ncurr);
      AssignQuoted "PCURR_TYPE" pcurr_type;
      AssignSliced "AC" (SInts ac);
      Literal "!----- Axis Parameters -----";
      AssignSliced "RAXIS_CC" (SFloats (rc self)) ]
    ++ (if lasym self
        then [ AssignSliced "RAXIS_CS" (SFloats (Ropp <$> rs self));
               AssignSliced "ZAXIS_CC" (SFloats (zc self)) ]
        else [])
    ++ [ AssignSliced "ZAXIS_CS" (SFloats (Ropp <$> zs self));
         Literal "!----- Boundary Parameters -----" ]).

(** [to_vmec(self, filename, r, params, ntheta, ntorMax)]: the lines
    written to [filename], [self] with its new attributes, and [params]
    as the call leaves it. *)
Definition to_vmec (self : Qsc) (filename : string) (r : R)
    (params : gmap string pyval) (ntheta ntorMax : Z)
  : option (list line * Qsc * gmap string pyval) :=
  mpol ← choose_mpol params ntheta;
  ntor ← choose_ntor params self;
  let params := fill_defaults params in
  '(R_2D, Z_2D, phi0_2D) ← Frenet_to_cylindrical self r ntheta;
  '(RBC, RBS, ZBC, ZBS) ← to_Fourier R_2D Z_2D (nfp self) ntheta mpol ntor (lasym self);
  file ← indata_lines self r params ntheta ntorMax mpol ntor;
  file ← boundary_records (lasym self) mpol ntor RBC RBS ZBC ZBS file;
  let file := file ++ [Literal "/"] in
  '(rbs, zbc) ← (if lasym self
                 then rbs ← obj_transpose RBS; zbc ← obj_transpose ZBC; Some (rbs, zbc)
                 else Some (RBS, ZBC));
  Some (file,
        bind_spectra self (NdArray (transpose RBC)) (NdArray (transpose ZBS)) rbs zbc,
        params).
End to_vmec.

End ToVmec.

(** ** Vocabulary of the statements *)

Module Vocabulary.
Import ToVmec.
Local Open Scope Z_scope.

(** An array of [rows] rows and [cols] columns. *)
Definition has_shape (rows cols : nat) (a : grid) : bool :=
  (length a =? rows)%nat && forallb (fun row => (length row =? cols)%nat) a.

(** The entry in row [k], column [l]. *)
Definition entry (a : grid) (k l : nat) : option R := row ← a !! k; row !! l.

(** The sample [X[j_theta, j_phi]], read as zero outside the grid. *)
Definition sample (X : grid) (j_theta j_phi : Z) : R :=
  default 0%R (getitem X j_theta j_phi).

(** The sum of [g x] over the elements of [xs]. *)
Definition big_sum {A : Type} (xs : list A) (g : A -> R) : R :=
  fold_right (fun x acc => (g x + acc)%R) 0%R xs.

(** The grid angles: [theta[j] = j * (2 pi / ntheta)] and
    [phi[j] = j * ((2 pi / nfp) / nphi)]. *)
Definition theta_at (ntheta j : Z) : R := (IZR j * (2 * PI / IZR ntheta))%R.
Definition phi_at (nfp nphi j : Z) : R := (IZR j * (2 * PI / IZR nfp / IZR nphi))%R.

(** The amplitude of mode [(m, n)] as the specification words it: the sum
    over every grid point of [sample * trig(m*theta - n*nfp*phi) * scale]. *)
Definition mode_sum (X : grid) (trig : R -> R) (nfp ntheta nphi m n : Z) (scale : R) : R :=
  big_sum (range nphi) (fun j_phi =>
    big_sum (range ntheta) (fun j_theta =>
      (sample X j_theta j_phi
       * trig (IZR m * theta_at ntheta j_theta
               - IZR n * IZR nfp * phi_at nfp nphi j_phi)
       * scale)%R)).

(** The modes the loop visits: every [m] in [0, mpol] and [n] in
    [-ntor, ntor], without [n <= 0] when [m = 0]. *)
Definition admissible (mpol ntor m n : Z) : Prop :=
  0 <= m <= mpol /\ - ntor <= n <= ntor /\ (m = 0 -> 1 <= n).

(** The two Nyquist conditions as the specification words them: [ntheta]
    even and [m = ntheta/2]; [nphi] even and [|n| = nphi/2]. *)
Definition nyquist_theta (ntheta m : Z) : bool := Z.even ntheta && (2 * m =? ntheta).
Definition nyquist_phi (nphi n : Z) : bool := Z.even nphi && (2 * Z.abs n =? nphi).

(** The four accumulators, by name, with the grid each one samples and the
    function it applies to the angle. *)
Inductive component := cRBC | cRBS | cZBC | cZBS.

Definition component_of (s : spectra) (c : component) : grid :=
  match c with
  | cRBC => acc_RBC s
  | cRBS => acc_RBS s
  | cZBC => acc_ZBC s
  | cZBS => acc_ZBS s
  end.

Definition grid_of (R_2D Z_2D : grid) (c : component) : grid :=
  match c with cRBC | cRBS => R_2D | cZBC | cZBS => Z_2D end.

Definition trig_of (c : component) : R -> R :=
  match c with cRBC | cZBC => cos | cRBS | cZBS => sin end.

(** An array of the given shape whose entries are the values of [f]. *)
Definition holds (rows cols : nat) (a : grid) (f : nat -> nat -> R) : Prop :=
  has_shape rows cols a = true /\
  forall k l, (k < rows)%nat -> (l < cols)%nat -> entry a k l = Some (f k l).

(** The four accumulators hold [f]. *)
Definition tracks (rows cols : nat) (s : spectra)
    (f : component -> nat -> nat -> R) : Prop :=
  forall c, holds rows cols (component_of s c) (f c).

(** A step that succeeds on accumulators of the given shape and adds [d]
    to their entries. *)
Definition adds (rows cols : nat) (step : spectra -> option spectra)
    (d : component -> nat -> nat -> R) : Prop :=
  forall s f, tracks rows cols s f ->
    exists s', step s = Some s'
      /\ tracks rows cols s' (fun c k l => (f c k l + d c k l)%R).

(** What one pass through the loop body, at grid point [(jt, jp)] and mode
    [(m, n)], adds to entry [(k, l)] of accumulator [c]. *)
Definition term (R_2D Z_2D : grid) (nfp ntheta ntor nphi : Z) (factor : R)
    (jp jt m n : Z) (c : component) (k l : nat) : R :=
  if decide (k = Z.to_nat (n + ntor) /\ l = Z.to_nat m)
  then (sample (grid_of R_2D Z_2D c) jt jp
        * trig_of c (angle_of nfp m n (theta_at ntheta jt) (phi_at nfp nphi jp))
        * factor2 factor ntheta nphi m n)%R
  else 0%R.

(** What the four nested loops add to entry [(k, l)] of accumulator [c]. *)
Definition total (R_2D Z_2D : grid) (nfp ntheta mpol ntor nphi : Z) (factor : R)
    (c : component) (k l : nat) : R :=
  big_sum (range nphi) (fun jp =>
    big_sum (range ntheta) (fun jt =>
      big_sum (range (mpol + 1)) (fun m =>
        big_sum (range2 (if m =? 0 then 1 else - ntor) (ntor + 1)) (fun n =>
          term R_2D Z_2D nfp ntheta ntor nphi factor jp jt m n c k l)))).

(** The entries of [RBC] and [ZBC] once the means are written over
    position [(ntor, 0)]. *)
Definition RBC_entry (R_2D Z_2D : grid) (nfp ntheta mpol ntor nphi : Z) (k l : nat) : R :=
  if decide (k = Z.to_nat ntor /\ l = Z.to_nat 0)
  then (np_sum R_2D / IZR (ntheta * nphi))%R
  else total R_2D Z_2D nfp ntheta mpol ntor nphi (2 / IZR (ntheta * nphi)) cRBC k l.

Definition ZBC_entry (R_2D Z_2D : grid) (nfp ntheta mpol ntor nphi : Z) (k l : nat) : R :=
  if decide (k = Z.to_nat ntor /\ l = Z.to_nat 0)
  then (np_sum Z_2D / IZR (ntheta * nphi))%R
  else total R_2D Z_2D nfp ntheta mpol ntor nphi (2 / IZR (ntheta * nphi)) cZBC k l.

(** The arithmetic mean of all the samples of a grid. *)
Definition arithmetic_mean (X : grid) : R :=
  (big_sum (concat X) (fun x => x) / INR (length (concat X)))%R.

(** A spectrum read at a mode index, a scalar standing for every entry
    (numpy's broadcasting). *)
Definition coefficient (o : pyobj) (i j : Z) : option R :=
  match o with
  | PyInt z => Some (IZR z)
  | NdArray a => getitem a i j
  end.

(** An entry of a returned spectrum, read as zero where there is none. *)
Definition obj_sample (o : pyobj) (i j : Z) : R := default 0%R (obj_getitem o i j).

(** The boundary records of mode [(m, n)]: the [RBC]/[ZBS] record when one
    of the two coefficients is not zero, followed by the [RBS]/[ZBC]
    record when the configuration is not stellarator-symmetric. *)
Definition records_at (lasym : bool) (ntor : Z) (RBC : grid) (RBS ZBC : pyobj)
    (ZBS : grid) (m n : Z) : list line :=
  if nonzero (sample RBC (n + ntor) m) || nonzero (sample ZBS (n + ntor) m) then
    Boundary "RBC" n m (sample RBC (n + ntor) m) "ZBS" (sample ZBS (n + ntor) m)
    :: (if lasym
        then [Boundary "RBS" n m (obj_sample RBS (n + ntor) m)
                       "ZBC" (obj_sample ZBC (n + ntor) m)]
        else [])
  else [].

(** All the boundary records, in the order of the loop. *)
Definition all_records (lasym : bool) (mpol ntor : Z) (RBC : grid) (RBS ZBC : pyobj)
    (ZBS : grid) : list line :=
  m ← range (mpol + 1);
  n ← range2 (- ntor) (ntor + 1);
  records_at lasym ntor RBC RBS ZBC ZBS m n.

(** The lines that are boundary records. *)
Definition is_boundary (l : line) : bool :=
  match l with Boundary _ _ _ _ _ _ => true | _ => false end.

End Vocabulary.

(** ** Sample configurations *)

Module Samples.

Local Open Scope R_scope.

(** An interpolant that is exact on constant data: the first sample. *)
Definition first_sample (x y : list R) (t : R) : R := hd 0 y.

(** Four equal samples, and the four grid angles of one field period. *)
Local Abbreviation four x := [x; x; x; x].
Definition phi_grid (nfp : Z) : list R :=
  [0; 2 * PI / IZR nfp / 4; 2 * (2 * PI / IZR nfp / 4); 3 * (2 * PI / IZR nfp / 4)].

(** Second order, unit field, only the [B2c] harmonic present. *)
Definition second_order_B2c : Qsc :=
  {| rc := [1]; rs := []; zc := []; zs := [0]; nfp := 1; nphi := 4;
     phi := phi_grid 1;
     tangent_cylindrical := four (Cyl 0 1 0);
     normal_cylindrical := four (Cyl 1 0 0);
     binormal_cylindrical := four (Cyl 0 0 1);
     X1c := four 1; X1s := four 0; Y1c := four 0; Y1s := four 1;
     X20 := four 0; X2c := four 0; X2s := four 0;
     Y20 := four 0; Y2c := four 0; Y2s := four 0;
     Z20 := four 0; Z2c := four 0; Z2s := four 0; B20 := four 0;
     iota := 0; iotaN := 0; order := "r2"; B0 := 1; etabar := 0;
     B2c := 1; B2s := 0; sigma0 := 0; spsi := 1; Bbar := 1; p2 := 0; I2 := 0;
     lasym := false; RBC := None; ZBS := None; RBS := None; ZBC := None |}.

(** First order, one field period, [iota - iotaN = 1/2]: the frame turns
    by half a turn over a period. *)
Definition half_turn : Qsc :=
  {| rc := [1]; rs := []; zc := []; zs := [0]; nfp := 1; nphi := 4;
     phi := phi_grid 1;
     tangent_cylindrical := four (Cyl 0 1 0);
     normal_cylindrical := four (Cyl 1 0 0);
     binormal_cylindrical := four (Cyl 0 0 1);
     X1c := four 1; X1s := four 0; Y1c := four 0; Y1s := four 0;
     X20 := []; X2c := []; X2s := []; Y20 := []; Y2c := []; Y2s := [];
     Z20 := []; Z2c := []; Z2s := []; B20 := [];
     iota := 1 / 2; iotaN := 0; order := "r1"; B0 := 1; etabar := 1;
     B2c := 0; B2s := 0; sigma0 := 0; spsi := 1; Bbar := 1; p2 := 0; I2 := 0;
     lasym := false; RBC := None; ZBS := None; RBS := None; ZBC := None |}.

(** First order, three field periods, helicity one:
    [iota - iotaN = -1 * nfp]. *)
Definition helical : Qsc :=
  {| rc := [1; 1 / 10]; rs := []; zc := []; zs := [0; 1 / 10]; nfp := 3;
     nphi := 4; phi := phi_grid 3;
     tangent_cylindrical := four (Cyl 0 1 0);
     normal_cylindrical := four (Cyl 1 0 0);
     binormal_cylindrical := four (Cyl 0 0 1);
     X1c := four 1; X1s := four 0; Y1c := four 0; Y1s := four 1;
     X20 := []; X2c := []; X2s := []; Y20 := []; Y2c := []; Y2s := [];
     Z20 := []; Z2c := []; Z2s := []; B20 := [];
     iota := 1; iotaN := 4; order := "r1"; B0 := 1; etabar := 1;
     B2c := 0; B2s := 0; sigma0 := 0; spsi := 1; Bbar := 1; p2 := 0; I2 := 0;
     lasym := false; RBC := None; ZBS := None; RBS := None; ZBC := None |}.

(** Grids of two poloidal by four toroidal samples, and a single-sample
    grid. *)
Definition R_grid : grid := [[1; 2; 3; 4]; [5; 6; 7; 8]].
Definition Z_grid : grid := [[0; 1; 0; -1]; [1; 0; -1; 0]].
Definition unit_grid : grid := [[1]].

(** A surface that does not depend on the configuration: the two-by-four
    grids. *)
Definition sampled_surface (self : Qsc) (r : R) (ntheta : Z)
  : option (grid * grid * grid) := Some (R_grid, Z_grid, R_grid).

(** The vacuum permeability [4 pi 1e-7] of [qsc/util.py]. *)
Definition mu0 : R := 4 * PI / 10 ^ 7.

(** A caller that asks for more poloidal modes than the solver takes, and
    one that asks for the mean mode alone. *)
Definition many_modes : gmap string ToVmec.pyval :=
  {[ "mpol"%string := ToVmec.PInt 150; "ntor"%string := ToVmec.PInt 0 ]}.
Definition mean_mode_only : gmap string ToVmec.pyval :=
  {[ "mpol"%string := ToVmec.PInt 0; "ntor"%string := ToVmec.PInt 0 ]}.

End Samples.

(** ** plot.py: the arrays that [plot] draws *)

Module PlotData.
Import Plot.

Local Open Scope R_scope.

(** [np.linspace(0, stop, num)] with its end point: [arange(num)] times the
    step [stop/(num-1)], the last entry then set to [stop]; a single point
    is [0]; [ValueError] on a negative [num]. *)
Definition linspace_closed (stop : R) (num : Z) : option (list R) :=
  if (num <? 0)%Z then None
  else if (num <=? 1)%Z then Some ((fun j => IZR j * stop) <$> range num)
  else Some (((fun j => IZR j * (stop / IZR (num - 1))) <$> range (num - 1))
             ++ [stop]).

(** [X, Y = np.meshgrid(xs, ys)]: one row per element of [ys], one column
    per element of [xs]. *)
Definition meshgrid (xs ys : list R) : grid * grid :=
  ((fun _ => xs) <$> ys, (fun y => (fun _ => y) <$> xs) <$> ys).

(** A function of two arguments applied entry by entry to two arrays. *)
Definition map2 (f : R -> R -> R) (A B : grid) : grid :=
  zip_with (zip_with f) A B.

(** [a.min()] and [a.max()]: [ValueError] on an array without entries. *)
Definition np_min (a : grid) : option R :=
  match concat a with
  | [] => None
  | x :: xs => Some (fold_left Rmin xs x)
  end.

Definition np_max (a : grid) : option R :=
  match concat a with
  | [] => None
  | x :: xs => Some (fold_left Rmax xs x)
  end.

(** Line 163: [(Bmag - Bmag.min()) / (Bmag.max() - Bmag.min())].  On a
    constant array numpy divides zero by zero and fills the result with
    nan without raising; the quotient written here is then not the value
    of the code, and nothing is stated about it. *)
Definition rescale (Bmag : grid) : option grid :=
  lo ← np_min Bmag;
  hi ← np_max Bmag;
  lo' ← np_min Bmag;
  Some ((fun row : list R => (fun b => (b - lo) / (hi - lo')) <$> row) <$> Bmag).

(** One poloidal cut: the curve that is drawn and the axis point. *)
Record cut := Cut {
  cut_R : list R;
  cut_Z : list R;
  cut_axis : R * R
}.

(** What [plot] hands to matplotlib. *)
Record figures := Figures {
  cuts : list cut;
  Xsurf : grid;
  Ysurf : grid;
  Zsurf : grid;
  B_rescaled : grid
}.

Section plot.
Variable spline : list R -> list R -> R -> R.
Variable self : Qsc.

(** Lines 120-137 and 155-163 of [plot], without the drawing calls, the
    labels and the colours.  [2*np.pi/self.nfp] on line 121 is the first
    division by [nfp] that is evaluated: [ZeroDivisionError] when it is 0. *)
Definition plot_arrays (r : R) (nphi ntheta nsections : Z) : option figures :=
  theta ← linspace_closed (2 * PI) ntheta;
  period ← (if (nfp self =? 0)%Z then None else Some (2 * PI / IZR (nfp self)));
  phi1D ← ToVmec.linspace period nsections;
  let cuts :=
    (fun phi => Cut (rSurf spline self r phi <$> theta)
                    (zSurf spline self r phi <$> theta)
                    (Raxisf self phi, Zaxisf self phi)) <$> phi1D in
  theta1d ← linspace_closed (2 * PI) ntheta;
  phi1d ← linspace_closed (2 * PI) nphi;
  let '(phi2D, theta2D) := meshgrid phi1d theta1d in
  let rs := map2 (rSurf spline self r) phi2D theta2D in
  let Zsurf := map2 (zSurf spline self r) phi2D theta2D in
  let Xsurf := map2 (fun a p => a * cos p) rs phi2D in
  let Ysurf := map2 (fun a p => a * sin p) rs phi2D in
  let Bmag := map2 (Bf spline self r) phi2D theta2D in
  B_rescaled ← rescale Bmag;
  Some (Figures cuts Xsurf Ysurf Zsurf B_rescaled).
End plot.

End PlotData.

(** ** More vocabulary *)

Module MoreVocabulary.
Import ToVmec Vocabulary.

(** The four accumulators have the given shape. *)
Definition shaped (rows cols : nat) (s : spectra) : Prop :=
  forall c, has_shape rows cols (component_of s c) = true.

(** The grid with every sample multiplied by [c]. *)
Definition scale_grid (c : R) (X : grid) : grid :=
  (fun row : list R => Rmult c <$> row) <$> X.

(** The value [to_Fourier] leaves for mode [(m, n)] in a cosine spectrum of
    the grid [X]: the mean at [(0, 0)], nothing for the other unvisited
    modes, the sum over the grid otherwise. *)
Definition cosine_amplitude (X : grid) (nfp ntheta nphi m n : Z) : R :=
  if decide (m = 0 /\ n = 0)%Z then (np_sum X / IZR (ntheta * nphi))%R
  else if ((m =? 0) && (n <=? 0))%Z then 0%R
  else mode_sum X cos nfp ntheta nphi m n
         (factor2 (2 / IZR (ntheta * nphi)) ntheta nphi m n).

(** The same for a sine spectrum, which has no mean. *)
Definition sine_amplitude (X : grid) (nfp ntheta nphi m n : Z) : R :=
  if ((m =? 0) && (n <=? 0))%Z then 0%R
  else mode_sum X sin nfp ntheta nphi m n
         (factor2 (2 / IZR (ntheta * nphi)) ntheta nphi m n).


(** The defaults of lines 84-95, as a dictionary. *)
Definition default_params : gmap string pyval :=
  {[ "delt"%string := PFloat (9 / 10);
     "nstep"%string := PInt 200;
     "tcon0"%string := PFloat 2;
     "ns_array"%string := PInts [16; 49; 101]%Z;
     "ftol_array"%string := PFloats [/ 10 ^ 13; / 10 ^ 12; / 10 ^ 11]%R;
     "niter_array"%string := PInts [1000; 1000; 1500]%Z ]}.

(** A mode count of [params] that [to_vmec] cannot use: [int(v)] raises,
    or gives a negative number. *)
Definition unusable_count (v : pyval) : Prop :=
  match py_int v with
  | None => True
  | Some z => (z < 0)%Z
  end.

(** The first and the last line written before the boundary records. *)
Definition banner : line :=
  Literal "! This &INDATA namelist was generated by pyQSC: github.com/landreman/pyQSC".
Definition boundary_heading : line := Literal "!----- Boundary Parameters -----".

End MoreVocabulary.

(** ** The surface of plot.py *)

Module PlotFacts.
Import Plot.
Local Open Scope R_scope.

Lemma py_sum_from (xs : list R) (a : R) :
  fold_left Rplus xs a = a + fold_right Rplus 0 xs.
Proof.
  revert a. induction xs as [|x xs IH]; intros a; simpl.
  - lra.
  - rewrite IH. lra.
Qed.

Lemma py_sum_foldr (xs : list R) : py_sum xs = fold_right Rplus 0 xs.
Proof. unfold py_sum. rewrite py_sum_from. lra. Qed.

Lemma axis_sum_fourier (self : Qsc) (trig : R -> R) (phi0 : R) (cs pre : list R) :
  fold_right Rplus 0
    (map (fun i => nth i (pre ++ cs) 0 * trig (IZR (Z.of_nat i * nfp self) * phi0))
         (seq (length pre) (length cs)))
  = fourier_from self trig (length pre) cs phi0.
Proof.
  revert pre. induction cs as [|c cs IH]; intros pre; simpl.
  - reflexivity.
  - rewrite app_nth2 by lia. rewrite Nat.sub_diag. simpl.
    rewrite mult_IZR, <- INR_IZR_INZ. f_equal.
    specialize (IH (pre ++ [c])).
    rewrite length_app in IH. simpl in IH.
    rewrite Nat.add_1_r in IH. rewrite <- IH.
    rewrite <- app_assoc. reflexivity.
Qed.

Lemma Raxisf_fourier self phi0 : Raxisf self phi0 = fourier_from self cos 0 (rc self) phi0.
Proof.
  unfold Raxisf. rewrite py_sum_foldr. apply (axis_sum_fourier self cos phi0 (rc self) []).
Qed.

Lemma Zaxisf_fourier self phi0 : Zaxisf self phi0 = fourier_from self sin 0 (zs self) phi0.
Proof.
  unfold Zaxisf. rewrite py_sum_foldr. apply (axis_sum_fourier self sin phi0 (zs self) []).
Qed.

(** Claim C7.  At radius [r = 0] the surface collapses to the magnetic
    axis: for every configuration, every interpolant and all [phi], [theta],
    [rSurf 0 phi theta] and [zSurf 0 phi theta] are the truncated Fourier
    sums [sum_i rc[i] cos(i nfp phi)] and [sum_i zs[i] sin(i nfp phi)] of
    the stored axis coefficients, whatever [theta]. *)
Theorem surface_at_zero_radius_is_axis (spline : list R -> list R -> R -> R)
    (self : Qsc) (phi0 theta : R) :
  evaluateSurface spline self 0 phi0 theta = evaluateAxis self phi0.
Proof.
  unfold evaluateSurface, evaluateAxis, rSurf, zSurf.
  rewrite Raxisf_fourier, Zaxisf_fourier. f_equal; simpl; ring.
Qed.


(** Periodicity of the trigonometric functions over whole turns. *)
Lemma cos_turns (x : R) (k : Z) : cos (x + 2 * IZR k * PI) = cos x.
Proof.
  destruct (Z_le_gt_dec 0 k) as [Hk|Hk].
  - rewrite <- (Z2Nat.id k Hk), <- INR_IZR_INZ. apply cos_period.
  - rewrite <- (cos_period (x + 2 * IZR k * PI) (Z.to_nat (- k))).
    rewrite INR_IZR_INZ, Z2Nat.id by lia. rewrite opp_IZR. f_equal. ring.
Qed.

Lemma sin_turns (x : R) (k : Z) : sin (x + 2 * IZR k * PI) = sin x.
Proof.
  destruct (Z_le_gt_dec 0 k) as [Hk|Hk].
  - rewrite <- (Z2Nat.id k Hk), <- INR_IZR_INZ. apply sin_period.
  - rewrite <- (sin_period (x + 2 * IZR k * PI) (Z.to_nat (- k))).
    rewrite INR_IZR_INZ, Z2Nat.id by lia. rewrite opp_IZR. f_equal. ring.
Qed.

(** [np.mod(., p)] does not see a shift by [p]. *)
Lemma np_mod_shift (x p : R) : p <> 0 -> np_mod (x + p) p = np_mod x p.
Proof.
  intros Hp. unfold np_mod.
  replace ((x + p) / p) with (x / p + IZR 1) by (field; exact Hp).
  rewrite Zfloor_addz, plus_IZR. ring.
Qed.

Section periodicity.
Variable spline : list R -> list R -> R -> R.
Variable self : Qsc.
Hypothesis nfp_nonzero : nfp self <> 0%Z.

Let period := 2 * PI / IZR (nfp self).

Lemma nfp_real_nonzero : IZR (nfp self) <> 0.
Proof. apply not_0_IZR. exact nfp_nonzero. Qed.

Lemma period_nonzero : period <> 0.
Proof.
  unfold period. pose proof PI_RGT_0. pose proof nfp_real_nonzero.
  intros H1. apply (Rmult_eq_compat_r (IZR (nfp self))) in H1.
  unfold Rdiv in H1. rewrite Rmult_assoc, Rinv_l in H1 by assumption. lra.
Qed.

Lemma splined_periodic (y : list R) (phi0 : R) :
  splined spline self y (phi0 + period) = splined spline self y phi0.
Proof.
  unfold splined. fold period. rewrite np_mod_shift by apply period_nonzero.
  reflexivity.
Qed.

Lemma fourier_from_periodic (i : nat) (cs : list R) (phi0 : R) :
  fourier_from self cos i cs (phi0 + period) = fourier_from self cos i cs phi0
  /\ fourier_from self sin i cs (phi0 + period) = fourier_from self sin i cs phi0.
Proof.
  pose proof nfp_real_nonzero as Hn.
  revert i. induction cs as [|c cs IH]; intros i; simpl; [split; reflexivity|].
  destruct (IH (S i)) as [IHc IHs]. rewrite IHc, IHs.
  replace (INR i * IZR (nfp self) * (phi0 + period))
    with (INR i * IZR (nfp self) * phi0 + 2 * INR i * PI)
    by (unfold period; field; exact Hn).
  rewrite cos_period, sin_period. split; reflexivity.
Qed.
End periodicity.

(** Claim C2, as the code has it.  When [nfp] is not zero and
    [iota - iotaN] is a whole multiple [k * nfp] of the field-period count,
    the surface has period [2 pi / nfp] in the toroidal angle, in both its
    R and its Z component. *)
Theorem surface_periodic_for_whole_helicity (spline : list R -> list R -> R -> R)
    (self : Qsc) (k : Z) (r phi0 theta : R) :
  nfp self <> 0%Z ->
  iota self - iotaN self = IZR k * IZR (nfp self) ->
  evaluateSurface spline self r (phi0 + 2 * PI / IZR (nfp self)) theta
  = evaluateSurface spline self r phi0 theta.
Proof.
  intros Hn Hk.
  pose proof (nfp_real_nonzero self Hn) as Hn'.
  set (P := 2 * PI / IZR (nfp self)).
  set (tN := theta - (iota self - iotaN self) * phi0).
  assert (Hth : theta - (iota self - iotaN self) * (phi0 + P)
                = tN + 2 * IZR (- k) * PI).
  { unfold tN, P. rewrite Hk, opp_IZR. field. exact Hn'. }
  assert (Hth2 : 2 * (tN + 2 * IZR (- k) * PI) = 2 * tN + 2 * IZR (2 * - k) * PI).
  { rewrite mult_IZR. ring. }
  unfold evaluateSurface, rSurf, zSurf.
  unfold tangentR, tangentZ, normalR, normalZ, binormalR, binormalZ,
    X1cF, X1sF, Y1cF, Y1sF, X20F, X2cF, X2sF, Y20F, Y2cF, Y2sF, Z20F, Z2cF, Z2sF.
  fold P. fold tN. rewrite Hth, Hth2.
  unfold P. rewrite !(splined_periodic spline self Hn).
  rewrite !Raxisf_fourier, !Zaxisf_fourier.
  destruct (fourier_from_periodic self Hn 0 (rc self) phi0) as [-> _].
  destruct (fourier_from_periodic self Hn 0 (zs self) phi0) as [_ ->].
  rewrite !cos_turns, !sin_turns. reflexivity.
Qed.

Lemma surface_periodic_witness :
  nfp Samples.helical <> 0%Z /\
  iota Samples.helical - iotaN Samples.helical
    = IZR (-1) * IZR (nfp Samples.helical) /\
  evaluateSurface Samples.first_sample Samples.helical (1 / 10)
    (1 + 2 * PI / IZR (nfp Samples.helical)) 2
  = evaluateSurface Samples.first_sample Samples.helical (1 / 10) 1 2.
Proof.
  assert (H1 : nfp Samples.helical <> 0%Z) by (simpl; lia).
  assert (H2 : iota Samples.helical - iotaN Samples.helical
               = IZR (-1) * IZR (nfp Samples.helical)) by (simpl; lra).
  split; [exact H1|]. split; [exact H2|].
  exact (surface_periodic_for_whole_helicity Samples.first_sample Samples.helical
           (-1) (1 / 10) 1 2 H1 H2).
Defined.

(** Claim C2, as stated for any [iota], [iotaN], [nfp], fails: with
    [nfp = 1] and [iota - iotaN = 1/2] the corrected angle moves by half a
    turn over one period, and the R component at [r = 1], [phi = 0],
    [theta = 0] is 2 before the shift and 0 after it. *)
Lemma surface_not_periodic_in_general :
  ~ (forall (spline : list R -> list R -> R -> R) (self : Qsc) (r phi0 theta : R),
        evaluateSurface spline self r phi0 theta
        = evaluateSurface spline self r (phi0 + 2 * PI / IZR (nfp self)) theta).
Proof.
  intros H.
  specialize (H Samples.first_sample Samples.half_turn 1 0 0).
  apply (f_equal fst) in H.
  unfold evaluateSurface, rSurf, fst in H.
  unfold tangentR, normalR, binormalR, X1cF, X1sF, Y1cF, Y1sF, splined,
    Samples.first_sample, Raxisf, py_sum, is_r1 in H.
  simpl in H.
  replace (0 - (1 / 2 - 0) * 0) with 0 in H by lra.
  replace (0 - (1 / 2 - 0) * (0 + 2 * PI / 1)) with (- PI) in H by lra.
  replace (IZR (Z.of_nat 0 * 1)) with 0 in H by reflexivity.
  rewrite !Rmult_0_l, cos_neg, cos_0, cos_PI in H.
  lra.
Qed.

(** Claim C1, on the code.  On a second-order configuration with
    [B0 = 1], [etabar = 0], [B2c = 1], [B2s = 0] and [B20 = 0], at [r = 1],
    [phi = 0], [theta = pi], [Bf] returns 0 where the formula of the
    claim gives 2: the code takes the [B2c] and [B2s] harmonics at
    [thetaN], not at [2 * thetaN]. *)
Theorem Bf_second_order_single_angle :
  Bf Samples.first_sample Samples.second_order_B2c 1 0 PI = 0
  /\ Bf_spec Samples.first_sample Samples.second_order_B2c 1 0 PI = 2.
Proof.
  unfold Bf, Bf_spec, is_r1, B20F, splined, Samples.first_sample. simpl.
  replace (PI - (0 - 0) * 0) with PI by lra.
  rewrite cos_PI, sin_PI, cos_2PI, sin_2PI. split; lra.
Qed.

Lemma Bf_first_order (spline : list R -> list R -> R -> R) (self : Qsc) (r phi0 theta : R) :
  order self = "r1"%string ->
  Bf spline self r phi0 theta
  = B0 self * (1 + r * etabar self * cos (theta - (iota self - iotaN self) * phi0)).
Proof. intros H. unfold Bf, is_r1. rewrite H. reflexivity. Qed.

End PlotFacts.

(** ** Arrays, sums and loops *)

Module ArrayFacts.
Import ToVmec Vocabulary.
Local Open Scope Z_scope.

Lemma py_index_in_range (len : nat) (i : Z) :
  0 <= i < Z.of_nat len -> py_index len i = Some (Z.to_nat i).
Proof.
  intros [H0 H1]. unfold py_index.
  destruct (Z.leb_spec 0 i); [|lia]. destruct (Z.ltb_spec i (Z.of_nat len)); [|lia].
  reflexivity.
Qed.

Lemma has_shape_spec (rows cols : nat) (a : grid) :
  has_shape rows cols a = true <->
  length a = rows /\ forall k row, a !! k = Some row -> length row = cols.
Proof.
  unfold has_shape. rewrite andb_true_iff, Nat.eqb_eq, forallb_forall.
  split; intros [H1 H2]; split; try exact H1.
  - intros k row Hk. apply Nat.eqb_eq, H2.
    apply list_elem_of_In, list_elem_of_lookup. eauto.
  - intros row Hin. apply Nat.eqb_eq.
    apply list_elem_of_In, list_elem_of_lookup in Hin as [k Hk]. eauto.
Qed.

Lemma has_shape_entry (rows cols : nat) (a : grid) (k l : nat) :
  has_shape rows cols a = true -> (k < rows)%nat -> (l < cols)%nat ->
  is_Some (entry a k l).
Proof.
  intros [Hlen Hrow]%has_shape_spec Hk Hl. unfold entry.
  destruct (lookup_lt_is_Some_2 a k) as [row Hr]; [lia|].
  rewrite Hr. simpl. apply lookup_lt_is_Some_2. rewrite (Hrow _ _ Hr). exact Hl.
Qed.

Lemma getitem_entry (rows cols : nat) (a : grid) (i j : Z) :
  has_shape rows cols a = true ->
  0 <= i < Z.of_nat rows -> 0 <= j < Z.of_nat cols ->
  getitem a i j = entry a (Z.to_nat i) (Z.to_nat j).
Proof.
  intros [Hlen Hrow]%has_shape_spec Hi Hj. unfold getitem, entry.
  rewrite py_index_in_range by lia. simpl.
  destruct (a !! Z.to_nat i) as [row|] eqn:Hr; [|reflexivity]. simpl.
  rewrite py_index_in_range by (rewrite (Hrow _ _ Hr); lia). reflexivity.
Qed.

Lemma setitem_spec (rows cols : nat) (a : grid) (i j : Z) (v : R) :
  has_shape rows cols a = true ->
  0 <= i < Z.of_nat rows -> 0 <= j < Z.of_nat cols ->
  exists a', setitem a i j v = Some a'
    /\ has_shape rows cols a' = true
    /\ forall k l, (k < rows)%nat -> (l < cols)%nat ->
         entry a' k l
         = if decide (k = Z.to_nat i /\ l = Z.to_nat j) then Some v else entry a k l.
Proof.
  intros Hs Hi Hj. pose proof Hs as [Hlen Hrow]%has_shape_spec.
  unfold setitem. rewrite py_index_in_range by lia. simpl.
  destruct (lookup_lt_is_Some_2 a (Z.to_nat i)) as [row Hr]; [lia|].
  rewrite Hr. simpl. pose proof (Hrow _ _ Hr) as Hrl.
  rewrite py_index_in_range by lia. simpl.
  eexists. split; [reflexivity|]. split.
  - apply has_shape_spec. rewrite length_insert. split; [exact Hlen|].
    intros k r Hk. destruct (decide (k = Z.to_nat i)) as [->|Hne].
    + rewrite list_lookup_insert_eq in Hk by lia. injection Hk as <-.
      rewrite length_insert. exact Hrl.
    + rewrite list_lookup_insert_ne in Hk by congruence. eauto.
  - intros k l Hk Hl. unfold entry.
    destruct (decide (k = Z.to_nat i)) as [->|Hne].
    + rewrite list_lookup_insert_eq by lia. simpl. rewrite Hr. simpl.
      destruct (decide (l = Z.to_nat j)) as [->|Hne'].
      * rewrite list_lookup_insert_eq by lia.
        rewrite decide_True by done. reflexivity.
      * rewrite list_lookup_insert_ne by congruence.
        rewrite decide_False by (intros [_ ?]; done). reflexivity.
    + rewrite list_lookup_insert_ne by congruence.
      rewrite decide_False by (intros [? _]; done). reflexivity.
Qed.

Lemma np_zeros_spec (rows cols : Z) :
  0 <= rows -> 0 <= cols ->
  exists a, np_zeros rows cols = Some a
    /\ has_shape (Z.to_nat rows) (Z.to_nat cols) a = true
    /\ forall k l, (k < Z.to_nat rows)%nat -> (l < Z.to_nat cols)%nat ->
         entry a k l = Some 0%R.
Proof.
  intros Hr Hc. unfold np_zeros.
  destruct (Z.leb_spec 0 rows); [|lia]. destruct (Z.leb_spec 0 cols); [|lia]. simpl.
  eexists. split; [reflexivity|]. split.
  - apply has_shape_spec. rewrite length_replicate. split; [reflexivity|].
    intros k row [-> _]%lookup_replicate. apply length_replicate.
  - intros k l Hk Hl. unfold entry. rewrite lookup_replicate_2 by exact Hk. simpl.
    apply lookup_replicate_2. exact Hl.
Qed.

Lemma lookup_range (n j : Z) : 0 <= j < n -> range n !! Z.to_nat j = Some j.
Proof.
  intros Hj. unfold range. rewrite lookup_seqZ_lt by lia. f_equal. lia.
Qed.

Lemma elem_of_range (n j : Z) : j ∈ range n <-> 0 <= j < n.
Proof. unfold range. rewrite elem_of_seqZ. lia. Qed.

Lemma elem_of_range2 (lo hi j : Z) : j ∈ range2 lo hi <-> lo <= j < hi.
Proof. unfold range2. rewrite elem_of_seqZ. lia. Qed.

End ArrayFacts.

Module SumFacts.
Import ToVmec Vocabulary.
Local Open Scope R_scope.

Lemma big_sum_ext {A : Type} (xs : list A) (g h : A -> R) :
  (forall x, x ∈ xs -> g x = h x) -> big_sum xs g = big_sum xs h.
Proof.
  induction xs as [|x xs IH]; intros Hgh; simpl; [reflexivity|].
  rewrite (Hgh x) by left. rewrite IH; [reflexivity|].
  intros y Hy. apply Hgh. right. exact Hy.
Qed.

Lemma big_sum_zero {A : Type} (xs : list A) : big_sum xs (fun _ => 0) = 0.
Proof. induction xs as [|x xs IH]; simpl; [reflexivity|]. rewrite IH. lra. Qed.

Lemma big_sum_only {A : Type} `{EqDecision A} (xs : list A) (a : A) (g : A -> R) :
  NoDup xs ->
  big_sum xs (fun x => if decide (x = a) then g x else 0)
  = if decide (a ∈ xs) then g a else 0.
Proof.
  induction 1 as [|x xs Hx Hnd IH].
  - destruct (decide (a ∈ [])) as [Hin|_]; [|reflexivity].
    apply not_elem_of_nil in Hin. contradiction.
  - cbn [big_sum fold_right]. fold (big_sum xs (fun x => if decide (x = a) then g x else 0)).
    rewrite IH.
    destruct (decide (x = a)) as [->|Hne], (decide (a ∈ xs)) as [Hin|Hnin];
      try contradiction.
    + destruct (decide (a ∈ a :: xs)) as [_|Hn]; [lra|]. exfalso. apply Hn. left.
    + destruct (decide (a ∈ x :: xs)) as [_|Hn]; [lra|]. exfalso. apply Hn. right. exact Hin.
    + destruct (decide (a ∈ x :: xs)) as [[?|?]%elem_of_cons|_]; [congruence|contradiction|lra].
Qed.

Lemma py_sum_big_sum (xs : list R) : py_sum xs = big_sum xs (fun x => x).
Proof.
  unfold py_sum.
  assert (H : forall a, fold_left Rplus xs a = a + big_sum xs (fun x => x)).
  { induction xs as [|x xs IH]; intros a; simpl; [lra|]. rewrite IH. lra. }
  rewrite H. lra.
Qed.

End SumFacts.

Module LoopFacts.
Import ToVmec Vocabulary ArrayFacts SumFacts.
Local Open Scope Z_scope.

Section shape.
Variables rows cols : nat.

Lemma holds_ext (a : grid) (f g : nat -> nat -> R) :
  (forall k l, (k < rows)%nat -> (l < cols)%nat -> f k l = g k l) ->
  holds rows cols a f -> holds rows cols a g.
Proof.
  intros Hfg [Hs Hf]. split; [exact Hs|].
  intros k l Hk Hl. rewrite Hf, Hfg by assumption. reflexivity.
Qed.

Lemma tracks_ext (s : spectra) (f g : component -> nat -> nat -> R) :
  (forall c k l, (k < rows)%nat -> (l < cols)%nat -> f c k l = g c k l) ->
  tracks rows cols s f -> tracks rows cols s g.
Proof. intros Hfg Hf c. eapply holds_ext; [apply Hfg|apply Hf]. Qed.

Lemma adds_ext (step : spectra -> option spectra) (d e : component -> nat -> nat -> R) :
  (forall c k l, (k < rows)%nat -> (l < cols)%nat -> d c k l = e c k l) ->
  adds rows cols step d -> adds rows cols step e.
Proof.
  intros Hde Hd s f Hf. destruct (Hd s f Hf) as (s' & Hs' & Hf').
  exists s'. split; [exact Hs'|]. eapply tracks_ext; [|exact Hf'].
  intros c k l Hk Hl. simpl. rewrite Hde by assumption. reflexivity.
Qed.

(** A loop adds the sum of what its iterations add. *)
Lemma adds_for_each {A : Type} (xs : list A) (body : A -> spectra -> option spectra)
    (d : A -> component -> nat -> nat -> R) :
  (forall x, x ∈ xs -> adds rows cols (body x) (d x)) ->
  adds rows cols (for_each xs body)
    (fun c k l => big_sum xs (fun x => d x c k l)).
Proof.
  induction xs as [|x xs IH]; intros Hbody s f Hf; simpl.
  - exists s. split; [reflexivity|]. eapply tracks_ext; [|exact Hf].
    intros; simpl; lra.
  - destruct (Hbody x) with (s := s) (f := f) as (s1 & Hs1 & Hf1); [left|exact Hf|].
    rewrite Hs1. simpl.
    destruct (IH (fun y Hy => Hbody y (list_elem_of_further _ _ _ Hy)) s1 _ Hf1)
      as (s2 & Hs2 & Hf2).
    exists s2. split; [exact Hs2|]. eapply tracks_ext; [|exact Hf2].
    intros; simpl; lra.
Qed.

(** One statement of the loop body adds its term at its position. *)
Lemma add_term_holds (a X : grid) (f : nat -> nat -> R) (i j jt jp : Z) (t w : R) :
  holds rows cols a f ->
  0 <= i < Z.of_nat rows -> 0 <= j < Z.of_nat cols ->
  is_Some (getitem X jt jp) ->
  exists a', add_term a i j X jt jp t w = Some a'
    /\ holds rows cols a'
         (fun k l => (f k l + if decide (k = Z.to_nat i /\ l = Z.to_nat j)
                              then sample X jt jp * t * w else 0)%R).
Proof.
  intros [Hs Hf] Hi Hj [x Hx]. unfold add_term.
  rewrite (getitem_entry rows cols a i j Hs Hi Hj).
  rewrite Hf by lia. simpl. rewrite Hx. simpl.
  destruct (setitem_spec rows cols a i j (f (Z.to_nat i) (Z.to_nat j) + x * t * w)%R)
    as (a' & Ha' & Hs' & He'); try assumption.
  exists a'. split; [exact Ha'|]. split; [exact Hs'|].
  intros k l Hk Hl. rewrite He' by assumption.
  unfold sample. rewrite Hx. simpl.
  destruct (decide (k = Z.to_nat i /\ l = Z.to_nat j)) as [[-> ->]|Hne].
  - reflexivity.
  - rewrite Hf by assumption. f_equal. lra.
Qed.
End shape.

Section accumulation.
Variables R_2D Z_2D : grid.
Variables nfp ntheta mpol ntor nphi : Z.
Variables theta phi_conversion : list R.
Variable factor : R.

Let rows := Z.to_nat (2 * ntor + 1).
Let cols := Z.to_nat (mpol + 1).

Hypothesis mpol_nonneg : 0 <= mpol.
Hypothesis ntor_nonneg : 0 <= ntor.
Hypothesis theta_ok :
  forall j, 0 <= j < ntheta -> getitem1 theta j = Some (theta_at ntheta j).
Hypothesis phi_ok :
  forall j, 0 <= j < nphi -> getitem1 phi_conversion j = Some (phi_at nfp nphi j).
Hypothesis R_2D_ok :
  forall jt jp, 0 <= jt < ntheta -> 0 <= jp < nphi -> is_Some (getitem R_2D jt jp).
Hypothesis Z_2D_ok :
  forall jt jp, 0 <= jt < ntheta -> 0 <= jp < nphi -> is_Some (getitem Z_2D jt jp).

Local Abbreviation term := (term R_2D Z_2D nfp ntheta ntor nphi factor).
Local Abbreviation total := (total R_2D Z_2D nfp ntheta mpol ntor nphi factor).

Lemma accumulate_adds (jp jt m n : Z) :
  0 <= jp < nphi -> 0 <= jt < ntheta -> 0 <= m <= mpol -> - ntor <= n <= ntor ->
  adds rows cols
    (accumulate R_2D Z_2D nfp ntheta ntor nphi theta phi_conversion factor jp jt m n)
    (term jp jt m n).
Proof.
  intros Hjp Hjt Hm Hn s f Hf. unfold accumulate.
  rewrite theta_ok, phi_ok by assumption. simpl.
  assert (Hi : 0 <= n + ntor < Z.of_nat rows) by (unfold rows; lia).
  assert (Hj : 0 <= m < Z.of_nat cols) by (unfold cols; lia).
  set (ang := angle_of nfp m n (theta_at ntheta jt) (phi_at nfp nphi jp)).
  set (w := factor2 factor ntheta nphi m n).
  destruct (add_term_holds rows cols (acc_RBC s) R_2D (f cRBC) (n + ntor) m jt jp
              (cos ang) w (Hf cRBC) Hi Hj (R_2D_ok jt jp Hjt Hjp)) as (a1 & -> & H1).
  destruct (add_term_holds rows cols (acc_RBS s) R_2D (f cRBS) (n + ntor) m jt jp
              (sin ang) w (Hf cRBS) Hi Hj (R_2D_ok jt jp Hjt Hjp)) as (a2 & -> & H2).
  destruct (add_term_holds rows cols (acc_ZBC s) Z_2D (f cZBC) (n + ntor) m jt jp
              (cos ang) w (Hf cZBC) Hi Hj (Z_2D_ok jt jp Hjt Hjp)) as (a3 & -> & H3).
  destruct (add_term_holds rows cols (acc_ZBS s) Z_2D (f cZBS) (n + ntor) m jt jp
              (sin ang) w (Hf cZBS) Hi Hj (Z_2D_ok jt jp Hjt Hjp)) as (a4 & -> & H4).
  simpl. eexists. split; [reflexivity|].
  intros c. destruct c; simpl; assumption.
Qed.

Lemma accumulate_all_adds :
  adds rows cols
    (accumulate_all R_2D Z_2D nfp ntheta mpol ntor nphi theta phi_conversion factor)
    total.
Proof.
  unfold accumulate_all, Vocabulary.total.
  apply (adds_for_each rows cols (range nphi)
           (fun j_phi => for_each (range ntheta) _)
           (fun jp c k l => big_sum (range ntheta) _)).
  intros jp Hjp%elem_of_range.
  apply (adds_for_each rows cols (range ntheta)
           (fun j_theta => for_each (range (mpol + 1)) _)
           (fun jt c k l => big_sum (range (mpol + 1)) _)).
  intros jt Hjt%elem_of_range.
  apply (adds_for_each rows cols (range (mpol + 1))
           (fun m => for_each (range2 (if m =? 0 then 1 else - ntor) (ntor + 1)) _)
           (fun m c k l => big_sum (range2 (if m =? 0 then 1 else - ntor) (ntor + 1)) _)).
  intros m Hm%elem_of_range.
  apply (adds_for_each rows cols (range2 (if m =? 0 then 1 else - ntor) (ntor + 1))
           (fun n => accumulate _ _ _ _ _ _ _ _ _ jp jt m n)
           (fun n => term jp jt m n)).
  intros n Hn%elem_of_range2.
  apply accumulate_adds; try lia.
  destruct (m =? 0); lia.
Qed.

(** At the position of mode [(m, n)] only the passes for that mode add
    anything: the loops add the double sum over the grid for a mode they
    visit and nothing otherwise. *)
Lemma total_at_mode (c : component) (m n : Z) :
  0 <= m <= mpol -> - ntor <= n <= ntor ->
  total c (Z.to_nat (n + ntor)) (Z.to_nat m)
  = if (m =? 0) && (n <=? 0) then 0%R
    else big_sum (range nphi) (fun jp =>
           big_sum (range ntheta) (fun jt =>
             (sample (grid_of R_2D Z_2D c) jt jp
              * trig_of c (angle_of nfp m n (theta_at ntheta jt) (phi_at nfp nphi jp))
              * factor2 factor ntheta nphi m n)%R)).
Proof.
  intros Hm Hn. unfold Vocabulary.total.
  assert (Hinner : forall jp jt,
    big_sum (range (mpol + 1)) (fun m' =>
      big_sum (range2 (if m' =? 0 then 1 else - ntor) (ntor + 1)) (fun n' =>
        term jp jt m' n' c (Z.to_nat (n + ntor)) (Z.to_nat m)))
    = if (m =? 0) && (n <=? 0) then 0%R
      else (sample (grid_of R_2D Z_2D c) jt jp
            * trig_of c (angle_of nfp m n (theta_at ntheta jt) (phi_at nfp nphi jp))
            * factor2 factor ntheta nphi m n)%R).
  { intros jp jt.
    set (t := fun m' n' : Z =>
                (sample (grid_of R_2D Z_2D c) jt jp
                 * trig_of c (angle_of nfp m' n' (theta_at ntheta jt) (phi_at nfp nphi jp))
                 * factor2 factor ntheta nphi m' n')%R).
    rewrite (big_sum_ext _ _
               (fun m' => if decide (m' = m)
                          then (if decide (n ∈ range2 (if m' =? 0 then 1 else - ntor) (ntor + 1))
                                then t m' n else 0%R)
                          else 0%R)).
    - rewrite big_sum_only by apply NoDup_seqZ.
      rewrite decide_True by (apply elem_of_range; lia).
      destruct (Z.eqb_spec m 0) as [->|Hm0]; simpl.
      + destruct (Z.leb_spec n 0).
        * rewrite decide_False by (rewrite elem_of_range2; lia). reflexivity.
        * rewrite decide_True by (rewrite elem_of_range2; lia). reflexivity.
      + rewrite decide_True by (rewrite elem_of_range2; lia). reflexivity.
    - intros m' Hm'%elem_of_range.
      destruct (decide (m' = m)) as [->|Hne].
      + rewrite <- (big_sum_only _ n (t m)) by apply NoDup_seqZ.
        apply big_sum_ext. intros n' Hn'%elem_of_range2. unfold Vocabulary.term.
        assert (- ntor <= n') by (destruct (m =? 0); lia).
        destruct (decide (n' = n)) as [->|Hne].
        * rewrite decide_True by done. reflexivity.
        * rewrite decide_False; [reflexivity|]. intros [? _]. lia.
      + rewrite <- (big_sum_zero (range2 (if m' =? 0 then 1 else - ntor) (ntor + 1))).
        apply big_sum_ext. intros n' _. unfold Vocabulary.term.
        rewrite decide_False; [reflexivity|]. intros [_ ?]. lia. }
  destruct ((m =? 0) && (n <=? 0)) eqn:Hskip.
  - rewrite <- (big_sum_zero (range nphi)). apply big_sum_ext. intros jp _.
    rewrite <- (big_sum_zero (range ntheta)). apply big_sum_ext. intros jt _.
    rewrite Hinner. reflexivity.
  - apply big_sum_ext. intros jp _. apply big_sum_ext. intros jt _.
    rewrite Hinner. reflexivity.
Qed.
End accumulation.

End LoopFacts.

Module FourierFacts.
Import ToVmec Vocabulary ArrayFacts SumFacts LoopFacts.
Local Open Scope Z_scope.

Lemma has_shape_getitem (rows cols : nat) (a : grid) (i j : Z) :
  has_shape rows cols a = true ->
  0 <= i < Z.of_nat rows -> 0 <= j < Z.of_nat cols ->
  is_Some (getitem a i j).
Proof.
  intros Hs Hi Hj. rewrite (getitem_entry rows cols) by assumption.
  apply (has_shape_entry rows cols); [assumption|lia|lia].
Qed.

Lemma has_shape_shape1 (rows cols : nat) (a : grid) :
  has_shape rows cols a = true -> (0 < rows)%nat -> shape1 a = Some cols.
Proof.
  intros [Hlen Hrow]%has_shape_spec Hpos. unfold shape1.
  destruct a as [|row a]; simpl in *; [lia|].
  f_equal. apply (Hrow 0%nat). reflexivity.
Qed.

Lemma linspace_ok (stop : R) (num : Z) :
  0 <= num ->
  exists xs, linspace stop num = Some xs
    /\ forall j, 0 <= j < num -> getitem1 xs j = Some (IZR j * (stop / IZR num))%R.
Proof.
  intros Hn. unfold linspace. destruct (Z.ltb_spec num 0); [lia|].
  eexists. split; [reflexivity|]. intros j Hj. unfold getitem1.
  rewrite py_index_in_range.
  2: { rewrite length_fmap. unfold range. rewrite length_seqZ. lia. }
  simpl. rewrite list_lookup_fmap, lookup_range by lia. reflexivity.
Qed.

Section fourier_run.
Variables R_2D Z_2D : grid.
Variables nfp ntheta mpol ntor : Z.
Variable nph : nat.

Let nphi := Z.of_nat nph.
Let rows := Z.to_nat (2 * ntor + 1).
Let cols := Z.to_nat (mpol + 1).
Let factor := (2 / IZR (ntheta * nphi))%R.

Hypothesis R_2D_shape : has_shape (Z.to_nat ntheta) nph R_2D = true.
Hypothesis Z_2D_shape : has_shape (Z.to_nat ntheta) nph Z_2D = true.
Hypothesis ntheta_pos : 0 < ntheta.
Hypothesis nph_pos : (0 < nph)%nat.
Hypothesis nfp_nonzero : nfp <> 0.
Hypothesis mpol_nonneg : 0 <= mpol.
Hypothesis ntor_nonneg : 0 <= ntor.

(** On a grid of the announced shape [to_Fourier] returns, and its
    arrays hold the sums the loops accumulate, with the two means written
    over position [(ntor, 0)]. *)
Lemma to_Fourier_run (lasym : bool) :
  exists RBC RBS ZBC ZBS,
    to_Fourier R_2D Z_2D nfp ntheta mpol ntor lasym
    = Some (RBC, (if negb lasym then PyInt 0 else NdArray RBS),
            (if negb lasym then PyInt 0 else NdArray ZBC), ZBS)
    /\ holds rows cols RBC (RBC_entry R_2D Z_2D nfp ntheta mpol ntor nphi)
    /\ holds rows cols RBS (total R_2D Z_2D nfp ntheta mpol ntor nphi factor cRBS)
    /\ holds rows cols ZBC (ZBC_entry R_2D Z_2D nfp ntheta mpol ntor nphi)
    /\ holds rows cols ZBS (total R_2D Z_2D nfp ntheta mpol ntor nphi factor cZBS).
Proof.
  unfold to_Fourier.
  rewrite (has_shape_shape1 _ _ _ R_2D_shape) by lia. simpl. fold nphi.
  destruct (linspace_ok (2 * PI) ntheta) as (theta & -> & Htheta); [lia|]. simpl.
  destruct (Z.eqb_spec nfp 0) as [?|_]; [contradiction|]. simpl.
  destruct (linspace_ok (2 * PI / IZR nfp) nphi) as (phic & -> & Hphi); [lia|]. simpl.
  destruct (np_zeros_spec (2 * ntor + 1) (mpol + 1)) as (zero & -> & Hzs & Hze);
    [lia|lia|]. simpl.
  destruct (Z.eqb_spec (ntheta * nphi) 0) as [?|_]; [unfold nphi in *; nia|]. simpl.
  fold factor.
  destruct (accumulate_all_adds R_2D Z_2D nfp ntheta mpol ntor nphi theta phic factor
              mpol_nonneg ntor_nonneg) with (s := Spectra zero zero zero zero)
              (f := fun (_ : component) (_ _ : nat) => 0%R)
    as (s & -> & Hs).
  - exact Htheta.
  - exact Hphi.
  - intros jt jp Hjt Hjp. apply (has_shape_getitem _ _ _ _ _ R_2D_shape); unfold nphi in *; lia.
  - intros jt jp Hjt Hjp. apply (has_shape_getitem _ _ _ _ _ Z_2D_shape); unfold nphi in *; lia.
  - intros c. destruct c; simpl; (split; [exact Hzs|exact Hze]).
  - simpl.
    assert (Hs' : tracks rows cols s (total R_2D Z_2D nfp ntheta mpol ntor nphi factor)).
    { eapply tracks_ext; [|exact Hs]. intros; simpl; lra. }
    clear Hs.
    destruct (Hs' cRBC) as [HsR HeR]. destruct (Hs' cZBC) as [HsZ HeZ]. simpl in *.
    destruct (setitem_spec rows cols (acc_RBC s) ntor 0
                (np_sum R_2D / IZR (ntheta * nphi))%R HsR) as (RBC & -> & HRs & HRe);
      [unfold rows; lia|unfold cols; lia|]. simpl.
    destruct (setitem_spec rows cols (acc_ZBC s) ntor 0
                (np_sum Z_2D / IZR (ntheta * nphi))%R HsZ) as (ZBC & -> & HZs & HZe);
      [unfold rows; lia|unfold cols; lia|]. simpl.
    exists RBC, (acc_RBS s), ZBC, (acc_ZBS s). split; [reflexivity|].
    split; [|split; [exact (Hs' cRBS)|split; [|exact (Hs' cZBS)]]].
    + split; [exact HRs|]. intros k l Hk Hl. rewrite HRe by assumption.
      unfold RBC_entry. destruct (decide _); [reflexivity|]. apply HeR; assumption.
    + split; [exact HZs|]. intros k l Hk Hl. rewrite HZe by assumption.
      unfold ZBC_entry. destruct (decide _); [reflexivity|]. apply HeZ; assumption.
Qed.
End fourier_run.


(** The sum the loops leave at the position of a visited mode is the
    amplitude of that mode. *)
Lemma total_mode_sum (R_2D Z_2D : grid) (nfp ntheta mpol ntor nphi : Z) (factor : R)
    (c : component) (m n : Z) :
  admissible mpol ntor m n ->
  total R_2D Z_2D nfp ntheta mpol ntor nphi factor c (Z.to_nat (n + ntor)) (Z.to_nat m)
  = mode_sum (grid_of R_2D Z_2D c) (trig_of c) nfp ntheta nphi m n
      (factor2 factor ntheta nphi m n).
Proof.
  intros (Hm & Hn & Hadm). rewrite total_at_mode by lia.
  replace ((m =? 0) && (n <=? 0)) with false.
  2: { symmetry. apply andb_false_iff.
       destruct (Z.eqb_spec m 0); [right; apply Z.leb_gt; lia|left; reflexivity]. }
  unfold mode_sum, angle_of.
  apply big_sum_ext; intros jp _. apply big_sum_ext; intros jt _.
  rewrite mult_IZR. reflexivity.
Qed.

Lemma total_unvisited (R_2D Z_2D : grid) (nfp ntheta mpol ntor nphi : Z) (factor : R)
    (c : component) (n : Z) :
  0 <= mpol -> - ntor <= n <= 0 ->
  total R_2D Z_2D nfp ntheta mpol ntor nphi factor c (Z.to_nat (n + ntor)) (Z.to_nat 0) = 0%R.
Proof.
  intros Hm Hn. rewrite total_at_mode by lia.
  replace (n <=? 0) with true by (symmetry; apply Z.leb_le; lia). reflexivity.
Qed.

Lemma holds_getitem (rows cols : nat) (a : grid) (f : nat -> nat -> R) (i j : Z) :
  holds rows cols a f -> 0 <= i < Z.of_nat rows -> 0 <= j < Z.of_nat cols ->
  getitem a i j = Some (f (Z.to_nat i) (Z.to_nat j)).
Proof.
  intros [Hs Hf] Hi Hj. rewrite (getitem_entry rows cols) by assumption.
  apply Hf; lia.
Qed.

(** Claim C3.  The scale of the term of mode [(m, n)] is the base scale
    halved when [ntheta] is even and [m = ntheta/2], halved when [nphi] is
    even and [|n| = nphi/2], halved twice when both hold, and the base
    scale itself for every other mode. *)
Theorem factor2_nyquist_halvings (factor : R) (ntheta nphi m n : Z) :
  factor2 factor ntheta nphi m n
  = match nyquist_theta ntheta m, nyquist_phi nphi n with
    | true, true => (factor / 2 / 2)%R
    | true, false => (factor / 2)%R
    | false, true => (factor / 2)%R
    | false, false => factor
    end.
Proof.
  assert (Hpar : forall a b : Z,
             (a mod 2 =? 0) && (b =? a / 2) = Z.even a && (2 * b =? a)).
  { intros a b. rewrite Zeven_mod.
    destruct (Z.eqb_spec (a mod 2) 0) as [H0|H0]; simpl; [|reflexivity].
    pose proof (Z.div_mod a 2 ltac:(lia)) as Hdm.
    destruct (Z.eqb_spec b (a / 2)), (Z.eqb_spec (2 * b) a); try reflexivity; lia. }
  unfold factor2, nyquist_theta, nyquist_phi. rewrite !Hpar.
  destruct (Z.even ntheta && (2 * m =? ntheta)),
           (Z.even nphi && (2 * Z.abs n =? nphi)); reflexivity.
Qed.

(** Claim C6.  On an [ntheta] by [nphi] grid, [to_Fourier] returns, and
    for every [m] in [0, mpol] and [n] in [-ntor, ntor] (with [n >= 1] when
    [m = 0]) the entry at position [(n + ntor, m)] is the sum over all grid
    points of [sample * cos(angle) * scale] for the cosine spectra and
    [sample * sin(angle) * scale] for the sine spectra, with
    [angle = m*theta - n*nfp*phi] and [scale] the base [2/(ntheta*nphi)]
    after its halvings; for [m = 0] and [n <= 0] nothing is accumulated. *)
Theorem to_Fourier_mode_sums (R_2D Z_2D : grid) (nfp ntheta mpol ntor : Z)
    (nph : nat) (lasym : bool) :
  has_shape (Z.to_nat ntheta) nph R_2D = true ->
  has_shape (Z.to_nat ntheta) nph Z_2D = true ->
  0 < ntheta -> (0 < nph)%nat -> nfp <> 0 -> 0 <= mpol -> 0 <= ntor ->
  exists RBC RBS ZBC ZBS,
    to_Fourier R_2D Z_2D nfp ntheta mpol ntor lasym = Some (RBC, RBS, ZBC, ZBS)
    /\ (forall m n, admissible mpol ntor m n ->
          let scale := factor2 (2 / IZR (ntheta * Z.of_nat nph)) ntheta (Z.of_nat nph) m n in
          getitem RBC (n + ntor) m
            = Some (mode_sum R_2D cos nfp ntheta (Z.of_nat nph) m n scale)
          /\ getitem ZBS (n + ntor) m
            = Some (mode_sum Z_2D sin nfp ntheta (Z.of_nat nph) m n scale)
          /\ (lasym = true ->
              obj_getitem RBS (n + ntor) m
                = Some (mode_sum R_2D sin nfp ntheta (Z.of_nat nph) m n scale)
              /\ obj_getitem ZBC (n + ntor) m
                = Some (mode_sum Z_2D cos nfp ntheta (Z.of_nat nph) m n scale)))
    /\ (forall n, - ntor <= n <= 0 ->
          getitem ZBS (n + ntor) 0 = Some 0%R
          /\ (lasym = true -> obj_getitem RBS (n + ntor) 0 = Some 0%R)
          /\ (n < 0 ->
              getitem RBC (n + ntor) 0 = Some 0%R
              /\ (lasym = true -> obj_getitem ZBC (n + ntor) 0 = Some 0%R))).
Proof.
  intros HR HZ Hnt Hnp Hnfp Hmpol Hntor.
  destruct (to_Fourier_run R_2D Z_2D nfp ntheta mpol ntor nph HR HZ Hnt Hnp Hnfp
              Hmpol Hntor lasym) as (RBC & RBS & ZBC & ZBS & Hrun & HRBC & HRBS & HZBC & HZBS).
  eexists RBC, _, _, ZBS. split; [exact Hrun|]. split.
  - intros m n Hadm scale. pose proof Hadm as (Hm & Hn & Hm0).
    assert (Hi : 0 <= n + ntor < Z.of_nat (Z.to_nat (2 * ntor + 1))) by lia.
    assert (Hj : 0 <= m < Z.of_nat (Z.to_nat (mpol + 1))) by lia.
    assert (Hpos : ~ (Z.to_nat (n + ntor) = Z.to_nat ntor /\ Z.to_nat m = Z.to_nat 0)) by lia.
    split; [|split].
    + rewrite (holds_getitem _ _ _ _ _ _ HRBC Hi Hj). unfold RBC_entry.
      rewrite decide_False by exact Hpos. f_equal.
      apply (total_mode_sum R_2D Z_2D nfp ntheta mpol ntor _ _ cRBC m n Hadm).
    + rewrite (holds_getitem _ _ _ _ _ _ HZBS Hi Hj). f_equal.
      apply (total_mode_sum R_2D Z_2D nfp ntheta mpol ntor _ _ cZBS m n Hadm).
    + intros ->. simpl. split.
      * rewrite (holds_getitem _ _ _ _ _ _ HRBS Hi Hj). f_equal.
        apply (total_mode_sum R_2D Z_2D nfp ntheta mpol ntor _ _ cRBS m n Hadm).
      * rewrite (holds_getitem _ _ _ _ _ _ HZBC Hi Hj). unfold ZBC_entry.
        rewrite decide_False by exact Hpos. f_equal.
        apply (total_mode_sum R_2D Z_2D nfp ntheta mpol ntor _ _ cZBC m n Hadm).
  - intros n Hn.
    assert (Hi : 0 <= n + ntor < Z.of_nat (Z.to_nat (2 * ntor + 1))) by lia.
    assert (Hj : 0 <= 0 < Z.of_nat (Z.to_nat (mpol + 1))) by lia.
    split; [|split].
    + rewrite (holds_getitem _ _ _ _ _ _ HZBS Hi Hj). f_equal.
      apply total_unvisited; lia.
    + intros ->. simpl. rewrite (holds_getitem _ _ _ _ _ _ HRBS Hi Hj). f_equal.
      apply total_unvisited; lia.
    + intros Hneg.
      assert (Hpos : ~ (Z.to_nat (n + ntor) = Z.to_nat ntor /\ Z.to_nat 0 = Z.to_nat 0)) by lia.
      split.
      * rewrite (holds_getitem _ _ _ _ _ _ HRBC Hi Hj). unfold RBC_entry.
        rewrite decide_False by exact Hpos. f_equal. apply total_unvisited; lia.
      * intros ->. simpl. rewrite (holds_getitem _ _ _ _ _ _ HZBC Hi Hj). unfold ZBC_entry.
        rewrite decide_False by exact Hpos. f_equal. apply total_unvisited; lia.
Qed.


Lemma to_Fourier_mode_sums_witness :
  has_shape (Z.to_nat 2) 4 Samples.R_grid = true
  /\ has_shape (Z.to_nat 2) 4 Samples.Z_grid = true
  /\ 0 < 2 /\ (0 < 4)%nat /\ 3 <> 0 /\ 0 <= 1 /\ 0 <= 1
  /\ exists RBC RBS ZBC ZBS,
       to_Fourier Samples.R_grid Samples.Z_grid 3 2 1 1 true = Some (RBC, RBS, ZBC, ZBS)
       /\ getitem RBC (-1 + 1) 1
          = Some (mode_sum Samples.R_grid cos 3 2 4 1 (-1)
                    (factor2 (2 / IZR (2 * 4)) 2 4 1 (-1)))
       /\ getitem ZBS (0 + 1) 0 = Some 0%R.
Proof.
  assert (H1 : has_shape (Z.to_nat 2) 4 Samples.R_grid = true) by reflexivity.
  assert (H2 : has_shape (Z.to_nat 2) 4 Samples.Z_grid = true) by reflexivity.
  assert (H3 : 0 < 2) by lia.
  assert (H4 : (0 < 4)%nat) by lia.
  assert (H5 : 3 <> 0) by lia.
  assert (H6 : 0 <= 1) by lia.
  repeat (split; [assumption|]).
  destruct (to_Fourier_mode_sums Samples.R_grid Samples.Z_grid 3 2 1 1 4 true
              H1 H2 H3 H4 H5 H6 H6) as (RBC & RBS & ZBC & ZBS & Hrun & Hmodes & Hrest).
  exists RBC, RBS, ZBC, ZBS. split; [exact Hrun|]. split.
  - apply (Hmodes 1 (-1)). unfold admissible. lia.
  - apply (Hrest 0). lia.
Defined.

(** Claim C4.  With [lasym = false], whatever the grids and the mode
    counts, the sine-R spectrum and the cosine-Z spectrum that [to_Fourier]
    returns are zero at every mode index; and on a grid of the announced
    shape it does return. *)
Theorem to_Fourier_symmetric_spectra_zero (R_2D Z_2D : grid) (nfp ntheta mpol ntor : Z) :
  (forall RBC RBS ZBC ZBS,
      to_Fourier R_2D Z_2D nfp ntheta mpol ntor false = Some (RBC, RBS, ZBC, ZBS) ->
      forall m n, coefficient RBS (n + ntor) m = Some 0%R
                  /\ coefficient ZBC (n + ntor) m = Some 0%R)
  /\ (forall nph,
        has_shape (Z.to_nat ntheta) nph R_2D = true ->
        has_shape (Z.to_nat ntheta) nph Z_2D = true ->
        0 < ntheta -> (0 < nph)%nat -> nfp <> 0 -> 0 <= mpol -> 0 <= ntor ->
        is_Some (to_Fourier R_2D Z_2D nfp ntheta mpol ntor false)).
Proof.
  split.
  - intros RBC RBS ZBC ZBS Hrun m n. unfold to_Fourier in Hrun.
    repeat match type of Hrun with
           | (mbind _ ?o) = Some _ => destruct o; simpl in Hrun; [|discriminate]
           end.
    injection Hrun as _ <- <- _. simpl. done.
  - intros nph HR HZ Hnt Hnp Hnfp Hmpol Hntor.
    destruct (to_Fourier_run R_2D Z_2D nfp ntheta mpol ntor nph HR HZ Hnt Hnp Hnfp
                Hmpol Hntor false) as (RBC & RBS & ZBC & ZBS & -> & _).
    eexists; reflexivity.
Qed.

Lemma to_Fourier_symmetric_spectra_zero_witness :
  exists RBC RBS ZBC ZBS,
    to_Fourier Samples.R_grid Samples.Z_grid 3 2 1 1 false = Some (RBC, RBS, ZBC, ZBS)
    /\ coefficient RBS (1 + 1) 1 = Some 0%R
    /\ coefficient ZBC (1 + 1) 1 = Some 0%R.
Proof.
  destruct (to_Fourier_symmetric_spectra_zero Samples.R_grid Samples.Z_grid 3 2 1 1)
    as [Hzero Hruns].
  destruct (Hruns 4%nat) as [[[[RBC RBS] ZBC] ZBS] Hrun];
    [reflexivity|reflexivity|lia|lia|lia|lia|lia|].
  exists RBC, RBS, ZBC, ZBS. split; [exact Hrun|].
  exact (Hzero RBC RBS ZBC ZBS Hrun 1 1).
Defined.

Lemma has_shape_length_concat (rows cols : nat) (a : grid) :
  has_shape rows cols a = true -> length (concat a) = (rows * cols)%nat.
Proof.
  unfold has_shape. rewrite andb_true_iff, Nat.eqb_eq. intros [<- Hall].
  induction a as [|row a IH]; simpl in *; [reflexivity|].
  apply andb_true_iff in Hall as [Hrow%Nat.eqb_eq Hall].
  rewrite length_app, Hrow, IH by exact Hall. reflexivity.
Qed.

Lemma np_sum_mean (ntheta : Z) (nph : nat) (X : grid) :
  has_shape (Z.to_nat ntheta) nph X = true -> 0 < ntheta ->
  (np_sum X / IZR (ntheta * Z.of_nat nph))%R = arithmetic_mean X.
Proof.
  intros HX Hnt. unfold arithmetic_mean, np_sum.
  rewrite py_sum_big_sum, (has_shape_length_concat _ _ _ HX).
  rewrite INR_IZR_INZ, Nat2Z.inj_mul, Z2Nat.id by lia. reflexivity.
Qed.

(** Claim C5, as the code has it.  On an [ntheta] by [nphi] grid and for
    all [mpol >= 0], [ntor >= 0], the entry [RBC[ntor, 0]] that [to_Fourier]
    returns is [np.sum(R_2D) / (ntheta * nphi)], the arithmetic mean of the
    samples of [R_2D]; when [lasym] is true [ZBC[ntor, 0]] is likewise the
    mean of [Z_2D]; when [lasym] is false [ZBC] is the integer 0. *)
Theorem to_Fourier_mean_mode (R_2D Z_2D : grid) (nfp ntheta mpol ntor : Z)
    (nph : nat) (lasym : bool) :
  has_shape (Z.to_nat ntheta) nph R_2D = true ->
  has_shape (Z.to_nat ntheta) nph Z_2D = true ->
  0 < ntheta -> (0 < nph)%nat -> nfp <> 0 -> 0 <= mpol -> 0 <= ntor ->
  exists RBC RBS ZBC ZBS,
    to_Fourier R_2D Z_2D nfp ntheta mpol ntor lasym = Some (RBC, RBS, ZBC, ZBS)
    /\ getitem RBC ntor 0 = Some (np_sum R_2D / IZR (ntheta * Z.of_nat nph))%R
    /\ (np_sum R_2D / IZR (ntheta * Z.of_nat nph))%R = arithmetic_mean R_2D
    /\ (np_sum Z_2D / IZR (ntheta * Z.of_nat nph))%R = arithmetic_mean Z_2D
    /\ (lasym = true ->
        obj_getitem ZBC ntor 0 = Some (np_sum Z_2D / IZR (ntheta * Z.of_nat nph))%R)
    /\ (lasym = false -> ZBC = PyInt 0).
Proof.
  intros HR HZ Hnt Hnp Hnfp Hmpol Hntor.
  destruct (to_Fourier_run R_2D Z_2D nfp ntheta mpol ntor nph HR HZ Hnt Hnp Hnfp
              Hmpol Hntor lasym) as (RBC & RBS & ZBC & ZBS & Hrun & HRBC & _ & HZBC & _).
  assert (Hi : 0 <= ntor < Z.of_nat (Z.to_nat (2 * ntor + 1))) by lia.
  assert (Hj : 0 <= 0 < Z.of_nat (Z.to_nat (mpol + 1))) by lia.
  eexists RBC, _, _, ZBS. split; [exact Hrun|].
  split; [|split; [|split; [|split]]].
  - rewrite (holds_getitem _ _ _ _ _ _ HRBC Hi Hj). unfold RBC_entry.
    rewrite decide_True by done. reflexivity.
  - apply np_sum_mean; assumption.
  - apply np_sum_mean; assumption.
  - intros ->. simpl. rewrite (holds_getitem _ _ _ _ _ _ HZBC Hi Hj). unfold ZBC_entry.
    rewrite decide_True by done. reflexivity.
  - intros ->. reflexivity.
Qed.

Lemma to_Fourier_mean_mode_witness :
  has_shape (Z.to_nat 2) 4 Samples.R_grid = true
  /\ has_shape (Z.to_nat 2) 4 Samples.Z_grid = true
  /\ 0 < 2 /\ (0 < 4)%nat /\ 3 <> 0 /\ 0 <= 1 /\ 0 <= 1
  /\ exists RBC RBS ZBC ZBS,
       to_Fourier Samples.R_grid Samples.Z_grid 3 2 1 1 true = Some (RBC, RBS, ZBC, ZBS)
       /\ getitem RBC 1 0 = Some (arithmetic_mean Samples.R_grid)
       /\ obj_getitem ZBC 1 0 = Some (arithmetic_mean Samples.Z_grid).
Proof.
  assert (H1 : has_shape (Z.to_nat 2) 4 Samples.R_grid = true) by reflexivity.
  assert (H2 : has_shape (Z.to_nat 2) 4 Samples.Z_grid = true) by reflexivity.
  assert (H3 : 0 < 2) by lia.
  assert (H4 : (0 < 4)%nat) by lia.
  assert (H5 : 3 <> 0) by lia.
  assert (H6 : 0 <= 1) by lia.
  repeat (split; [assumption|]).
  destruct (to_Fourier_mean_mode Samples.R_grid Samples.Z_grid 3 2 1 1 4 true
              H1 H2 H3 H4 H5 H6 H6)
    as (RBC & RBS & ZBC & ZBS & Hrun & HR & HmR & HmZ & HZ & _).
  exists RBC, RBS, ZBC, ZBS. split; [exact Hrun|]. split.
  - rewrite HR, HmR. reflexivity.
  - rewrite (HZ eq_refl), HmZ. reflexivity.
Defined.

(** Claim C5, as stated for every input, fails: with [lasym = false] on
    the single sample [R = Z = 1] the returned [ZBC] is the integer 0, not
    the mean 1 of [Z_2D]. *)
Lemma to_Fourier_mean_of_Z_not_returned_when_symmetric :
  ~ (forall (R_2D Z_2D : grid) (nfp ntheta mpol ntor : Z) (lasym : bool)
            (RBC : grid) (RBS ZBC : pyobj) (ZBS : grid),
        to_Fourier R_2D Z_2D nfp ntheta mpol ntor lasym = Some (RBC, RBS, ZBC, ZBS) ->
        coefficient (NdArray RBC) ntor 0 = Some (arithmetic_mean R_2D)
        /\ coefficient ZBC ntor 0 = Some (arithmetic_mean Z_2D)).
Proof.
  intros Hclaim.
  destruct (to_Fourier_run Samples.unit_grid Samples.unit_grid 1 1 0 0 1)
    with (lasym := false) as (RBC & RBS & ZBC & ZBS & Hrun & _);
    [reflexivity|reflexivity|lia|lia|lia|lia|lia|].
  destruct (Hclaim _ _ _ _ _ _ _ _ _ _ _ Hrun) as [_ HZ].
  simpl in HZ. unfold arithmetic_mean in HZ. simpl in HZ.
  injection HZ as HZ. lra.
Qed.

End FourierFacts.

(** ** The output of to_vmec *)

Module VmecFacts.
Import ToVmec Vocabulary ArrayFacts SumFacts LoopFacts FourierFacts.
Local Open Scope Z_scope.

(** *** Mode counts *)

Lemma int_of_float_IZR (z : Z) : int_of_float (IZR z) = z.
Proof.
  unfold int_of_float. destruct (Rle_dec 0 (IZR z)).
  - apply ZfloorZ.
  - apply Zceil_eq. lra.
Qed.

Lemma int_of_float_le (x : R) (b : Z) : (x <= IZR b)%R -> 0 <= b -> int_of_float x <= b.
Proof.
  intros Hx Hb. unfold int_of_float. destruct (Rle_dec 0 x) as [H0|H0].
  - rewrite <- (ZfloorZ b). apply Zfloor_le. exact Hx.
  - pose proof (Zceil_bound x) as [Hlo _].
    assert (IZR (Zceil x) < 1)%R by lra.
    apply lt_IZR in H. lia.
Qed.

Lemma Zfloor_half (n : Z) : Zfloor (IZR n / 2) = n / 2.
Proof.
  apply Zfloor_eq.
  pose proof (Z.div_mod n 2 ltac:(lia)) as Hdm.
  pose proof (Z.mod_pos_bound n 2 ltac:(lia)) as Hmod.
  assert (Hn : IZR n = (2 * IZR (n / 2) + IZR (n mod 2))%R).
  { rewrite Hdm at 1. rewrite plus_IZR, mult_IZR. reflexivity. }
  assert (0 <= IZR (n mod 2) <= 1)%R.
  { split; [apply IZR_le; lia|apply IZR_le; lia]. }
  lra.
Qed.

Lemma default_mpol_value (ntheta : Z) :
  int_of_float (np_floor (Rmin (IZR ntheta / 2) (IZR 100))) = Z.min (ntheta / 2) 100.
Proof.
  unfold np_floor. rewrite int_of_float_IZR.
  unfold Rmin. destruct (Rle_dec (IZR ntheta / 2) 100) as [Hle|Hgt].
  - rewrite Zfloor_half.
    assert (ntheta / 2 <= 100); [|lia].
    rewrite <- Zfloor_half, <- (ZfloorZ 100). apply Zfloor_le. exact Hle.
  - rewrite ZfloorZ.
    assert (100 <= ntheta / 2); [|lia].
    rewrite <- Zfloor_half, <- (ZfloorZ 100). apply Zfloor_le. lra.
Qed.

Lemma default_ntor_value (nphi : Z) :
  0 <= nphi ->
  int_of_float (Rmin (IZR nphi / 2 + 1) (IZR 100)) = Z.min (nphi / 2 + 1) 100.
Proof.
  intros Hn.
  assert (H0 : (0 <= IZR nphi)%R) by (apply IZR_le; exact Hn).
  assert (Hfl : Zfloor (IZR nphi / 2 + 1) = nphi / 2 + 1).
  { rewrite (Zfloor_addz 1), Zfloor_half. reflexivity. }
  unfold int_of_float. destruct (Rle_dec 0 (Rmin (IZR nphi / 2 + 1) 100)) as [_|Hneg].
  2: { exfalso. apply Hneg. apply Rmin_glb; lra. }
  unfold Rmin. destruct (Rle_dec (IZR nphi / 2 + 1) 100) as [Hle|Hgt].
  - rewrite Hfl. assert (nphi / 2 + 1 <= 100); [|lia].
    rewrite <- Hfl, <- (ZfloorZ 100). apply Zfloor_le. exact Hle.
  - rewrite ZfloorZ. assert (100 <= nphi / 2 + 1); [|lia].
    rewrite <- Hfl, <- (ZfloorZ 100). apply Zfloor_le. lra.
Qed.

Lemma choose_mpol_default (params : gmap string pyval) (ntheta : Z) :
  params !! "mpol" = None ->
  choose_mpol params ntheta = Some (Z.min (ntheta / 2) 100).
Proof. intros H. unfold choose_mpol. rewrite H, default_mpol_value. reflexivity. Qed.

Lemma choose_ntor_default_bound (params : gmap string pyval) (self : Qsc) :
  params !! "ntor" = None ->
  exists ntor, choose_ntor params self = Some ntor /\ ntor <= 100.
Proof.
  intros H. unfold choose_ntor. rewrite H. eexists. split; [reflexivity|].
  apply int_of_float_le; [apply Rmin_r|lia].
Qed.

Lemma choose_ntor_default (params : gmap string pyval) (self : Qsc) :
  params !! "ntor" = None -> 0 <= nphi self ->
  choose_ntor params self = Some (Z.min (nphi self / 2 + 1) 100).
Proof.
  intros H Hn. unfold choose_ntor. rewrite H, default_ntor_value by exact Hn. reflexivity.
Qed.


(** *** Defaults *)

Lemma setdefault_key (key : string) (v : pyval) (params : gmap string pyval) :
  is_Some (setdefault key v params !! key).
Proof.
  unfold setdefault. destruct (params !! key) eqn:H.
  - rewrite H. eauto.
  - rewrite lookup_insert_eq. eauto.
Qed.

Lemma setdefault_keeps (key key' : string) (v : pyval) (params : gmap string pyval) :
  is_Some (params !! key') -> is_Some (setdefault key v params !! key').
Proof.
  intros H. unfold setdefault. destruct (params !! key) eqn:Hk; [exact H|].
  destruct (decide (key = key')) as [->|Hne].
  - rewrite lookup_insert_eq. eauto.
  - rewrite lookup_insert_ne by exact Hne. exact H.
Qed.

Lemma fill_defaults_keys (params : gmap string pyval) (key : string) :
  key ∈ ["delt"; "nstep"; "tcon0"; "ns_array"; "ftol_array"; "niter_array"]%string ->
  is_Some (fill_defaults params !! key).
Proof.
  intros Hkey. unfold fill_defaults.
  repeat (apply elem_of_cons in Hkey as [->|Hkey];
          [repeat first [apply setdefault_key | apply setdefault_keeps]|]).
  apply not_elem_of_nil in Hkey. contradiction.
Qed.

(** *** The lines before the boundary records *)

Lemma indata_lines_spec (mu0 : R) (self : Qsc) (r : R) (params : gmap string pyval)
    (ntheta ntorMax mpol ntor : Z) :
  exists lines,
    indata_lines mu0 self r (fill_defaults params) ntheta ntorMax mpol ntor = Some lines
    /\ Assign "MPOL" (SInt mpol) ∈ lines
    /\ Assign "NTOR" (SInt (Z.min ntor ntorMax)) ∈ lines
    /\ (forall l, l ∈ lines -> is_boundary l = false).
Proof.
  unfold indata_lines.
  destruct (fill_defaults_keys params "delt") as [delt ->]; [set_solver|].
  destruct (fill_defaults_keys params "nstep") as [nstep ->]; [set_solver|].
  destruct (fill_defaults_keys params "tcon0") as [tcon0 ->]; [set_solver|].
  destruct (fill_defaults_keys params "ns_array") as [ns_array ->]; [set_solver|].
  destruct (fill_defaults_keys params "ftol_array") as [ftol_array ->]; [set_solver|].
  destruct (fill_defaults_keys params "niter_array") as [niter_array ->]; [set_solver|].
  simpl. eexists. split; [reflexivity|]. split; [|split].
  - set_solver.
  - set_solver.
  - intros l Hl%list_elem_of_In.
    destruct (lasym self); simpl in Hl; intuition (subst; reflexivity).
Qed.


(** *** The boundary loop *)

Lemma for_each_append {A : Type} (xs : list A)
    (body : A -> list line -> option (list line)) (g : A -> list line) :
  (forall x file, x ∈ xs -> body x file = Some (file ++ g x)) ->
  forall file, for_each xs body file = Some (file ++ (xs ≫= g)).
Proof.
  induction xs as [|x xs IH]; intros Hbody file; simpl.
  - rewrite app_nil_r. reflexivity.
  - rewrite Hbody by left. simpl.
    rewrite IH by (intros; apply Hbody; right; assumption).
    rewrite <- app_assoc. reflexivity.
Qed.


Lemma boundary_record_spec (lasym : bool) (ntor : Z) (RBC : grid) (RBS ZBC : pyobj)
    (ZBS : grid) (m n : Z) (file : list line) :
  is_Some (getitem RBC (n + ntor) m) ->
  is_Some (getitem ZBS (n + ntor) m) ->
  (lasym = true ->
   is_Some (obj_getitem RBS (n + ntor) m) /\ is_Some (obj_getitem ZBC (n + ntor) m)) ->
  boundary_record lasym ntor RBC RBS ZBC ZBS m n file
  = Some (file ++ records_at lasym ntor RBC RBS ZBC ZBS m n).
Proof.
  intros [rbc Hrbc] [zbs Hzbs] Hasym.
  unfold boundary_record, records_at, sample, obj_sample. rewrite Hrbc, Hzbs. simpl.
  assert (Hemit :
    (if lasym
     then rbs ← obj_getitem RBS (n + ntor) m;
          zbc ← obj_getitem ZBC (n + ntor) m;
          Some ((file ++ [Boundary "RBC" n m rbc "ZBS" zbs])
                ++ [Boundary "RBS" n m rbs "ZBC" zbc])
     else Some (file ++ [Boundary "RBC" n m rbc "ZBS" zbs]))
    = Some (file ++ Boundary "RBC" n m rbc "ZBS" zbs
                    :: (if lasym
                        then [Boundary "RBS" n m (default 0%R (obj_getitem RBS (n + ntor) m))
                                "ZBC" (default 0%R (obj_getitem ZBC (n + ntor) m))]
                        else []))).
  { destruct lasym.
    - destruct (Hasym eq_refl) as [[rbs ->] [zbc ->]]. simpl.
      rewrite <- app_assoc. reflexivity.
    - reflexivity. }
  destruct (nonzero rbc); simpl.
  - exact Hemit.
  - destruct (nonzero zbs); simpl.
    + exact Hemit.
    + rewrite app_nil_r. reflexivity.
Qed.

Lemma boundary_records_spec (lasym : bool) (mpol ntor : Z) (RBC : grid)
    (RBS ZBC : pyobj) (ZBS : grid) (file : list line) :
  (forall m n, 0 <= m <= mpol -> - ntor <= n <= ntor ->
     is_Some (getitem RBC (n + ntor) m) /\ is_Some (getitem ZBS (n + ntor) m)
     /\ (lasym = true ->
         is_Some (obj_getitem RBS (n + ntor) m)
         /\ is_Some (obj_getitem ZBC (n + ntor) m))) ->
  boundary_records lasym mpol ntor RBC RBS ZBC ZBS file
  = Some (file ++ all_records lasym mpol ntor RBC RBS ZBC ZBS).
Proof.
  intros Hok. unfold boundary_records, all_records.
  apply (for_each_append (range (mpol + 1)) _
           (fun m => n ← range2 (- ntor) (ntor + 1);
                     records_at lasym ntor RBC RBS ZBC ZBS m n)).
  intros m file' Hm%elem_of_range.
  apply (for_each_append (range2 (- ntor) (ntor + 1)) _
           (records_at lasym ntor RBC RBS ZBC ZBS m)).
  intros n file'' Hn%elem_of_range2.
  destruct (Hok m n) as (H1 & H2 & H3); [lia|lia|].
  apply boundary_record_spec; assumption.
Qed.



(** *** The whole of to_vmec *)

Lemma holds_is_Some (rows cols : nat) (a : grid) (f : nat -> nat -> R) (i j : Z) :
  holds rows cols a f -> 0 <= i < Z.of_nat rows -> 0 <= j < Z.of_nat cols ->
  is_Some (getitem a i j).
Proof. intros H Hi Hj. rewrite (holds_getitem _ _ _ _ _ _ H Hi Hj). eauto. Qed.

Section vmec_run.
Variable mu0 : R.
Variable Frenet_to_cylindrical : Qsc -> R -> Z -> option (grid * grid * grid).
Variable self : Qsc.
Variable filename : string.
Variable r : R.
Variable params : gmap string pyval.
Variables ntheta ntorMax mpol ntor : Z.
Variables R_2D Z_2D phi0_2D : grid.
Variable nph : nat.

Hypothesis mpol_chosen : choose_mpol params ntheta = Some mpol.
Hypothesis ntor_chosen : choose_ntor params self = Some ntor.
Hypothesis mpol_nonneg : 0 <= mpol.
Hypothesis ntor_nonneg : 0 <= ntor.
Hypothesis surface :
  Frenet_to_cylindrical self r ntheta = Some (R_2D, Z_2D, phi0_2D).
Hypothesis R_2D_shape : has_shape (Z.to_nat ntheta) nph R_2D = true.
Hypothesis Z_2D_shape : has_shape (Z.to_nat ntheta) nph Z_2D = true.
Hypothesis ntheta_pos : 0 < ntheta.
Hypothesis nph_pos : (0 < nph)%nat.
Hypothesis nfp_nonzero : nfp self <> 0.

Let rows := Z.to_nat (2 * ntor + 1).
Let cols := Z.to_nat (mpol + 1).

(** On a surface of the announced shape [to_vmec] returns: the file is
    the header lines, the boundary records and the closing line; the
    spectra stored on [self] are those of [to_Fourier]. *)
Lemma to_vmec_run :
  exists (RBC RBS ZBC ZBS : grid) (lines : list line),
    let oRBS := if negb (lasym self) then PyInt 0 else NdArray RBS in
    let oZBC := if negb (lasym self) then PyInt 0 else NdArray ZBC in
    to_Fourier R_2D Z_2D (nfp self) ntheta mpol ntor (lasym self)
    = Some (RBC, oRBS, oZBC, ZBS)
    /\ holds rows cols RBC (RBC_entry R_2D Z_2D (nfp self) ntheta mpol ntor (Z.of_nat nph))
    /\ holds rows cols RBS
         (total R_2D Z_2D (nfp self) ntheta mpol ntor (Z.of_nat nph)
            (2 / IZR (ntheta * Z.of_nat nph)) cRBS)
    /\ holds rows cols ZBC (ZBC_entry R_2D Z_2D (nfp self) ntheta mpol ntor (Z.of_nat nph))
    /\ holds rows cols ZBS
         (total R_2D Z_2D (nfp self) ntheta mpol ntor (Z.of_nat nph)
            (2 / IZR (ntheta * Z.of_nat nph)) cZBS)
    /\ Assign "MPOL" (SInt mpol) ∈ lines
    /\ Assign "NTOR" (SInt (Z.min ntor ntorMax)) ∈ lines
    /\ (forall l, l ∈ lines -> is_boundary l = false)
    /\ to_vmec mu0 Frenet_to_cylindrical self filename r params ntheta ntorMax
       = Some ((lines ++ all_records (lasym self) mpol ntor RBC oRBS oZBC ZBS)
                 ++ [Literal "/"],
               bind_spectra self (NdArray (transpose RBC)) (NdArray (transpose ZBS))
                 (if negb (lasym self) then PyInt 0 else NdArray (transpose RBS))
                 (if negb (lasym self) then PyInt 0 else NdArray (transpose ZBC)),
               fill_defaults params).
Proof.
  destruct (to_Fourier_run R_2D Z_2D (nfp self) ntheta mpol ntor nph R_2D_shape
              Z_2D_shape ntheta_pos nph_pos nfp_nonzero mpol_nonneg ntor_nonneg
              (lasym self))
    as (RBC & RBS & ZBC & ZBS & Hrun & HRBC & HRBS & HZBC & HZBS).
  destruct (indata_lines_spec mu0 self r params ntheta ntorMax mpol ntor)
    as (lines & Hlines & Hmp & Hnt & Hnb).
  exists RBC, RBS, ZBC, ZBS, lines. cbv zeta.
  split; [exact Hrun|].
  split; [exact HRBC|]. split; [exact HRBS|]. split; [exact HZBC|].
  split; [exact HZBS|]. split; [exact Hmp|]. split; [exact Hnt|].
  split; [exact Hnb|].
  unfold to_vmec. rewrite mpol_chosen, ntor_chosen. simpl.
  rewrite surface. simpl. rewrite Hrun. simpl. rewrite Hlines. simpl.
  rewrite boundary_records_spec.
  - simpl. destruct (lasym self); reflexivity.
  - intros m n Hm Hn.
    assert (Hi : 0 <= n + ntor < Z.of_nat rows) by (unfold rows; lia).
    assert (Hj : 0 <= m < Z.of_nat cols) by (unfold cols; lia).
    split; [exact (holds_is_Some _ _ _ _ _ _ HRBC Hi Hj)|].
    split; [exact (holds_is_Some _ _ _ _ _ _ HZBS Hi Hj)|].
    intros ->. simpl. split.
    + exact (holds_is_Some _ _ _ _ _ _ HRBS Hi Hj).
    + exact (holds_is_Some _ _ _ _ _ _ HZBC Hi Hj).
Qed.
End vmec_run.


(** Claim C8, as the code has it.  [to_vmec] writes [MPOL = mpol] and
    [NTOR = min(ntor, ntorMax)]; when [mpol] (or [ntor]) is absent from
    [params] the value chosen is at most 100; when it is given as an
    integer in [params] it is used as it is. *)
Theorem to_vmec_mode_counts (mu0 : R)
    (Frenet_to_cylindrical : Qsc -> R -> Z -> option (grid * grid * grid))
    (self : Qsc) (filename : string) (r : R) (params : gmap string pyval)
    (ntheta ntorMax mpol ntor : Z) (R_2D Z_2D phi0_2D : grid) (nph : nat) :
  choose_mpol params ntheta = Some mpol ->
  choose_ntor params self = Some ntor ->
  0 <= mpol -> 0 <= ntor ->
  Frenet_to_cylindrical self r ntheta = Some (R_2D, Z_2D, phi0_2D) ->
  has_shape (Z.to_nat ntheta) nph R_2D = true ->
  has_shape (Z.to_nat ntheta) nph Z_2D = true ->
  0 < ntheta -> (0 < nph)%nat -> nfp self <> 0 ->
  exists file self' params',
    to_vmec mu0 Frenet_to_cylindrical self filename r params ntheta ntorMax
    = Some (file, self', params')
    /\ Assign "MPOL" (SInt mpol) ∈ file
    /\ Assign "NTOR" (SInt (Z.min ntor ntorMax)) ∈ file
    /\ Z.min ntor ntorMax <= ntorMax
    /\ (params !! "mpol" = None -> mpol = Z.min (ntheta / 2) 100 /\ mpol <= 100)
    /\ (params !! "ntor" = None -> ntor <= 100)
    /\ (forall z, params !! "mpol" = Some (PInt z) -> mpol = z)
    /\ (forall z, params !! "ntor" = Some (PInt z) -> ntor = z).
Proof.
  intros Hmpol Hntor Hm0 Hn0 HF HR HZ Hnt Hnp Hnfp.
  destruct (to_vmec_run mu0 Frenet_to_cylindrical self filename r params ntheta ntorMax
              mpol ntor R_2D Z_2D phi0_2D nph Hmpol Hntor Hm0 Hn0 HF HR HZ Hnt Hnp Hnfp)
    as (RBC & RBS & ZBC & ZBS & lines & _ & _ & _ & _ & _ & Hmp & Hnr & _ & Hrun).
  eexists _, _, _. split; [exact Hrun|].
  split; [rewrite !elem_of_app; left; left; exact Hmp|].
  split; [rewrite !elem_of_app; left; left; exact Hnr|].
  split; [lia|]. split; [|split; [|split]].
  - intros Hnone. rewrite (choose_mpol_default _ _ Hnone) in Hmpol.
    injection Hmpol as <-. split; [reflexivity|lia].
  - intros Hnone. destruct (choose_ntor_default_bound params self Hnone) as (n' & Hn' & Hle).
    congruence.
  - intros z Hz. unfold choose_mpol in Hmpol. rewrite Hz in Hmpol. simpl in Hmpol. congruence.
  - intros z Hz. unfold choose_ntor in Hntor. rewrite Hz in Hntor. simpl in Hntor. congruence.
Qed.

Lemma to_vmec_mode_counts_witness :
  exists file self' params',
    to_vmec Samples.mu0 Samples.sampled_surface Samples.helical "input.qsc" (1 / 10)%R ∅ 2 14
    = Some (file, self', params')
    /\ Assign "MPOL" (SInt 1) ∈ file
    /\ Assign "NTOR" (SInt 3) ∈ file.
Proof.
  assert (Hmpol : choose_mpol ∅ 2 = Some 1) by (apply (choose_mpol_default ∅ 2); reflexivity).
  assert (Hntor : choose_ntor ∅ Samples.helical = Some 3).
  { apply (choose_ntor_default ∅ Samples.helical); [reflexivity|simpl; lia]. }
  destruct (to_vmec_mode_counts Samples.mu0 Samples.sampled_surface Samples.helical "input.qsc"
              (1 / 10)%R ∅ 2 14 1 3 Samples.R_grid Samples.Z_grid Samples.R_grid 4
              Hmpol Hntor ltac:(lia) ltac:(lia) eq_refl eq_refl eq_refl
              ltac:(lia) ltac:(lia) ltac:(simpl; lia))
    as (file & self' & params' & Hrun & Hmp & Hnr & _).
  exists file, self', params'. split; [exact Hrun|]. split; [exact Hmp|exact Hnr].
Defined.

(** Claim C8, as stated for counts supplied in [params], fails: with
    [params = {mpol: 150, ntor: 0}] the file has the line [MPOL = 150]. *)
Lemma to_vmec_explicit_mpol_not_clamped :
  ~ (forall (mu0 : R)
            (Frenet_to_cylindrical : Qsc -> R -> Z -> option (grid * grid * grid))
            (self : Qsc) (filename : string) (r : R) (params : gmap string pyval)
            (ntheta ntorMax : Z) (file : list line) (self' : Qsc)
            (params' : gmap string pyval) (written : Z),
        to_vmec mu0 Frenet_to_cylindrical self filename r params ntheta ntorMax
        = Some (file, self', params') ->
        Assign "MPOL" (SInt written) ∈ file -> written <= 100).
Proof.
  intros Hclaim.
  destruct (to_vmec_run Samples.mu0 Samples.sampled_surface Samples.helical "input.qsc"
              (1 / 10)%R Samples.many_modes 2 14 150 0
              Samples.R_grid Samples.Z_grid Samples.R_grid 4)
    as (RBC & RBS & ZBC & ZBS & lines & _ & _ & _ & _ & _ & Hmp & _ & _ & Hrun);
    try reflexivity; try lia; [simpl; lia|].
  specialize (Hclaim _ _ _ _ _ _ _ _ _ _ _ 150 Hrun).
  assert (150 <= 100); [|lia].
  apply Hclaim. rewrite !elem_of_app. left. left. exact Hmp.
Qed.







(** [transpose] exchanges the two indices. *)
Lemma transpose_entry (rows cols : nat) (a : grid) (k l : nat) :
  has_shape rows cols a = true -> (k < rows)%nat -> (l < cols)%nat ->
  entry (transpose a) l k = entry a k l.
Proof.
  intros Hs Hk Hl. pose proof Hs as [Hlen Hrow]%has_shape_spec.
  destruct (lookup_lt_is_Some_2 a k) as [row Hr]; [lia|].
  pose proof (Hrow _ _ Hr) as Hrl.
  destruct (lookup_lt_is_Some_2 row l) as [x Hx]; [lia|].
  unfold entry, transpose. rewrite Hr. simpl. rewrite Hx.
  destruct a as [|row0 a']; [simpl in *; lia|].
  rewrite (Hrow 0%nat row0 eq_refl).
  apply bind_Some. eexists. split.
  - apply list_lookup_fmap_Some_2, lookup_seq_lt. exact Hl.
  - cbv beta. rewrite Nat.add_0_l. erewrite list_lookup_fmap_Some_2 by exact Hr.
    f_equal. apply nth_lookup_Some. exact Hx.
Qed.

(** Claim C10.  [to_Fourier] returns [RBC] and [ZBS] as arrays of
    [2*ntor+1] rows and [mpol+1] columns; with [lasym = false] it returns
    the integer 0 for [RBS] and for [ZBC], with [lasym = true] arrays of
    that shape.  [to_vmec] stores the transposes of [RBC] and [ZBS], and
    stores [RBS] and [ZBC] transposed when [lasym] is true and as the
    integer 0, untransposed, when it is false. *)
Theorem to_vmec_stores_spectra (mu0 : R)
    (Frenet_to_cylindrical : Qsc -> R -> Z -> option (grid * grid * grid))
    (self : Qsc) (filename : string) (r : R) (params : gmap string pyval)
    (ntheta ntorMax mpol ntor : Z) (R_2D Z_2D phi0_2D : grid) (nph : nat) :
  choose_mpol params ntheta = Some mpol ->
  choose_ntor params self = Some ntor ->
  0 <= mpol -> 0 <= ntor ->
  Frenet_to_cylindrical self r ntheta = Some (R_2D, Z_2D, phi0_2D) ->
  has_shape (Z.to_nat ntheta) nph R_2D = true ->
  has_shape (Z.to_nat ntheta) nph Z_2D = true ->
  0 < ntheta -> (0 < nph)%nat -> nfp self <> 0 ->
  exists file self' params' (aRBC : grid) (oRBS oZBC : pyobj) (aZBS : grid),
    to_Fourier R_2D Z_2D (nfp self) ntheta mpol ntor (lasym self)
    = Some (aRBC, oRBS, oZBC, aZBS)
    /\ to_vmec mu0 Frenet_to_cylindrical self filename r params ntheta ntorMax
       = Some (file, self', params')
    /\ has_shape (Z.to_nat (2 * ntor + 1)) (Z.to_nat (mpol + 1)) aRBC = true
    /\ has_shape (Z.to_nat (2 * ntor + 1)) (Z.to_nat (mpol + 1)) aZBS = true
    /\ RBC self' = Some (NdArray (transpose aRBC))
    /\ ZBS self' = Some (NdArray (transpose aZBS))
    /\ (lasym self = false ->
        oRBS = PyInt 0 /\ oZBC = PyInt 0
        /\ RBS self' = Some (PyInt 0) /\ ZBC self' = Some (PyInt 0))
    /\ (lasym self = true ->
        exists aRBS aZBC,
          oRBS = NdArray aRBS /\ oZBC = NdArray aZBC
          /\ has_shape (Z.to_nat (2 * ntor + 1)) (Z.to_nat (mpol + 1)) aRBS = true
          /\ has_shape (Z.to_nat (2 * ntor + 1)) (Z.to_nat (mpol + 1)) aZBC = true
          /\ RBS self' = Some (NdArray (transpose aRBS))
          /\ ZBC self' = Some (NdArray (transpose aZBC))).
Proof.
  intros Hmpol Hntor Hm0 Hn0 HF HR HZ Hnt Hnp Hnfp.
  destruct (to_vmec_run mu0 Frenet_to_cylindrical self filename r params ntheta ntorMax
              mpol ntor R_2D Z_2D phi0_2D nph Hmpol Hntor Hm0 Hn0 HF HR HZ Hnt Hnp Hnfp)
    as (RBC & RBS & ZBC & ZBS & lines & HFou & HRBC & HRBS & HZBC & HZBS & _ & _ & _ & Hrun).
  cbv zeta in *.
  eexists _, _, _, RBC, _, _, ZBS. split; [exact HFou|]. split; [exact Hrun|].
  split; [apply HRBC|]. split; [apply HZBS|].
  split; [reflexivity|]. split; [reflexivity|]. split.
  - intros ->. simpl. repeat split; reflexivity.
  - intros ->. simpl. exists RBS, ZBC.
    split; [reflexivity|]. split; [reflexivity|].
    split; [apply HRBS|]. split; [apply HZBC|]. split; reflexivity.
Qed.

Lemma to_vmec_stores_spectra_witness :
  exists file self' params' aRBC aZBS,
    to_Fourier Samples.R_grid Samples.Z_grid 3 2 1 3 false
    = Some (aRBC, PyInt 0, PyInt 0, aZBS)
    /\ to_vmec Samples.mu0 Samples.sampled_surface Samples.helical "input.qsc" (1 / 10)%R ∅ 2 14
       = Some (file, self', params')
    /\ RBC self' = Some (NdArray (transpose aRBC))
    /\ ZBS self' = Some (NdArray (transpose aZBS))
    /\ RBS self' = Some (PyInt 0)
    /\ ZBC self' = Some (PyInt 0).
Proof.
  assert (Hmpol : choose_mpol ∅ 2 = Some 1) by (apply (choose_mpol_default ∅ 2); reflexivity).
  assert (Hntor : choose_ntor ∅ Samples.helical = Some 3).
  { apply (choose_ntor_default ∅ Samples.helical); [reflexivity|simpl; lia]. }
  destruct (to_vmec_stores_spectra Samples.mu0 Samples.sampled_surface Samples.helical "input.qsc"
              (1 / 10)%R ∅ 2 14 1 3 Samples.R_grid Samples.Z_grid Samples.R_grid 4
              Hmpol Hntor ltac:(lia) ltac:(lia) eq_refl eq_refl eq_refl
              ltac:(lia) ltac:(lia) ltac:(simpl; lia))
    as (file & self' & params' & aRBC & oRBS & oZBC & aZBS
        & HFou & Hrun & _ & _ & HsR & HsZ & Hsym & _).
  destruct (Hsym eq_refl) as (-> & -> & HsRBS & HsZBC).
  exists file, self', params', aRBC, aZBS.
  split; [exact HFou|]. split; [exact Hrun|]. tauto.
Defined.

End VmecFacts.

(** ** Symmetries of the plotted surface *)

Module PlotSymmetries.
Import Plot PlotFacts.
Local Open Scope R_scope.

(** [np.mod(., p)] does not see a shift by a whole number of [p]. *)
Lemma np_mod_shift_many (x p : R) (k : Z) :
  p <> 0 -> np_mod (x + IZR k * p) p = np_mod x p.
Proof.
  intros Hp. unfold np_mod.
  replace ((x + IZR k * p) / p) with (x / p + IZR k) by (field; exact Hp).
  rewrite Zfloor_addz, plus_IZR. ring.
Qed.

(** [np.mod(x, p)] lies in [[0, p)] for a positive [p] and differs from
    [x] by a whole number of [p]. *)
Lemma np_mod_range (x p : R) :
  0 < p -> 0 <= np_mod x p < p /\ exists k : Z, np_mod x p = x - IZR k * p.
Proof.
  intros Hp. unfold np_mod. split; [|eexists; reflexivity].
  pose proof (Zfloor_bound (x / p)) as [Hlo Hhi].
  assert (Hx : x = x / p * p) by (field; lra).
  split.
  - apply (Rmult_le_compat_r p) in Hlo; [lra|lra].
  - apply (Rmult_lt_compat_r p) in Hhi; [lra|lra].
Qed.

Section any_configuration.
Variable spline : list R -> list R -> R -> R.
Variable self : Qsc.

Lemma rSurf_poloidal_turn (r phi0 theta : R) :
  rSurf spline self r phi0 (theta + 2 * PI) = rSurf spline self r phi0 theta.
Proof.
  unfold rSurf.
  set (tN := theta - (iota self - iotaN self) * phi0).
  replace (theta + 2 * PI - (iota self - iotaN self) * phi0)
    with (tN + 2 * IZR 1 * PI) by (unfold tN; ring).
  replace (2 * (tN + 2 * IZR 1 * PI)) with (2 * tN + 2 * IZR 2 * PI) by ring.
  rewrite !cos_turns, !sin_turns. reflexivity.
Qed.

Lemma zSurf_poloidal_turn (r phi0 theta : R) :
  zSurf spline self r phi0 (theta + 2 * PI) = zSurf spline self r phi0 theta.
Proof.
  unfold zSurf.
  set (tN := theta - (iota self - iotaN self) * phi0).
  replace (theta + 2 * PI - (iota self - iotaN self) * phi0)
    with (tN + 2 * IZR 1 * PI) by (unfold tN; ring).
  replace (2 * (tN + 2 * IZR 1 * PI)) with (2 * tN + 2 * IZR 2 * PI) by ring.
  rewrite !cos_turns, !sin_turns. reflexivity.
Qed.

(** X1.  The surface point that [plot] draws has period [2 pi] in the
    poloidal angle, at every radius and toroidal angle and for both
    orders of the expansion. *)
Theorem surface_poloidal_period (r phi0 theta : R) :
  evaluateSurface spline self r phi0 (theta + 2 * PI)
  = evaluateSurface spline self r phi0 theta.
Proof.
  unfold evaluateSurface. rewrite rSurf_poloidal_turn, zSurf_poloidal_turn.
  reflexivity.
Qed.

(** X2.  The field strength [Bf] of the 3-D figure has period [2 pi] in
    the poloidal angle. *)
Theorem Bf_poloidal_period (r phi0 theta : R) :
  Bf spline self r phi0 (theta + 2 * PI) = Bf spline self r phi0 theta.
Proof.
  unfold Bf.
  set (tN := theta - (iota self - iotaN self) * phi0).
  replace (theta + 2 * PI - (iota self - iotaN self) * phi0)
    with (tN + 2 * IZR 1 * PI) by (unfold tN; ring).
  rewrite !cos_turns, !sin_turns. reflexivity.
Qed.

(** X3.  A negative radius gives the surface of the positive radius,
    read half a poloidal turn further: the point at [(-r, phi, theta)] is
    the point at [(r, phi, theta + pi)]. *)
Theorem surface_negative_radius (r phi0 theta : R) :
  evaluateSurface spline self (- r) phi0 theta
  = evaluateSurface spline self r phi0 (theta + PI).
Proof.
  unfold evaluateSurface, rSurf, zSurf.
  set (tN := theta - (iota self - iotaN self) * phi0).
  replace (theta + PI - (iota self - iotaN self) * phi0)
    with (tN + PI) by (unfold tN; ring).
  replace (2 * (tN + PI)) with (2 * tN + 2 * IZR 1 * PI) by ring.
  rewrite !cos_turns, !sin_turns, !neg_cos, !neg_sin.
  f_equal; ring.
Qed.

(** X4.  The axis that [plot] marks is stellarator-symmetric: [Raxisf]
    is even and [Zaxisf] is odd in the toroidal angle ([plot] uses [rc]
    and [zs] only, never [rs] and [zc]). *)
Theorem axis_stellarator_symmetric (phi0 : R) :
  Raxisf self (- phi0) = Raxisf self phi0
  /\ Zaxisf self (- phi0) = - Zaxisf self phi0.
Proof.
  rewrite !Raxisf_fourier, !Zaxisf_fourier.
  generalize 0%nat. generalize (rc self) as cs. generalize (zs self) as ss.
  assert (Hc : forall cs i, fourier_from self cos i cs (- phi0)
                            = fourier_from self cos i cs phi0).
  { induction cs as [|c cs IH]; intros i; simpl; [reflexivity|].
    rewrite IH. replace (INR i * IZR (nfp self) * - phi0)
      with (- (INR i * IZR (nfp self) * phi0)) by ring.
    rewrite cos_neg. reflexivity. }
  assert (Hs : forall cs i, fourier_from self sin i cs (- phi0)
                            = - fourier_from self sin i cs phi0).
  { induction cs as [|c cs IH]; intros i; simpl; [ring|].
    rewrite IH. replace (INR i * IZR (nfp self) * - phi0)
      with (- (INR i * IZR (nfp self) * phi0)) by ring.
    rewrite sin_neg. ring. }
  intros ss cs i. split; [apply Hc|apply Hs].
Qed.
End any_configuration.


Section toroidal.
Variable spline : list R -> list R -> R -> R.
Variable self : Qsc.
Hypothesis nfp_nonzero : nfp self <> 0%Z.

Lemma splined_full_turn (y : list R) (phi0 : R) :
  splined spline self y (phi0 + 2 * PI) = splined spline self y phi0.
Proof.
  pose proof (nfp_real_nonzero self nfp_nonzero) as Hn.
  unfold splined.
  replace (phi0 + 2 * PI)
    with (phi0 + IZR (nfp self) * (2 * PI / IZR (nfp self))) by (field; exact Hn).
  rewrite np_mod_shift_many; [reflexivity|].
  apply (period_nonzero self nfp_nonzero).
Qed.

Lemma fourier_from_full_turn (i : nat) (cs : list R) (phi0 : R) :
  fourier_from self cos i cs (phi0 + 2 * PI) = fourier_from self cos i cs phi0
  /\ fourier_from self sin i cs (phi0 + 2 * PI) = fourier_from self sin i cs phi0.
Proof.
  revert i. induction cs as [|c cs IH]; intros i; simpl; [split; reflexivity|].
  destruct (IH (S i)) as [-> ->].
  replace (INR i * IZR (nfp self) * (phi0 + 2 * PI))
    with (INR i * IZR (nfp self) * phi0 + 2 * IZR (Z.of_nat i * nfp self) * PI)
    by (rewrite mult_IZR, <- INR_IZR_INZ; ring).
  rewrite cos_turns, sin_turns. split; reflexivity.
Qed.

(** X5.  When [iota - iotaN] is a whole multiple of [nfp], the field
    strength [Bf] repeats after one field period [2 pi / nfp] in the
    toroidal angle. *)
Theorem Bf_toroidal_period (k : Z) (r phi0 theta : R) :
  iota self - iotaN self = IZR k * IZR (nfp self) ->
  Bf spline self r (phi0 + 2 * PI / IZR (nfp self)) theta
  = Bf spline self r phi0 theta.
Proof.
  intros Hk. pose proof (nfp_real_nonzero self nfp_nonzero) as Hn.
  unfold Bf, B20F.
  rewrite (splined_periodic spline self nfp_nonzero).
  set (tN := theta - (iota self - iotaN self) * phi0).
  replace (theta - (iota self - iotaN self) * (phi0 + 2 * PI / IZR (nfp self)))
    with (tN + 2 * IZR (- k) * PI)
    by (unfold tN; rewrite Hk, opp_IZR; field; exact Hn).
  rewrite !cos_turns, !sin_turns. reflexivity.
Qed.

Section whole_turns.
Variables (k : Z) (r phi0 theta : R).
Hypothesis whole : iota self - iotaN self = IZR k.

Let tN := theta - (iota self - iotaN self) * phi0.

Lemma thetaN_full_turn :
  theta - (iota self - iotaN self) * (phi0 + 2 * PI) = tN + 2 * IZR (- k) * PI.
Proof. unfold tN. rewrite whole, opp_IZR. ring. Qed.

Lemma twice_thetaN_full_turn :
  2 * (tN + 2 * IZR (- k) * PI) = 2 * tN + 2 * IZR (2 * - k) * PI.
Proof. rewrite mult_IZR. ring. Qed.

Lemma rSurf_full_turn :
  rSurf spline self r (phi0 + 2 * PI) theta = rSurf spline self r phi0 theta.
Proof.
  unfold rSurf, normalR, binormalR, tangentR,
    X1cF, X1sF, Y1cF, Y1sF, X20F, X2cF, X2sF, Y20F, Y2cF, Y2sF, Z20F, Z2cF, Z2sF.
  rewrite thetaN_full_turn, twice_thetaN_full_turn, !splined_full_turn.
  rewrite !Raxisf_fourier.
  destruct (fourier_from_full_turn 0 (rc self) phi0) as [-> _].
  rewrite !cos_turns, !sin_turns. reflexivity.
Qed.

Lemma zSurf_full_turn :
  zSurf spline self r (phi0 + 2 * PI) theta = zSurf spline self r phi0 theta.
Proof.
  unfold zSurf, normalZ, binormalZ, tangentZ,
    X1cF, X1sF, Y1cF, Y1sF, X20F, X2cF, X2sF, Y20F, Y2cF, Y2sF, Z20F, Z2cF, Z2sF.
  rewrite thetaN_full_turn, twice_thetaN_full_turn, !splined_full_turn.
  rewrite !Zaxisf_fourier.
  destruct (fourier_from_full_turn 0 (zs self) phi0) as [_ ->].
  rewrite !cos_turns, !sin_turns. reflexivity.
Qed.

Lemma Bf_full_turn :
  Bf spline self r (phi0 + 2 * PI) theta = Bf spline self r phi0 theta.
Proof.
  unfold Bf, B20F. rewrite thetaN_full_turn, splined_full_turn.
  rewrite !cos_turns, !sin_turns. reflexivity.
Qed.
End whole_turns.

(** X6.  When [iota - iotaN] is a whole number, a multiple of [nfp] or
    not, the surface point and the field strength repeat after a full
    toroidal turn [2 pi]. *)
Theorem surface_and_field_full_turn (k : Z) (r phi0 theta : R) :
  iota self - iotaN self = IZR k ->
  evaluateSurface spline self r (phi0 + 2 * PI) theta
  = evaluateSurface spline self r phi0 theta
  /\ Bf spline self r (phi0 + 2 * PI) theta = Bf spline self r phi0 theta.
Proof.
  intros Hk. unfold evaluateSurface.
  rewrite (rSurf_full_turn k), (zSurf_full_turn k), (Bf_full_turn k) by exact Hk.
  split; reflexivity.
Qed.
End toroidal.

Lemma Bf_toroidal_period_witness :
  nfp Samples.second_order_B2c <> 0%Z
  /\ iota Samples.second_order_B2c - iotaN Samples.second_order_B2c
     = IZR 0 * IZR (nfp Samples.second_order_B2c)
  /\ Bf Samples.first_sample Samples.second_order_B2c (1 / 10)
       (1 + 2 * PI / IZR (nfp Samples.second_order_B2c)) 2
     = Bf Samples.first_sample Samples.second_order_B2c (1 / 10) 1 2.
Proof.
  assert (H1 : nfp Samples.second_order_B2c <> 0%Z) by (simpl; lia).
  assert (H2 : iota Samples.second_order_B2c - iotaN Samples.second_order_B2c
               = IZR 0 * IZR (nfp Samples.second_order_B2c)) by (simpl; lra).
  split; [exact H1|]. split; [exact H2|].
  exact (Bf_toroidal_period Samples.first_sample Samples.second_order_B2c H1 0
           (1 / 10) 1 2 H2).
Defined.

Lemma surface_and_field_full_turn_witness :
  nfp Samples.helical <> 0%Z
  /\ iota Samples.helical - iotaN Samples.helical = IZR (-3)
  /\ evaluateSurface Samples.first_sample Samples.helical (1 / 10) (1 + 2 * PI) 2
     = evaluateSurface Samples.first_sample Samples.helical (1 / 10) 1 2.
Proof.
  assert (H1 : nfp Samples.helical <> 0%Z) by (simpl; lia).
  assert (H2 : iota Samples.helical - iotaN Samples.helical = IZR (-3)) by (simpl; lra).
  split; [exact H1|]. split; [exact H2|].
  exact (proj1 (surface_and_field_full_turn Samples.first_sample Samples.helical H1
                  (-3) (1 / 10) 1 2 H2)).
Defined.

(** X7.  With [nfp] positive, every spline closure of [plot] evaluates
    its spline at a point of [[0, 2 pi / nfp)] that differs from the
    requested angle by a whole number of field periods: the spline is
    never asked outside one period. *)
Theorem spline_queried_within_one_period (spline : list R -> list R -> R -> R)
    (self : Qsc) (y : list R) (phi0 : R) :
  (0 < nfp self)%Z ->
  exists (k : Z) (t : R),
    t = phi0 - IZR k * (2 * PI / IZR (nfp self))
    /\ 0 <= t < 2 * PI / IZR (nfp self)
    /\ splined spline self y phi0 = spline (phi self) y t.
Proof.
  intros Hn.
  assert (Hp : 0 < 2 * PI / IZR (nfp self)).
  { pose proof PI_RGT_0. apply Rdiv_lt_0_compat; [lra|]. apply IZR_lt. exact Hn. }
  destruct (np_mod_range phi0 _ Hp) as [Hr [k Hk]].
  exists k, (np_mod phi0 (2 * PI / IZR (nfp self))).
  split; [exact Hk|]. split; [exact Hr|]. reflexivity.
Qed.

Lemma spline_queried_within_one_period_witness :
  (0 < nfp Samples.helical)%Z
  /\ exists (k : Z) (t : R),
       t = 7 - IZR k * (2 * PI / IZR (nfp Samples.helical))
       /\ 0 <= t < 2 * PI / IZR (nfp Samples.helical)
       /\ X1cF Samples.first_sample Samples.helical 7
          = Samples.first_sample (phi Samples.helical) (X1c Samples.helical) t.
Proof.
  assert (H1 : (0 < nfp Samples.helical)%Z) by (simpl; lia).
  split; [exact H1|].
  exact (spline_queried_within_one_period Samples.first_sample Samples.helical
           (X1c Samples.helical) 7 H1).
Defined.

End PlotSymmetries.

(** ** The arrays of plot *)

Module PlotDataFacts.
Import Plot PlotData Vocabulary PlotFacts PlotSymmetries.
Local Open Scope R_scope.

(** *** Grids *)

Lemma linspace_closed_lookup (stop : R) (num : Z) :
  (2 <= num)%Z ->
  exists xs, linspace_closed stop num = Some xs
    /\ length xs = Z.to_nat num
    /\ xs !! 0%nat = Some 0
    /\ xs !! (Z.to_nat num - 1)%nat = Some stop
    /\ head xs = Some 0 /\ last xs = Some stop.
Proof.
  intros Hn. unfold linspace_closed.
  destruct (Z.ltb_spec num 0); [lia|]. destruct (Z.leb_spec num 1); [lia|].
  eexists. split; [reflexivity|].
  assert (Hlen : length ((fun j => IZR j * (stop / IZR (num - 1))) <$> range (num - 1))
                 = (Z.to_nat num - 1)%nat).
  { rewrite length_fmap. unfold range. rewrite length_seqZ. lia. }
  assert (Hfirst : (((fun j => IZR j * (stop / IZR (num - 1))) <$> range (num - 1))
                ++ [stop]) !! 0%nat = Some 0).
  { rewrite lookup_app_l by (rewrite Hlen; lia).
    rewrite list_lookup_fmap. unfold range. rewrite lookup_seqZ_lt by lia.
    simpl. f_equal. apply Rmult_0_l. }
  split; [rewrite length_app, Hlen; simpl; lia|].
  split; [exact Hfirst|]. split.
  - rewrite lookup_app_r by (rewrite Hlen; lia).
    rewrite Hlen, Nat.sub_diag. reflexivity.
  - split; [rewrite head_lookup; exact Hfirst|apply last_snoc].
Qed.

Lemma linspace_closed_ok (stop : R) (num : Z) :
  (0 <= num)%Z ->
  exists xs, linspace_closed stop num = Some xs /\ length xs = Z.to_nat num.
Proof.
  intros Hn. unfold linspace_closed. destruct (Z.ltb_spec num 0); [lia|].
  destruct (Z.leb_spec num 1).
  - eexists. split; [reflexivity|]. rewrite length_fmap. unfold range.
    apply length_seqZ.
  - eexists. split; [reflexivity|]. rewrite length_app, length_fmap. unfold range.
    rewrite length_seqZ. simpl. lia.
Qed.

Lemma entry_meshgrid (xs ys : list R) (i j : nat) (x y : R) :
  xs !! j = Some x -> ys !! i = Some y ->
  entry (meshgrid xs ys).1 i j = Some x /\ entry (meshgrid xs ys).2 i j = Some y.
Proof.
  intros Hx Hy. unfold meshgrid, entry. simpl.
  rewrite !list_lookup_fmap, Hy. simpl. rewrite Hx.
  rewrite list_lookup_fmap, Hx. split; reflexivity.
Qed.

Lemma entry_map2 (f : R -> R -> R) (A B : grid) (i j : nat) (a b : R) :
  entry A i j = Some a -> entry B i j = Some b ->
  entry (map2 f A B) i j = Some (f a b).
Proof.
  unfold entry, map2. intros HA HB.
  destruct (A !! i) as [ra|] eqn:HAi; [|discriminate].
  destruct (B !! i) as [rb|] eqn:HBi; [|discriminate].
  simpl in *. rewrite lookup_zip_with, HAi. simpl. rewrite HBi. simpl.
  rewrite lookup_zip_with, HA. simpl. rewrite HB. reflexivity.
Qed.


(** *** Extrema *)

Lemma fold_Rmin_spec (xs : list R) (x : R) :
  fold_left Rmin xs x ∈ x :: xs
  /\ forall y, y ∈ x :: xs -> fold_left Rmin xs x <= y.
Proof.
  revert x. induction xs as [|z xs IH]; intros x; simpl.
  - split; [left|]. intros y ->%list_elem_of_singleton. lra.
  - destruct (IH (Rmin x z)) as [Hin Hle]. split.
    + apply elem_of_cons in Hin as [->|Hin].
      * unfold Rmin. destruct (Rle_dec x z); [left|right; left].
      * right. right. exact Hin.
    + intros y Hy.
      assert (Hm : fold_left Rmin xs (Rmin x z) <= Rmin x z) by (apply Hle; left).
      apply elem_of_cons in Hy as [->|Hy].
      * pose proof (Rmin_l x z). lra.
      * apply elem_of_cons in Hy as [->|Hy].
        -- pose proof (Rmin_r x z). lra.
        -- apply Hle. right. exact Hy.
Qed.

Lemma fold_Rmax_spec (xs : list R) (x : R) :
  fold_left Rmax xs x ∈ x :: xs
  /\ forall y, y ∈ x :: xs -> y <= fold_left Rmax xs x.
Proof.
  revert x. induction xs as [|z xs IH]; intros x; simpl.
  - split; [left|]. intros y ->%list_elem_of_singleton. lra.
  - destruct (IH (Rmax x z)) as [Hin Hle]. split.
    + apply elem_of_cons in Hin as [->|Hin].
      * unfold Rmax. destruct (Rle_dec x z); [right; left|left].
      * right. right. exact Hin.
    + intros y Hy.
      assert (Hm : Rmax x z <= fold_left Rmax xs (Rmax x z)) by (apply Hle; left).
      apply elem_of_cons in Hy as [->|Hy].
      * pose proof (Rmax_l x z). lra.
      * apply elem_of_cons in Hy as [->|Hy].
        -- pose proof (Rmax_r x z). lra.
        -- apply Hle. right. exact Hy.
Qed.

Lemma elem_of_concat_entry (B : grid) (b : R) :
  b ∈ concat B <-> exists i j, entry B i j = Some b.
Proof.
  rewrite list_elem_of_In, in_concat. unfold entry. split.
  - intros (row & Hrow%list_elem_of_In & Hb%list_elem_of_In).
    apply list_elem_of_lookup in Hrow as [i Hi].
    apply list_elem_of_lookup in Hb as [j Hj].
    exists i, j. rewrite Hi. exact Hj.
  - intros (i & j & Hij).
    destruct (B !! i) as [row|] eqn:Hi; [|discriminate]. simpl in Hij.
    exists row. split; apply list_elem_of_In, list_elem_of_lookup; eauto.
Qed.

(** X8.  The colour scale of line 163.  On an array without entries
    [Bmag.min()] raises.  Otherwise the minimum and the maximum are
    entries of the array that bound all the others, and when they differ
    the rescaled array has every entry in [[0, 1]] and takes the values 0
    and 1. *)
Theorem rescale_unit_interval (Bmag : grid) :
  (concat Bmag = [] -> rescale Bmag = None)
  /\ (concat Bmag <> [] ->
      exists B' lo hi,
        rescale Bmag = Some B'
        /\ (forall i j b, entry Bmag i j = Some b -> lo <= b <= hi)
        /\ (exists i j, entry Bmag i j = Some lo)
        /\ (exists i j, entry Bmag i j = Some hi)
        /\ (lo < hi ->
            (forall i j,
               entry B' i j = (fun b => (b - lo) / (hi - lo)) <$> entry Bmag i j)
            /\ (forall i j b', entry B' i j = Some b' -> 0 <= b' <= 1)
            /\ (exists i j, entry B' i j = Some 0)
            /\ (exists i j, entry B' i j = Some 1))).
Proof.
  unfold rescale, np_min, np_max. split.
  - intros ->. reflexivity.
  - intros Hne. destruct (concat Bmag) as [|x xs] eqn:Hc; [contradiction|]. simpl.
    set (lo := fold_left Rmin xs x). set (hi := fold_left Rmax xs x).
    destruct (fold_Rmin_spec xs x) as [Hlo_in Hlo]. fold lo in Hlo_in, Hlo.
    destruct (fold_Rmax_spec xs x) as [Hhi_in Hhi]. fold hi in Hhi_in, Hhi.
    rewrite <- Hc in Hlo_in, Hhi_in, Hlo, Hhi.
    assert (Hentry : forall i j,
      entry ((fun row : list R => (fun b => (b - lo) / (hi - lo)) <$> row) <$> Bmag) i j
      = (fun b => (b - lo) / (hi - lo)) <$> entry Bmag i j).
    { intros i j. unfold entry. rewrite list_lookup_fmap.
      destruct (Bmag !! i) as [row|]; simpl; [|reflexivity].
      apply list_lookup_fmap. }
    assert (Hrange : forall i j b, entry Bmag i j = Some b -> lo <= b <= hi).
    { intros i j b Hb.
      assert (b ∈ concat Bmag) by (apply elem_of_concat_entry; eauto).
      split; [apply Hlo|apply Hhi]; assumption. }
    apply elem_of_concat_entry in Hlo_in as (il & jl & Hil).
    apply elem_of_concat_entry in Hhi_in as (ih & jh & Hih).
    eexists _, lo, hi. split; [reflexivity|].
    split; [exact Hrange|]. split; [eauto|]. split; [eauto|].
    intros Hlt. split; [exact Hentry|]. split; [|split].
    + intros i j b' Hb'. rewrite Hentry in Hb'.
      destruct (entry Bmag i j) as [b|] eqn:Hb; [|discriminate].
      injection Hb' as <-. destruct (Hrange i j b Hb) as [H1 H2].
      assert (0 < hi - lo) by lra. split.
      * apply Rmult_le_pos; [lra|]. left. apply Rinv_0_lt_compat. assumption.
      * apply (Rmult_le_reg_r (hi - lo)); [assumption|].
        unfold Rdiv. rewrite Rmult_assoc, Rinv_l by lra. lra.
    + exists il, jl. rewrite Hentry, Hil. simpl. f_equal. unfold Rdiv.
      rewrite Rminus_diag. apply Rmult_0_l.
    + exists ih, jh. rewrite Hentry, Hih. simpl. f_equal.
      unfold Rdiv. apply Rinv_r. lra.
Qed.

Lemma rescale_unit_interval_witness :
  concat Samples.R_grid <> []
  /\ exists B', rescale Samples.R_grid = Some B'
       /\ forall i j b', entry B' i j = Some b' -> 0 <= b' <= 1.
Proof.
  assert (Hne : concat Samples.R_grid <> []) by discriminate.
  split; [exact Hne|].
  destruct (proj2 (rescale_unit_interval Samples.R_grid) Hne)
    as (B' & lo & hi & Hrun & Hrange & _ & _ & Hunit).
  exists B'. split; [exact Hrun|].
  apply Hunit.
  destruct (Hrange 0%nat 0%nat 1 eq_refl) as [Hlo _].
  destruct (Hrange 1%nat 3%nat 8 eq_refl) as [_ Hhi]. lra.
Defined.


(** *** The arrays of [plot] *)

Lemma rescale_entry (Bmag B' : grid) :
  rescale Bmag = Some B' ->
  exists lo hi, forall i j,
    entry B' i j = (fun b => (b - lo) / (hi - lo)) <$> entry Bmag i j.
Proof.
  unfold rescale, np_min, np_max. destruct (concat Bmag) as [|x xs]; [discriminate|].
  simpl. intros [= <-]. eexists _, _. intros i j. unfold entry.
  rewrite list_lookup_fmap. destruct (Bmag !! i) as [row|]; simpl; [|reflexivity].
  apply list_lookup_fmap.
Qed.

Section arrays.
Variable spline : list R -> list R -> R -> R.
Variable self : Qsc.
Variable r : R.
Variables nphi ntheta nsections : Z.
Hypothesis ntheta_pos : (1 <= ntheta)%Z.
Hypothesis nphi_pos : (1 <= nphi)%Z.
Hypothesis nsections_nonneg : (0 <= nsections)%Z.
Hypothesis nfp_nonzero : nfp self <> 0%Z.

(** With at least one angle of each kind [plot] computes its arrays: the
    cuts are the images of [theta] at the angles of [phi1D], and the
    entry in row [i], column [j] of each surface array is taken at
    [theta1d[i]] and [phi1d[j]]. *)
Lemma plot_arrays_run :
  exists theta phi1D phi1d fig,
    linspace_closed (2 * PI) ntheta = Some theta
    /\ length theta = Z.to_nat ntheta
    /\ ToVmec.linspace (2 * PI / IZR (nfp self)) nsections = Some phi1D
    /\ length phi1D = Z.to_nat nsections
    /\ linspace_closed (2 * PI) nphi = Some phi1d
    /\ length phi1d = Z.to_nat nphi
    /\ plot_arrays spline self r nphi ntheta nsections = Some fig
    /\ cuts fig
       = (fun phi0 => Cut (rSurf spline self r phi0 <$> theta)
                          (zSurf spline self r phi0 <$> theta)
                          (Raxisf self phi0, Zaxisf self phi0)) <$> phi1D
    /\ (forall i j th ph, theta !! i = Some th -> phi1d !! j = Some ph ->
          entry (Xsurf fig) i j = Some (rSurf spline self r ph th * cos ph)
          /\ entry (Ysurf fig) i j = Some (rSurf spline self r ph th * sin ph)
          /\ entry (Zsurf fig) i j = Some (zSurf spline self r ph th)
          /\ exists lo hi,
               entry (B_rescaled fig) i j
               = Some ((Bf spline self r ph th - lo) / (hi - lo))
               /\ forall i' j' th' ph',
                    theta !! i' = Some th' -> phi1d !! j' = Some ph' ->
                    entry (B_rescaled fig) i' j'
                    = Some ((Bf spline self r ph' th' - lo) / (hi - lo))).
Proof.
  destruct (linspace_closed_ok (2 * PI) ntheta) as (theta & Hth & Hthl); [lia|].
  destruct (linspace_closed_ok (2 * PI) nphi) as (phi1d & Hph & Hphl); [lia|].
  assert (Hsec : exists phi1D,
             ToVmec.linspace (2 * PI / IZR (nfp self)) nsections = Some phi1D
             /\ length phi1D = Z.to_nat nsections).
  { unfold ToVmec.linspace. destruct (Z.ltb_spec nsections 0); [lia|].
    eexists. split; [reflexivity|]. rewrite length_fmap. unfold range.
    apply length_seqZ. }
  destruct Hsec as (phi1D & Hsec & Hsecl).
  set (phi2D := (meshgrid phi1d theta).1). set (theta2D := (meshgrid phi1d theta).2).
  set (Bmag := map2 (Bf spline self r) phi2D theta2D).
  assert (Hmesh : forall i j th ph, theta !! i = Some th -> phi1d !! j = Some ph ->
            entry phi2D i j = Some ph /\ entry theta2D i j = Some th).
  { intros i j th ph Hi Hj. apply entry_meshgrid; assumption. }
  assert (HB : forall i j th ph, theta !! i = Some th -> phi1d !! j = Some ph ->
            entry Bmag i j = Some (Bf spline self r ph th)).
  { intros i j th ph Hi Hj. destruct (Hmesh i j th ph Hi Hj) as [H1 H2].
    apply entry_map2; assumption. }
  assert (Hne : concat Bmag <> []).
  { destruct (lookup_lt_is_Some_2 theta 0%nat) as [th Hi]; [lia|].
    destruct (lookup_lt_is_Some_2 phi1d 0%nat) as [ph Hj]; [lia|].
    intros Hnil.
    assert (Hin : Bf spline self r ph th ∈ concat Bmag).
    { apply elem_of_concat_entry. exists 0%nat, 0%nat. apply HB; assumption. }
    rewrite Hnil in Hin. apply not_elem_of_nil in Hin. contradiction. }
  assert (Hres : exists B', rescale Bmag = Some B').
  { unfold rescale, np_min, np_max. destruct (concat Bmag); [contradiction|].
    simpl. eauto. }
  destruct Hres as (B' & HB').
  destruct (rescale_entry Bmag B' HB') as (lo & hi & Hres).
  exists theta, phi1D, phi1d. eexists.
  split; [exact Hth|]. split; [exact Hthl|]. split; [exact Hsec|].
  split; [exact Hsecl|]. split; [exact Hph|]. split; [exact Hphl|].
  split.
  { unfold plot_arrays. rewrite Hth. cbn [mbind option_bind].
    destruct (Z.eqb_spec (nfp self) 0) as [Hz|_]; [contradiction|].
    cbn [mbind option_bind]. rewrite Hsec. cbn [mbind option_bind].
    rewrite Hph. cbn [mbind option_bind].
    rewrite (surjective_pairing (meshgrid phi1d theta)). cbv beta iota.
    fold phi2D theta2D. fold Bmag. rewrite HB'. reflexivity. }
  split; [reflexivity|]. simpl.
  intros i j th ph Hi Hj. destruct (Hmesh i j th ph Hi Hj) as [H1 H2].
  assert (Hrs : entry (map2 (rSurf spline self r) phi2D theta2D) i j
                = Some (rSurf spline self r ph th)) by (apply entry_map2; assumption).
  split; [|split; [|split]].
  - apply (entry_map2 (fun a p => a * cos p)); assumption.
  - apply (entry_map2 (fun a p => a * sin p)); assumption.
  - apply entry_map2; assumption.
  - exists lo, hi. split.
    + rewrite Hres, (HB i j th ph Hi Hj). reflexivity.
    + intros i' j' th' ph' Hi' Hj'. rewrite Hres, (HB i' j' th' ph' Hi' Hj').
      reflexivity.
Qed.
End arrays.


(** X9.  With [ntheta >= 2] and [nfp] nonzero, [plot] draws [nsections]
    cuts of [ntheta] points each, and every cut is a closed curve: its
    first and last points coincide.  The rows [theta = 0] and
    [theta = 2 pi] of the arrays of the 3-D surface coincide as well. *)
Theorem plot_closes_poloidally (spline : list R -> list R -> R -> R) (self : Qsc)
    (r : R) (nphi ntheta nsections : Z) :
  (2 <= ntheta)%Z -> (1 <= nphi)%Z -> (0 <= nsections)%Z -> nfp self <> 0%Z ->
  exists fig,
    plot_arrays spline self r nphi ntheta nsections = Some fig
    /\ length (cuts fig) = Z.to_nat nsections
    /\ (forall c, c ∈ cuts fig ->
          length (cut_R c) = Z.to_nat ntheta
          /\ length (cut_Z c) = Z.to_nat ntheta
          /\ head (cut_R c) = last (cut_R c)
          /\ head (cut_Z c) = last (cut_Z c))
    /\ (forall j, (j < Z.to_nat nphi)%nat ->
          is_Some (entry (Xsurf fig) 0 j)
          /\ entry (Xsurf fig) 0 j = entry (Xsurf fig) (Z.to_nat ntheta - 1) j
          /\ entry (Ysurf fig) 0 j = entry (Ysurf fig) (Z.to_nat ntheta - 1) j
          /\ entry (Zsurf fig) 0 j = entry (Zsurf fig) (Z.to_nat ntheta - 1) j).
Proof.
  intros Hnt Hnp Hns Hnfp.
  destruct (plot_arrays_run spline self r nphi ntheta nsections)
    as (theta & phi1D & phi1d & fig & Hth & Hthl & _ & Hsecl & _ & Hphl & Hrun
        & Hcuts & Hent); [lia|lia|lia|exact Hnfp|].
  destruct (linspace_closed_lookup (2 * PI) ntheta Hnt)
    as (theta' & Hth' & _ & Hfirst & Hlast & Hhead & Hend).
  rewrite Hth in Hth'. injection Hth' as <-.
  exists fig. split; [exact Hrun|]. split; [rewrite Hcuts, length_fmap; exact Hsecl|].
  split.
  - intros c Hc. rewrite Hcuts in Hc.
    apply list_elem_of_fmap in Hc as (phi0 & -> & _). simpl.
    rewrite !length_fmap, !head_lookup, !list_lookup_fmap, !fmap_last, Hfirst, Hend.
    simpl. split; [exact Hthl|]. split; [exact Hthl|].
    replace (2 * PI) with (0 + 2 * PI) by lra.
    rewrite rSurf_poloidal_turn, zSurf_poloidal_turn. split; reflexivity.
  - intros j Hj.
    destruct (lookup_lt_is_Some_2 phi1d j) as [ph Hph]; [lia|].
    destruct (Hent 0%nat j 0 ph Hfirst Hph) as (HX0 & HY0 & HZ0 & _).
    destruct (Hent (Z.to_nat ntheta - 1)%nat j (2 * PI) ph Hlast Hph)
      as (HX1 & HY1 & HZ1 & _).
    rewrite HX0, HY0, HZ0, HX1, HY1, HZ1.
    replace (2 * PI) with (0 + 2 * PI) by lra.
    rewrite rSurf_poloidal_turn, zSurf_poloidal_turn.
    repeat split; eauto.
Qed.

Lemma plot_closes_poloidally_witness :
  (2 <= 40)%Z /\ (1 <= 60)%Z /\ (0 <= 4)%Z /\ nfp Samples.helical <> 0%Z
  /\ exists fig,
       plot_arrays Samples.first_sample Samples.helical (1 / 10) 60 40 4 = Some fig
       /\ length (cuts fig) = 4%nat
       /\ forall c, c ∈ cuts fig -> head (cut_R c) = last (cut_R c).
Proof.
  assert (H1 : (2 <= 40)%Z) by lia.
  assert (H2 : (1 <= 60)%Z) by lia.
  assert (H3 : (0 <= 4)%Z) by lia.
  assert (H4 : nfp Samples.helical <> 0%Z) by (simpl; lia).
  split; [exact H1|]. split; [exact H2|]. split; [exact H3|]. split; [exact H4|].
  destruct (plot_closes_poloidally Samples.first_sample Samples.helical (1 / 10)
              60 40 4 H1 H2 H3 H4) as (fig & Hrun & Hlen & Hc & _).
  exists fig. split; [exact Hrun|]. split; [exact Hlen|].
  intros c Hin. apply (Hc c Hin).
Defined.

(** X10.  The entry in row [i], column [j] of [Xsurf], [Ysurf] and
    [Zsurf] is the surface point at [theta1d[i]] and [phi1d[j]] in
    Cartesian coordinates: [X = R cos phi], [Y = R sin phi], [Z] as in
    the cuts, so that [X^2 + Y^2 = R^2]. *)
Theorem plot_surface_cartesian (spline : list R -> list R -> R -> R) (self : Qsc)
    (r : R) (nphi ntheta nsections : Z) :
  (1 <= ntheta)%Z -> (1 <= nphi)%Z -> (0 <= nsections)%Z -> nfp self <> 0%Z ->
  exists fig theta1d phi1d,
    plot_arrays spline self r nphi ntheta nsections = Some fig
    /\ linspace_closed (2 * PI) ntheta = Some theta1d
    /\ linspace_closed (2 * PI) nphi = Some phi1d
    /\ length theta1d = Z.to_nat ntheta /\ length phi1d = Z.to_nat nphi
    /\ forall i j th ph, theta1d !! i = Some th -> phi1d !! j = Some ph ->
         exists x y z,
           entry (Xsurf fig) i j = Some x
           /\ entry (Ysurf fig) i j = Some y
           /\ entry (Zsurf fig) i j = Some z
           /\ x = rSurf spline self r ph th * cos ph
           /\ y = rSurf spline self r ph th * sin ph
           /\ z = zSurf spline self r ph th
           /\ x * x + y * y = rSurf spline self r ph th * rSurf spline self r ph th.
Proof.
  intros Hnt Hnp Hns Hnfp.
  destruct (plot_arrays_run spline self r nphi ntheta nsections Hnt Hnp Hns Hnfp)
    as (theta & phi1D & phi1d & fig & Hth & Hthl & _ & _ & Hph & Hphl & Hrun & _ & Hent).
  exists fig, theta, phi1d. split; [exact Hrun|]. split; [exact Hth|].
  split; [exact Hph|]. split; [exact Hthl|]. split; [exact Hphl|].
  intros i j th ph Hi Hj. destruct (Hent i j th ph Hi Hj) as (HX & HY & HZ & _).
  eexists _, _, _. split; [exact HX|]. split; [exact HY|]. split; [exact HZ|].
  split; [reflexivity|]. split; [reflexivity|]. split; [reflexivity|].
  pose proof (sin2_cos2 ph) as Hsc. unfold Rsqr in Hsc.
  replace (rSurf spline self r ph th * cos ph * (rSurf spline self r ph th * cos ph)
           + rSurf spline self r ph th * sin ph * (rSurf spline self r ph th * sin ph))
    with (rSurf spline self r ph th * rSurf spline self r ph th
          * (sin ph * sin ph + cos ph * cos ph)) by ring.
  rewrite Hsc. ring.
Qed.

Lemma plot_surface_cartesian_witness :
  (1 <= 40)%Z /\ (1 <= 60)%Z /\ (0 <= 4)%Z /\ nfp Samples.helical <> 0%Z
  /\ exists fig x y,
       plot_arrays Samples.first_sample Samples.helical (1 / 10) 60 40 4 = Some fig
       /\ entry (Xsurf fig) 0 0 = Some x /\ entry (Ysurf fig) 0 0 = Some y
       /\ x * x + y * y
          = rSurf Samples.first_sample Samples.helical (1 / 10) 0 0
            * rSurf Samples.first_sample Samples.helical (1 / 10) 0 0.
Proof.
  assert (H1 : (1 <= 40)%Z) by lia.
  assert (H2 : (1 <= 60)%Z) by lia.
  assert (H3 : (0 <= 4)%Z) by lia.
  assert (H4 : nfp Samples.helical <> 0%Z) by (simpl; lia).
  split; [exact H1|]. split; [exact H2|]. split; [exact H3|]. split; [exact H4|].
  destruct (plot_surface_cartesian Samples.first_sample Samples.helical (1 / 10)
              60 40 4 H1 H2 H3 H4)
    as (fig & theta1d & phi1d & Hrun & Hth & Hph & _ & _ & Hent).
  destruct (linspace_closed_lookup (2 * PI) 40 ltac:(lia)) as (t' & Ht' & _ & Ht0 & _).
  destruct (linspace_closed_lookup (2 * PI) 60 ltac:(lia)) as (p' & Hp' & _ & Hp0 & _).
  rewrite Hth in Ht'. injection Ht' as <-. rewrite Hph in Hp'. injection Hp' as <-.
  destruct (Hent 0%nat 0%nat 0 0 Ht0 Hp0) as (x & y & z & HX & HY & _ & _ & _ & _ & Hxy).
  exists fig, x, y. split; [exact Hrun|]. split; [exact HX|]. split; [exact HY|].
  exact Hxy.
Defined.

(** X11.  With [nphi >= 2], [nfp] nonzero and [iota - iotaN] a whole
    number, the 3-D surface closes toroidally: the columns [phi = 0]
    and [phi = 2 pi] of [Xsurf], [Ysurf] and [Zsurf] coincide. *)
Theorem plot_closes_toroidally (spline : list R -> list R -> R -> R) (self : Qsc)
    (k : Z) (r : R) (nphi ntheta nsections : Z) :
  (1 <= ntheta)%Z -> (2 <= nphi)%Z -> (0 <= nsections)%Z ->
  nfp self <> 0%Z -> iota self - iotaN self = IZR k ->
  exists fig,
    plot_arrays spline self r nphi ntheta nsections = Some fig
    /\ forall i, (i < Z.to_nat ntheta)%nat ->
         is_Some (entry (Xsurf fig) i 0)
         /\ entry (Xsurf fig) i 0 = entry (Xsurf fig) i (Z.to_nat nphi - 1)
         /\ entry (Ysurf fig) i 0 = entry (Ysurf fig) i (Z.to_nat nphi - 1)
         /\ entry (Zsurf fig) i 0 = entry (Zsurf fig) i (Z.to_nat nphi - 1).
Proof.
  intros Hnt Hnp Hns Hnfp Hk.
  destruct (plot_arrays_run spline self r nphi ntheta nsections)
    as (theta & phi1D & phi1d & fig & Hth & Hthl & _ & _ & Hph & Hphl & Hrun & _ & Hent);
    [lia|lia|lia|exact Hnfp|].
  destruct (linspace_closed_lookup (2 * PI) nphi Hnp)
    as (phi' & Hph' & _ & Hfirst & Hlast & _).
  rewrite Hph in Hph'. injection Hph' as <-.
  exists fig. split; [exact Hrun|]. intros i Hi.
  destruct (lookup_lt_is_Some_2 theta i) as [th Hthi]; [lia|].
  destruct (Hent i 0%nat th 0 Hthi Hfirst) as (HX0 & HY0 & HZ0 & _).
  destruct (Hent i (Z.to_nat nphi - 1)%nat th (2 * PI) Hthi Hlast) as (HX1 & HY1 & HZ1 & _).
  rewrite HX0, HY0, HZ0, HX1, HY1, HZ1.
  rewrite cos_2PI, sin_2PI, cos_0, sin_0.
  replace (2 * PI) with (0 + 2 * PI) by lra.
  rewrite (rSurf_full_turn spline self Hnfp k), (zSurf_full_turn spline self Hnfp k)
    by exact Hk.
  repeat split; eauto.
Qed.

Lemma plot_closes_toroidally_witness :
  (1 <= 40)%Z /\ (2 <= 60)%Z /\ (0 <= 4)%Z
  /\ nfp Samples.helical <> 0%Z
  /\ iota Samples.helical - iotaN Samples.helical = IZR (-3)
  /\ exists fig,
       plot_arrays Samples.first_sample Samples.helical (1 / 10) 60 40 4 = Some fig
       /\ entry (Xsurf fig) 0 0 = entry (Xsurf fig) 0 (Z.to_nat 60 - 1).
Proof.
  assert (H1 : (1 <= 40)%Z) by lia.
  assert (H2 : (2 <= 60)%Z) by lia.
  assert (H3 : (0 <= 4)%Z) by lia.
  assert (H4 : nfp Samples.helical <> 0%Z) by (simpl; lia).
  assert (H5 : iota Samples.helical - iotaN Samples.helical = IZR (-3)) by (simpl; lra).
  repeat (split; [assumption|]).
  destruct (plot_closes_toroidally Samples.first_sample Samples.helical (-3) (1 / 10)
              60 40 4 H1 H2 H3 H4 H5) as (fig & Hrun & Hseam).
  exists fig. split; [exact Hrun|]. apply (Hseam 0%nat). lia.
Defined.

End PlotDataFacts.

(** ** to_Fourier: failures, shapes, truncation and scaling *)

Module FourierEdges.
Import ToVmec Vocabulary MoreVocabulary ArrayFacts SumFacts LoopFacts FourierFacts.
Local Open Scope Z_scope.

(** *** What a returned array looks like, on any input *)

Lemma py_index_lt (len : nat) (i : Z) (k : nat) :
  py_index len i = Some k -> (k < len)%nat.
Proof.
  unfold py_index. destruct (Z.leb_spec 0 i).
  - destruct (Z.ltb_spec i (Z.of_nat len)); [|discriminate]. intros [= <-]. lia.
  - destruct (Z.leb_spec 0 (i + Z.of_nat len)); [|discriminate]. intros [= <-]. lia.
Qed.

Lemma setitem_shape (rows cols : nat) (a a' : grid) (i j : Z) (v : R) :
  has_shape rows cols a = true -> setitem a i j v = Some a' ->
  has_shape rows cols a' = true /\ (0 < rows)%nat /\ (0 < cols)%nat.
Proof.
  intros [Hlen Hrow]%has_shape_spec. unfold setitem.
  destruct (py_index (length a) i) as [k|] eqn:Hk; [|discriminate]. simpl.
  destruct (a !! k) as [row|] eqn:Hr; [|discriminate]. simpl.
  destruct (py_index (length row) j) as [l|] eqn:Hl; [|discriminate]. simpl.
  intros [= <-]. apply py_index_lt in Hk, Hl. pose proof (Hrow _ _ Hr) as Hrl.
  split; [|lia]. apply has_shape_spec. rewrite length_insert. split; [exact Hlen|].
  intros k' r' Hk'. destruct (decide (k' = k)) as [->|Hne].
  - rewrite list_lookup_insert_eq in Hk' by lia. injection Hk' as <-.
    rewrite length_insert. exact Hrl.
  - rewrite list_lookup_insert_ne in Hk' by congruence. eauto.
Qed.

Lemma add_term_shape (rows cols : nat) (a a' X : grid) (i j jt jp : Z) (t w : R) :
  has_shape rows cols a = true -> add_term a i j X jt jp t w = Some a' ->
  has_shape rows cols a' = true.
Proof.
  intros Hs. unfold add_term.
  destruct (getitem a i j); [|discriminate]. simpl.
  destruct (getitem X jt jp); [|discriminate]. simpl.
  intros H. apply (setitem_shape _ _ _ _ _ _ _ Hs H).
Qed.

Lemma for_each_preserves {A S : Type} (P : S -> Prop) (xs : list A)
    (body : A -> S -> option S) :
  (forall x s s', P s -> body x s = Some s' -> P s') ->
  forall s s', P s -> for_each xs body s = Some s' -> P s'.
Proof.
  intros Hbody. induction xs as [|x xs IH]; intros s s' Hs; simpl.
  - intros [= <-]. exact Hs.
  - destruct (body x s) as [s1|] eqn:H1; [|discriminate]. simpl.
    apply IH. exact (Hbody x s s1 Hs H1).
Qed.

Lemma accumulate_shape (rows cols : nat) (R_2D Z_2D : grid) (nfp ntheta ntor nphi : Z)
    (theta phic : list R) (factor : R) (jp jt m n : Z) (s s' : spectra) :
  shaped rows cols s ->
  accumulate R_2D Z_2D nfp ntheta ntor nphi theta phic factor jp jt m n s = Some s' ->
  shaped rows cols s'.
Proof.
  intros Hs. unfold accumulate.
  destruct (getitem1 theta jt); [|discriminate]. simpl.
  destruct (getitem1 phic jp); [|discriminate]. simpl.
  destruct (add_term (acc_RBC s) _ _ _ _ _ _ _) as [a1|] eqn:H1; [|discriminate]. simpl.
  destruct (add_term (acc_RBS s) _ _ _ _ _ _ _) as [a2|] eqn:H2; [|discriminate]. simpl.
  destruct (add_term (acc_ZBC s) _ _ _ _ _ _ _) as [a3|] eqn:H3; [|discriminate]. simpl.
  destruct (add_term (acc_ZBS s) _ _ _ _ _ _ _) as [a4|] eqn:H4; [|discriminate]. simpl.
  intros [= <-].
  apply (add_term_shape rows cols) in H1; [|apply (Hs cRBC)].
  apply (add_term_shape rows cols) in H2; [|apply (Hs cRBS)].
  apply (add_term_shape rows cols) in H3; [|apply (Hs cZBC)].
  apply (add_term_shape rows cols) in H4; [|apply (Hs cZBS)].
  intros c. destruct c; assumption.
Qed.

Lemma accumulate_all_shape (rows cols : nat) (R_2D Z_2D : grid)
    (nfp ntheta mpol ntor nphi : Z) (theta phic : list R) (factor : R)
    (s s' : spectra) :
  shaped rows cols s ->
  accumulate_all R_2D Z_2D nfp ntheta mpol ntor nphi theta phic factor s = Some s' ->
  shaped rows cols s'.
Proof.
  unfold accumulate_all. apply for_each_preserves. intros jp.
  apply for_each_preserves. intros jt.
  apply for_each_preserves. intros m.
  apply for_each_preserves. intros n s1 s2.
  apply accumulate_shape.
Qed.

(** Everything a successful call of [to_Fourier] went through. *)
Lemma to_Fourier_inversion (R_2D Z_2D : grid) (nfp ntheta mpol ntor : Z)
    (lasym : bool) (RBC : grid) (RBS ZBC : pyobj) (ZBS : grid) :
  to_Fourier R_2D Z_2D nfp ntheta mpol ntor lasym = Some (RBC, RBS, ZBC, ZBS) ->
  (exists row rest, R_2D = row :: rest /\ row <> [])
  /\ nfp <> 0 /\ 0 < ntheta /\ 0 <= mpol /\ 0 <= ntor
  /\ has_shape (Z.to_nat (2 * ntor + 1)) (Z.to_nat (mpol + 1)) RBC = true
  /\ has_shape (Z.to_nat (2 * ntor + 1)) (Z.to_nat (mpol + 1)) ZBS = true
  /\ (if lasym
      then exists aRBS aZBC,
             RBS = NdArray aRBS /\ ZBC = NdArray aZBC
             /\ has_shape (Z.to_nat (2 * ntor + 1)) (Z.to_nat (mpol + 1)) aRBS = true
             /\ has_shape (Z.to_nat (2 * ntor + 1)) (Z.to_nat (mpol + 1)) aZBC = true
      else RBS = PyInt 0 /\ ZBC = PyInt 0).
Proof.
  unfold to_Fourier. intros H.
  destruct R_2D as [|row rest]; [discriminate|]. simpl in H.
  destruct (linspace (2 * PI) ntheta) as [theta|] eqn:Hth; [|discriminate]. simpl in H.
  destruct (Z.eqb_spec nfp 0) as [|Hnfp]; [discriminate|]. simpl in H.
  destruct (linspace _ (Z.of_nat (length row))) as [phic|]; [|discriminate]. simpl in H.
  destruct (np_zeros (2 * ntor + 1) (mpol + 1)) as [zero|] eqn:Hz; [|discriminate].
  simpl in H.
  destruct (Z.eqb_spec (ntheta * Z.of_nat (length row)) 0) as [|Hprod]; [discriminate|].
  simpl in H.
  destruct (accumulate_all _ _ _ _ _ _ _ _ _ _ _) as [s|] eqn:Hacc; [|discriminate].
  simpl in H.
  destruct (setitem (acc_RBC s) ntor 0 _) as [aRBC|] eqn:HsR; [|discriminate].
  simpl in H.
  destruct (setitem (acc_ZBC s) ntor 0 _) as [aZBC|] eqn:HsZ; [|discriminate].
  simpl in H. injection H as <- <- <- <-.
  unfold np_zeros in Hz.
  destruct (Z.leb_spec 0 (2 * ntor + 1)); [|discriminate].
  destruct (Z.leb_spec 0 (mpol + 1)); [|discriminate]. simpl in Hz.
  destruct (np_zeros_spec (2 * ntor + 1) (mpol + 1)) as (zero' & Hz' & Hzs & _);
    [lia|lia|].
  unfold np_zeros in Hz'.
  destruct (Z.leb_spec 0 (2 * ntor + 1)); [|lia].
  destruct (Z.leb_spec 0 (mpol + 1)); [|lia]. simpl in Hz'.
  rewrite Hz in Hz'. injection Hz' as <-.
  assert (Hshape : shaped (Z.to_nat (2 * ntor + 1)) (Z.to_nat (mpol + 1)) s).
  { eapply accumulate_all_shape; [|exact Hacc].
    intros c. destruct c; exact Hzs. }
  destruct (setitem_shape _ _ _ _ _ _ _ (Hshape cRBC) HsR) as (HR & Hrows & Hcols).
  destruct (setitem_shape _ _ _ _ _ _ _ (Hshape cZBC) HsZ) as (HZ & _ & _).
  unfold linspace in Hth. destruct (Z.ltb_spec ntheta 0); [discriminate|].
  split.
  { exists row, rest. split; [reflexivity|]. intros ->. simpl in Hprod. lia. }
  split; [exact Hnfp|]. split; [lia|]. split; [lia|]. split; [lia|].
  split; [exact HR|]. split; [exact (Hshape cZBS)|].
  destruct lasym; simpl.
  - exists (acc_RBS s), aZBC. split; [reflexivity|]. split; [reflexivity|].
    split; [exact (Hshape cRBS)|exact HZ].
  - split; reflexivity.
Qed.


(** X12.  [to_Fourier] raises when [nfp] is 0, when [ntheta] is not
    positive, when [mpol] or [ntor] is negative, and when [R_2D] has no
    row or an empty first row. *)
Theorem to_Fourier_raises (R_2D Z_2D : grid) (nfp ntheta mpol ntor : Z) (lasym : bool) :
  nfp = 0 \/ ntheta <= 0 \/ mpol < 0 \/ ntor < 0
  \/ R_2D = [] \/ head R_2D = Some [] ->
  to_Fourier R_2D Z_2D nfp ntheta mpol ntor lasym = None.
Proof.
  intros Hbad.
  destruct (to_Fourier R_2D Z_2D nfp ntheta mpol ntor lasym)
    as [[[[RBC RBS] ZBC] ZBS]|] eqn:Hrun; [|reflexivity].
  apply to_Fourier_inversion in Hrun
    as ((row & rest & -> & Hrow) & Hnfp & Hnt & Hm & Hn & _).
  exfalso. destruct Hbad as [?|[?|[?|[?|[?|Hhead]]]]]; try lia; try discriminate.
  simpl in Hhead. congruence.
Qed.

Lemma to_Fourier_raises_witness :
  (0 = 0 \/ 2 <= 0 \/ 1 < 0 \/ 1 < 0
   \/ Samples.R_grid = [] \/ head Samples.R_grid = Some [])
  /\ to_Fourier Samples.R_grid Samples.Z_grid 0 2 1 1 true = None.
Proof.
  assert (H : 0 = 0 \/ 2 <= 0 \/ 1 < 0 \/ 1 < 0
              \/ Samples.R_grid = [] \/ head Samples.R_grid = Some [])
    by (left; reflexivity).
  split; [exact H|].
  exact (to_Fourier_raises Samples.R_grid Samples.Z_grid 0 2 1 1 true H).
Defined.

(** X13.  Whatever the input, when [to_Fourier] returns, [RBC] and
    [ZBS] have [2*ntor+1] rows and [mpol+1] columns; [RBS] and [ZBC] are
    arrays of that shape when [lasym] is true and the integer 0 when it
    is false. *)
Theorem to_Fourier_shapes (R_2D Z_2D : grid) (nfp ntheta mpol ntor : Z)
    (lasym : bool) (RBC : grid) (RBS ZBC : pyobj) (ZBS : grid) :
  to_Fourier R_2D Z_2D nfp ntheta mpol ntor lasym = Some (RBC, RBS, ZBC, ZBS) ->
  has_shape (Z.to_nat (2 * ntor + 1)) (Z.to_nat (mpol + 1)) RBC = true
  /\ has_shape (Z.to_nat (2 * ntor + 1)) (Z.to_nat (mpol + 1)) ZBS = true
  /\ (lasym = true ->
      exists aRBS aZBC,
        RBS = NdArray aRBS /\ ZBC = NdArray aZBC
        /\ has_shape (Z.to_nat (2 * ntor + 1)) (Z.to_nat (mpol + 1)) aRBS = true
        /\ has_shape (Z.to_nat (2 * ntor + 1)) (Z.to_nat (mpol + 1)) aZBC = true)
  /\ (lasym = false -> RBS = PyInt 0 /\ ZBC = PyInt 0).
Proof.
  intros Hrun. apply to_Fourier_inversion in Hrun as (_ & _ & _ & _ & _ & HR & HZ & Hsym).
  split; [exact HR|]. split; [exact HZ|]. split; intros ->; exact Hsym.
Qed.

Lemma to_Fourier_shapes_witness :
  exists RBC RBS ZBC ZBS,
    to_Fourier Samples.R_grid Samples.Z_grid 3 2 1 1 true = Some (RBC, RBS, ZBC, ZBS)
    /\ has_shape (Z.to_nat (2 * 1 + 1)) (Z.to_nat (1 + 1)) RBC = true
    /\ has_shape (Z.to_nat (2 * 1 + 1)) (Z.to_nat (1 + 1)) ZBS = true.
Proof.
  destruct (to_Fourier_run Samples.R_grid Samples.Z_grid 3 2 1 1 4)
    with (lasym := true) as (RBC & RBS & ZBC & ZBS & Hrun & _);
    [reflexivity|reflexivity|lia|lia|lia|lia|lia|].
  eexists _, _, _, _. split; [exact Hrun|].
  destruct (to_Fourier_shapes _ _ _ _ _ _ _ _ _ _ _ Hrun) as (HR & HZ & _).
  split; [exact HR|exact HZ].
Defined.

(** *** The amplitudes in closed form *)

Lemma RBC_entry_amplitude (R_2D Z_2D : grid) (nfp ntheta mpol ntor nphi m n : Z) :
  0 <= m <= mpol -> - ntor <= n <= ntor ->
  RBC_entry R_2D Z_2D nfp ntheta mpol ntor nphi (Z.to_nat (n + ntor)) (Z.to_nat m)
  = cosine_amplitude R_2D nfp ntheta nphi m n.
Proof.
  intros Hm Hn. unfold RBC_entry, cosine_amplitude.
  destruct (decide (m = 0 /\ n = 0)) as [[-> ->]|Hne].
  - rewrite decide_True by done. reflexivity.
  - rewrite decide_False by lia. rewrite total_at_mode by lia.
    destruct ((m =? 0) && (n <=? 0)); [reflexivity|].
    unfold mode_sum, angle_of. apply big_sum_ext; intros jp _.
    apply big_sum_ext; intros jt _. rewrite mult_IZR. reflexivity.
Qed.

Lemma ZBC_entry_amplitude (R_2D Z_2D : grid) (nfp ntheta mpol ntor nphi m n : Z) :
  0 <= m <= mpol -> - ntor <= n <= ntor ->
  ZBC_entry R_2D Z_2D nfp ntheta mpol ntor nphi (Z.to_nat (n + ntor)) (Z.to_nat m)
  = cosine_amplitude Z_2D nfp ntheta nphi m n.
Proof.
  intros Hm Hn. unfold ZBC_entry, cosine_amplitude.
  destruct (decide (m = 0 /\ n = 0)) as [[-> ->]|Hne].
  - rewrite decide_True by done. reflexivity.
  - rewrite decide_False by lia. rewrite total_at_mode by lia.
    destruct ((m =? 0) && (n <=? 0)); [reflexivity|].
    unfold mode_sum, angle_of. apply big_sum_ext; intros jp _.
    apply big_sum_ext; intros jt _. rewrite mult_IZR. reflexivity.
Qed.

Lemma sine_total_amplitude (R_2D Z_2D : grid) (nfp ntheta mpol ntor nphi m n : Z)
    (c : component) :
  c = cRBS \/ c = cZBS ->
  0 <= m <= mpol -> - ntor <= n <= ntor ->
  total R_2D Z_2D nfp ntheta mpol ntor nphi (2 / IZR (ntheta * nphi)) c
    (Z.to_nat (n + ntor)) (Z.to_nat m)
  = sine_amplitude (grid_of R_2D Z_2D c) nfp ntheta nphi m n.
Proof.
  intros Hc Hm Hn. unfold sine_amplitude. rewrite total_at_mode by lia.
  destruct ((m =? 0) && (n <=? 0)); [reflexivity|].
  unfold mode_sum, angle_of. apply big_sum_ext; intros jp _.
  apply big_sum_ext; intros jt _. rewrite mult_IZR.
  destruct Hc as [-> | ->]; reflexivity.
Qed.

(** On a grid of the announced shape every entry of every returned
    spectrum is the amplitude of its mode. *)
Lemma to_Fourier_amplitudes (R_2D Z_2D : grid) (nfp ntheta mpol ntor : Z)
    (nph : nat) (lasym : bool) :
  has_shape (Z.to_nat ntheta) nph R_2D = true ->
  has_shape (Z.to_nat ntheta) nph Z_2D = true ->
  0 < ntheta -> (0 < nph)%nat -> nfp <> 0 -> 0 <= mpol -> 0 <= ntor ->
  exists RBC RBS ZBC ZBS,
    to_Fourier R_2D Z_2D nfp ntheta mpol ntor lasym = Some (RBC, RBS, ZBC, ZBS)
    /\ forall m n, 0 <= m <= mpol -> - ntor <= n <= ntor ->
         getitem RBC (n + ntor) m
           = Some (cosine_amplitude R_2D nfp ntheta (Z.of_nat nph) m n)
         /\ getitem ZBS (n + ntor) m
           = Some (sine_amplitude Z_2D nfp ntheta (Z.of_nat nph) m n)
         /\ coefficient RBS (n + ntor) m
           = Some (if lasym then sine_amplitude R_2D nfp ntheta (Z.of_nat nph) m n
                   else 0%R)
         /\ coefficient ZBC (n + ntor) m
           = Some (if lasym then cosine_amplitude Z_2D nfp ntheta (Z.of_nat nph) m n
                   else 0%R).
Proof.
  intros HR HZ Hnt Hnp Hnfp Hmpol Hntor.
  destruct (to_Fourier_run R_2D Z_2D nfp ntheta mpol ntor nph HR HZ Hnt Hnp Hnfp
              Hmpol Hntor lasym) as (RBC & RBS & ZBC & ZBS & Hrun & HRBC & HRBS & HZBC & HZBS).
  eexists RBC, _, _, ZBS. split; [exact Hrun|].
  intros m n Hm Hn.
  assert (Hi : 0 <= n + ntor < Z.of_nat (Z.to_nat (2 * ntor + 1))) by lia.
  assert (Hj : 0 <= m < Z.of_nat (Z.to_nat (mpol + 1))) by lia.
  split; [|split; [|split]].
  - rewrite (holds_getitem _ _ _ _ _ _ HRBC Hi Hj), RBC_entry_amplitude by lia.
    reflexivity.
  - rewrite (holds_getitem _ _ _ _ _ _ HZBS Hi Hj).
    rewrite (sine_total_amplitude R_2D Z_2D) by (auto; lia). reflexivity.
  - destruct lasym; simpl; [|reflexivity].
    rewrite (holds_getitem _ _ _ _ _ _ HRBS Hi Hj).
    rewrite (sine_total_amplitude R_2D Z_2D) by (auto; lia). reflexivity.
  - destruct lasym; simpl; [|reflexivity].
    rewrite (holds_getitem _ _ _ _ _ _ HZBC Hi Hj), ZBC_entry_amplitude by lia.
    reflexivity.
Qed.

(** X14.  A coefficient does not depend on the truncation: the value
    [to_Fourier] gives mode [(m, n)] is the same for every [mpol] and
    [ntor] that include the mode, in each of the four spectra. *)
Theorem to_Fourier_truncation_consistent (R_2D Z_2D : grid) (nfp ntheta : Z)
    (nph : nat) (lasym : bool) (mpol ntor mpol' ntor' : Z) :
  has_shape (Z.to_nat ntheta) nph R_2D = true ->
  has_shape (Z.to_nat ntheta) nph Z_2D = true ->
  0 < ntheta -> (0 < nph)%nat -> nfp <> 0 ->
  0 <= mpol -> 0 <= ntor -> 0 <= mpol' -> 0 <= ntor' ->
  exists RBC RBS ZBC ZBS RBC' RBS' ZBC' ZBS',
    to_Fourier R_2D Z_2D nfp ntheta mpol ntor lasym = Some (RBC, RBS, ZBC, ZBS)
    /\ to_Fourier R_2D Z_2D nfp ntheta mpol' ntor' lasym = Some (RBC', RBS', ZBC', ZBS')
    /\ forall m n,
         0 <= m <= Z.min mpol mpol' -> - Z.min ntor ntor' <= n <= Z.min ntor ntor' ->
         is_Some (getitem RBC (n + ntor) m)
         /\ getitem RBC (n + ntor) m = getitem RBC' (n + ntor') m
         /\ getitem ZBS (n + ntor) m = getitem ZBS' (n + ntor') m
         /\ coefficient RBS (n + ntor) m = coefficient RBS' (n + ntor') m
         /\ coefficient ZBC (n + ntor) m = coefficient ZBC' (n + ntor') m.
Proof.
  intros HR HZ Hnt Hnp Hnfp Hm1 Hn1 Hm2 Hn2.
  destruct (to_Fourier_amplitudes R_2D Z_2D nfp ntheta mpol ntor nph lasym
              HR HZ Hnt Hnp Hnfp Hm1 Hn1) as (RBC & RBS & ZBC & ZBS & Hrun & Hamp).
  destruct (to_Fourier_amplitudes R_2D Z_2D nfp ntheta mpol' ntor' nph lasym
              HR HZ Hnt Hnp Hnfp Hm2 Hn2) as (RBC' & RBS' & ZBC' & ZBS' & Hrun' & Hamp').
  exists RBC, RBS, ZBC, ZBS, RBC', RBS', ZBC', ZBS'.
  split; [exact Hrun|]. split; [exact Hrun'|].
  intros m n Hm Hn.
  destruct (Hamp m n) as (H1 & H2 & H3 & H4); [lia|lia|].
  destruct (Hamp' m n) as (H1' & H2' & H3' & H4'); [lia|lia|].
  rewrite H1, H2, H3, H4, H1', H2', H3', H4'. repeat split; eauto.
Qed.

Lemma to_Fourier_truncation_consistent_witness :
  exists RBC RBS ZBC ZBS RBC' RBS' ZBC' ZBS',
    to_Fourier Samples.R_grid Samples.Z_grid 3 2 1 1 true = Some (RBC, RBS, ZBC, ZBS)
    /\ to_Fourier Samples.R_grid Samples.Z_grid 3 2 4 3 true
       = Some (RBC', RBS', ZBC', ZBS')
    /\ getitem RBC (-1 + 1) 1 = getitem RBC' (-1 + 3) 1.
Proof.
  destruct (to_Fourier_truncation_consistent Samples.R_grid Samples.Z_grid 3 2 4 true
              1 1 4 3)
    as (RBC & RBS & ZBC & ZBS & RBC' & RBS' & ZBC' & ZBS' & Hrun & Hrun' & Hsame);
    [reflexivity|reflexivity|lia|lia|lia|lia|lia|lia|lia|].
  exists RBC, RBS, ZBC, ZBS, RBC', RBS', ZBC', ZBS'.
  split; [exact Hrun|]. split; [exact Hrun'|].
  apply (Hsame 1 (-1)); lia.
Defined.


(** *** Linearity *)

Lemma big_sum_scale {A : Type} (xs : list A) (c : R) (g : A -> R) :
  big_sum xs (fun x => (c * g x)%R) = (c * big_sum xs g)%R.
Proof. induction xs as [|x xs IH]; simpl; [lra|]. rewrite IH. lra. Qed.

Lemma big_sum_cons {A : Type} (x : A) (xs : list A) (g : A -> R) :
  big_sum (x :: xs) g = (g x + big_sum xs g)%R.
Proof. reflexivity. Qed.

Lemma big_sum_app {A : Type} (xs ys : list A) (g : A -> R) :
  big_sum (xs ++ ys) g = (big_sum xs g + big_sum ys g)%R.
Proof. induction xs as [|x xs IH]; simpl; [lra|]. rewrite IH. lra. Qed.

Lemma getitem_scale_grid (c : R) (X : grid) (i j : Z) :
  getitem (scale_grid c X) i j = Rmult c <$> getitem X i j.
Proof.
  unfold getitem, scale_grid. rewrite length_fmap.
  destruct (py_index (length X) i) as [k|]; [|reflexivity]. simpl.
  rewrite list_lookup_fmap. destruct (X !! k) as [row|]; [|reflexivity]. simpl.
  rewrite length_fmap. destruct (py_index (length row) j) as [l|]; [|reflexivity].
  simpl. apply list_lookup_fmap.
Qed.

Lemma sample_scale_grid (c : R) (X : grid) (i j : Z) :
  sample (scale_grid c X) i j = (c * sample X i j)%R.
Proof.
  unfold sample. rewrite getitem_scale_grid.
  destruct (getitem X i j); simpl; [reflexivity|lra].
Qed.

Lemma has_shape_scale_grid (rows cols : nat) (c : R) (X : grid) :
  has_shape rows cols X = true -> has_shape rows cols (scale_grid c X) = true.
Proof.
  intros [Hlen Hrow]%has_shape_spec. apply has_shape_spec. unfold scale_grid.
  rewrite length_fmap. split; [exact Hlen|].
  intros k row Hk. rewrite list_lookup_fmap in Hk.
  destruct (X !! k) as [row0|] eqn:H0; [|discriminate]. injection Hk as <-.
  rewrite length_fmap. eauto.
Qed.

Lemma np_sum_scale_grid (c : R) (X : grid) :
  np_sum (scale_grid c X) = (c * np_sum X)%R.
Proof.
  unfold np_sum. rewrite !py_sum_big_sum. unfold scale_grid.
  assert (Hrow : forall row : list R,
             big_sum (Rmult c <$> row) (fun x => x) = (c * big_sum row (fun x => x))%R).
  { induction row as [|x row IH]; [simpl; lra|].
    rewrite fmap_cons, !big_sum_cons, IH. lra. }
  induction X as [|row X IH]; [simpl; lra|].
  rewrite fmap_cons. cbn [concat]. rewrite !big_sum_app, IH, Hrow. lra.
Qed.

Lemma mode_sum_scale_grid (c : R) (X : grid) (trig : R -> R)
    (nfp ntheta nphi m n : Z) (scale : R) :
  mode_sum (scale_grid c X) trig nfp ntheta nphi m n scale
  = (c * mode_sum X trig nfp ntheta nphi m n scale)%R.
Proof.
  unfold mode_sum. rewrite <- big_sum_scale. apply big_sum_ext; intros jp _.
  rewrite <- big_sum_scale. apply big_sum_ext; intros jt _.
  rewrite sample_scale_grid. ring.
Qed.

Lemma cosine_amplitude_scale_grid (c : R) (X : grid) (nfp ntheta nphi m n : Z) :
  cosine_amplitude (scale_grid c X) nfp ntheta nphi m n
  = (c * cosine_amplitude X nfp ntheta nphi m n)%R.
Proof.
  unfold cosine_amplitude. destruct (decide (m = 0 /\ n = 0)).
  - rewrite np_sum_scale_grid. unfold Rdiv. ring.
  - destruct ((m =? 0) && (n <=? 0)); [lra|apply mode_sum_scale_grid].
Qed.

Lemma sine_amplitude_scale_grid (c : R) (X : grid) (nfp ntheta nphi m n : Z) :
  sine_amplitude (scale_grid c X) nfp ntheta nphi m n
  = (c * sine_amplitude X nfp ntheta nphi m n)%R.
Proof.
  unfold sine_amplitude.
  destruct ((m =? 0) && (n <=? 0)); [lra|apply mode_sum_scale_grid].
Qed.

(** X15.  [to_Fourier] is homogeneous: multiplying every sample of
    [R_2D] and [Z_2D] by [c] multiplies every coefficient of the four
    spectra by [c]. *)
Theorem to_Fourier_homogeneous (c : R) (R_2D Z_2D : grid) (nfp ntheta mpol ntor : Z)
    (nph : nat) (lasym : bool) :
  has_shape (Z.to_nat ntheta) nph R_2D = true ->
  has_shape (Z.to_nat ntheta) nph Z_2D = true ->
  0 < ntheta -> (0 < nph)%nat -> nfp <> 0 -> 0 <= mpol -> 0 <= ntor ->
  exists RBC RBS ZBC ZBS RBC' RBS' ZBC' ZBS',
    to_Fourier R_2D Z_2D nfp ntheta mpol ntor lasym = Some (RBC, RBS, ZBC, ZBS)
    /\ to_Fourier (scale_grid c R_2D) (scale_grid c Z_2D) nfp ntheta mpol ntor lasym
       = Some (RBC', RBS', ZBC', ZBS')
    /\ forall m n, 0 <= m <= mpol -> - ntor <= n <= ntor ->
         is_Some (getitem RBC (n + ntor) m)
         /\ getitem RBC' (n + ntor) m = Rmult c <$> getitem RBC (n + ntor) m
         /\ getitem ZBS' (n + ntor) m = Rmult c <$> getitem ZBS (n + ntor) m
         /\ coefficient RBS' (n + ntor) m = Rmult c <$> coefficient RBS (n + ntor) m
         /\ coefficient ZBC' (n + ntor) m = Rmult c <$> coefficient ZBC (n + ntor) m.
Proof.
  intros HR HZ Hnt Hnp Hnfp Hmpol Hntor.
  destruct (to_Fourier_amplitudes R_2D Z_2D nfp ntheta mpol ntor nph lasym
              HR HZ Hnt Hnp Hnfp Hmpol Hntor) as (RBC & RBS & ZBC & ZBS & Hrun & Hamp).
  destruct (to_Fourier_amplitudes (scale_grid c R_2D) (scale_grid c Z_2D) nfp ntheta
              mpol ntor nph lasym (has_shape_scale_grid _ _ c _ HR)
              (has_shape_scale_grid _ _ c _ HZ) Hnt Hnp Hnfp Hmpol Hntor)
    as (RBC' & RBS' & ZBC' & ZBS' & Hrun' & Hamp').
  exists RBC, RBS, ZBC, ZBS, RBC', RBS', ZBC', ZBS'.
  split; [exact Hrun|]. split; [exact Hrun'|].
  intros m n Hm Hn.
  destruct (Hamp m n Hm Hn) as (H1 & H2 & H3 & H4).
  destruct (Hamp' m n Hm Hn) as (H1' & H2' & H3' & H4').
  rewrite H1, H2, H3, H4, H1', H2', H3', H4'. simpl.
  rewrite cosine_amplitude_scale_grid, sine_amplitude_scale_grid.
  split; [eauto|]. split; [reflexivity|]. split; [reflexivity|].
  destruct lasym.
  - rewrite cosine_amplitude_scale_grid, sine_amplitude_scale_grid. split; reflexivity.
  - rewrite Rmult_0_r. split; reflexivity.
Qed.

Lemma to_Fourier_homogeneous_witness :
  exists RBC RBS ZBC ZBS RBC' RBS' ZBC' ZBS',
    to_Fourier Samples.R_grid Samples.Z_grid 3 2 1 1 true = Some (RBC, RBS, ZBC, ZBS)
    /\ to_Fourier (scale_grid 2 Samples.R_grid) (scale_grid 2 Samples.Z_grid) 3 2 1 1 true
       = Some (RBC', RBS', ZBC', ZBS')
    /\ getitem RBC' (1 + 1) 1 = Rmult 2 <$> getitem RBC (1 + 1) 1.
Proof.
  destruct (to_Fourier_homogeneous 2 Samples.R_grid Samples.Z_grid 3 2 1 1 4 true)
    as (RBC & RBS & ZBC & ZBS & RBC' & RBS' & ZBC' & ZBS' & Hrun & Hrun' & Hlin);
    [reflexivity|reflexivity|lia|lia|lia|lia|lia|].
  exists RBC, RBS, ZBC, ZBS, RBC', RBS', ZBC', ZBS'.
  split; [exact Hrun|]. split; [exact Hrun'|].
  apply (Hlin 1 1); lia.
Defined.

End FourierEdges.

(** ** to_vmec: the dictionary, the file and the stored spectra *)

Module VmecEdges.
Import ToVmec Vocabulary MoreVocabulary ArrayFacts SumFacts LoopFacts FourierFacts
  VmecFacts FourierEdges.
Local Open Scope Z_scope.

(** *** The dictionary after the call *)

Lemma setdefault_union (key : string) (v : pyval) (params : gmap string pyval) :
  setdefault key v params = params ∪ {[ key := v ]}.
Proof.
  unfold setdefault. apply map_eq. intros k. rewrite lookup_union.
  destruct (params !! key) as [w|] eqn:Hk.
  - destruct (decide (key = k)) as [<-|Hne].
    + rewrite Hk, lookup_singleton_eq. reflexivity.
    + rewrite lookup_singleton_ne by exact Hne. destruct (params !! k); reflexivity.
  - destruct (decide (key = k)) as [<-|Hne].
    + rewrite lookup_insert_eq, Hk, lookup_singleton_eq. reflexivity.
    + rewrite lookup_insert_ne, lookup_singleton_ne by exact Hne.
      destruct (params !! k); reflexivity.
Qed.

Lemma fill_defaults_union (params : gmap string pyval) :
  fill_defaults params = params ∪ default_params.
Proof.
  unfold fill_defaults. rewrite !setdefault_union, <- !(assoc_L (∪)).
  reflexivity.
Qed.


(** *** Everything a successful call went through *)

Lemma boundary_record_appends (lasym : bool) (ntor : Z) (RBC : grid) (RBS ZBC : pyobj)
    (ZBS : grid) (m n : Z) (file file' : list line) :
  boundary_record lasym ntor RBC RBS ZBC ZBS m n file = Some file' ->
  exists recs, file' = file ++ recs /\ Forall (fun l => is_boundary l = true) recs.
Proof.
  unfold boundary_record.
  destruct (getitem RBC (n + ntor) m) as [rbc|]; [|discriminate]. simpl.
  destruct (if nonzero rbc then Some true else nonzero <$> getitem ZBS (n + ntor) m)
    as [[|]|]; simpl; [| |discriminate].
  - destruct (getitem ZBS (n + ntor) m) as [zbs|]; [|discriminate]. simpl.
    destruct lasym.
    + destruct (obj_getitem RBS (n + ntor) m) as [rbs|]; [|discriminate]. simpl.
      destruct (obj_getitem ZBC (n + ntor) m) as [zbc|]; [|discriminate]. simpl.
      intros [= <-]. eexists. rewrite <- app_assoc. split; [reflexivity|].
      repeat constructor.
    + intros [= <-]. eexists. split; [reflexivity|]. repeat constructor.
  - intros [= <-]. exists []. rewrite app_nil_r. split; [reflexivity|constructor].
Qed.

Lemma boundary_records_appends (lasym : bool) (mpol ntor : Z) (RBC : grid)
    (RBS ZBC : pyobj) (ZBS : grid) (file file' : list line) :
  boundary_records lasym mpol ntor RBC RBS ZBC ZBS file = Some file' ->
  exists recs, file' = file ++ recs /\ Forall (fun l => is_boundary l = true) recs.
Proof.
  unfold boundary_records.
  apply (for_each_preserves
           (fun s => exists recs, s = file ++ recs
                                  /\ Forall (fun l => is_boundary l = true) recs)).
  - intros m. apply for_each_preserves. intros n s s' (recs & -> & Hrecs) Hstep.
    apply boundary_record_appends in Hstep as (more & -> & Hmore).
    exists (recs ++ more). rewrite app_assoc. split; [reflexivity|].
    apply Forall_app. split; assumption.
  - exists []. rewrite app_nil_r. split; [reflexivity|constructor].
Qed.

Lemma to_vmec_inversion (mu0 : R)
    (Frenet_to_cylindrical : Qsc -> R -> Z -> option (grid * grid * grid))
    (self : Qsc) (filename : string) (r : R) (params : gmap string pyval)
    (ntheta ntorMax : Z) (file : list line) (self' : Qsc)
    (params' : gmap string pyval) :
  to_vmec mu0 Frenet_to_cylindrical self filename r params ntheta ntorMax
  = Some (file, self', params') ->
  exists mpol ntor R_2D Z_2D phi0_2D aRBC oRBS oZBC aZBS lines recs rbs zbc,
    choose_mpol params ntheta = Some mpol
    /\ choose_ntor params self = Some ntor
    /\ Frenet_to_cylindrical self r ntheta = Some (R_2D, Z_2D, phi0_2D)
    /\ to_Fourier R_2D Z_2D (nfp self) ntheta mpol ntor (lasym self)
       = Some (aRBC, oRBS, oZBC, aZBS)
    /\ indata_lines mu0 self r (fill_defaults params) ntheta ntorMax mpol ntor
       = Some lines
    /\ file = (lines ++ recs) ++ [Literal "/"]
    /\ Forall (fun l => is_boundary l = true) recs
    /\ params' = fill_defaults params
    /\ RBC self' = Some (NdArray (transpose aRBC))
    /\ ZBS self' = Some (NdArray (transpose aZBS))
    /\ RBS self' = Some rbs /\ ZBC self' = Some zbc
    /\ (if lasym self
        then obj_transpose oRBS = Some rbs /\ obj_transpose oZBC = Some zbc
        else rbs = oRBS /\ zbc = oZBC).
Proof.
  unfold to_vmec. intros H.
  destruct (choose_mpol params ntheta) as [mpol|] eqn:Hmpol; [|discriminate].
  simpl in H.
  destruct (choose_ntor params self) as [ntor|] eqn:Hntor; [|discriminate].
  simpl in H.
  destruct (Frenet_to_cylindrical self r ntheta) as [[[R_2D Z_2D] phi0_2D]|] eqn:HF;
    [|discriminate]. simpl in H.
  destruct (to_Fourier R_2D Z_2D (nfp self) ntheta mpol ntor (lasym self))
    as [[[[aRBC oRBS] oZBC] aZBS]|] eqn:HFou; [|discriminate]. simpl in H.
  destruct (indata_lines mu0 self r (fill_defaults params) ntheta ntorMax mpol ntor)
    as [lines|] eqn:Hlines; [|discriminate]. simpl in H.
  destruct (boundary_records (lasym self) mpol ntor aRBC oRBS oZBC aZBS lines)
    as [file1|] eqn:Hrec; [|discriminate]. simpl in H.
  apply boundary_records_appends in Hrec as (recs & -> & Hrecs).
  destruct (if lasym self
            then rbs ← obj_transpose oRBS; zbc ← obj_transpose oZBC; Some (rbs, zbc)
            else Some (oRBS, oZBC)) as [[rbs zbc]|] eqn:Hstore; [|discriminate].
  simpl in H. injection H as <- <- <-.
  exists mpol, ntor, R_2D, Z_2D, phi0_2D, aRBC, oRBS, oZBC, aZBS, lines, recs, rbs, zbc.
  split; [reflexivity|]. split; [reflexivity|]. split; [reflexivity|].
  split; [exact HFou|]. split; [exact Hlines|]. split; [reflexivity|].
  split; [exact Hrecs|]. split; [reflexivity|]. split; [reflexivity|].
  split; [reflexivity|]. split; [reflexivity|]. split; [reflexivity|].
  destruct (lasym self).
  - destruct (obj_transpose oRBS) as [x|]; [|discriminate]. simpl in Hstore.
    destruct (obj_transpose oZBC) as [y|]; [|discriminate]. simpl in Hstore.
    injection Hstore as <- <-. split; reflexivity.
  - injection Hstore as <- <-. split; reflexivity.
Qed.


(** X16.  [to_vmec] changes the dictionary of its caller: after the call
    [params] is the dictionary passed in, with the six defaults added for
    the keys that were absent.  Keys that were present keep their values,
    no entry is made for [mpol] or [ntor], and a second call with the
    same dictionary adds nothing. *)
Theorem to_vmec_params_after (mu0 : R)
    (Frenet_to_cylindrical : Qsc -> R -> Z -> option (grid * grid * grid))
    (self : Qsc) (filename : string) (r : R) (params : gmap string pyval)
    (ntheta ntorMax : Z) (file : list line) (self' : Qsc)
    (params' : gmap string pyval) :
  to_vmec mu0 Frenet_to_cylindrical self filename r params ntheta ntorMax
  = Some (file, self', params') ->
  params' = params ∪ default_params
  /\ (forall key v, params !! key = Some v -> params' !! key = Some v)
  /\ (forall key, params !! key = None -> params' !! key = default_params !! key)
  /\ params' !! "mpol"%string = params !! "mpol"%string
  /\ params' !! "ntor"%string = params !! "ntor"%string
  /\ fill_defaults params' = params'.
Proof.
  intros Hrun. apply to_vmec_inversion in Hrun
    as (mpol & ntor & R_2D & Z_2D & phi0 & aRBC & oRBS & oZBC & aZBS & lines & recs
        & rbs & zbc & _ & _ & _ & _ & _ & _ & _ & -> & _).
  rewrite fill_defaults_union. split; [reflexivity|]. split; [|split; [|split; [|split]]].
  - intros key v Hk. rewrite lookup_union, Hk. destruct (default_params !! key); reflexivity.
  - intros key Hk. rewrite lookup_union, Hk. destruct (default_params !! key); reflexivity.
  - rewrite lookup_union. replace (default_params !! "mpol"%string) with (@None pyval)
      by reflexivity. destruct (params !! "mpol"%string); reflexivity.
  - rewrite lookup_union. replace (default_params !! "ntor"%string) with (@None pyval)
      by reflexivity. destruct (params !! "ntor"%string); reflexivity.
  - rewrite fill_defaults_union, <- (assoc_L (∪)), (idemp (∪) default_params).
    reflexivity.
Qed.

Lemma to_vmec_params_after_witness :
  exists file self' params',
    to_vmec Samples.mu0 Samples.sampled_surface Samples.helical "input.qsc" (1 / 10)%R
      Samples.mean_mode_only 2 14 = Some (file, self', params')
    /\ params' = Samples.mean_mode_only ∪ default_params
    /\ params' !! "mpol"%string = Some (PInt 0).
Proof.
  destruct (to_vmec_run Samples.mu0 Samples.sampled_surface Samples.helical "input.qsc"
              (1 / 10)%R Samples.mean_mode_only 2 14 0 0
              Samples.R_grid Samples.Z_grid Samples.R_grid 4)
    as (RBC & RBS & ZBC & ZBS & lines & _ & _ & _ & _ & _ & _ & _ & _ & Hrun);
    try reflexivity; try lia; [simpl; lia|].
  cbv zeta in Hrun. eexists _, _, _. split; [exact Hrun|].
  destruct (to_vmec_params_after _ _ _ _ _ _ _ _ _ _ _ Hrun) as (Hu & _ & _ & Hm & _).
  split; [exact Hu|]. rewrite Hm. reflexivity.
Defined.


(** *** The lines of the file *)

Ltac only_line H :=
  apply list_elem_of_In in H; simpl in H;
  repeat (destruct H as [H|H];
          [try discriminate H; try (injection H as <-; auto)|]);
  try contradiction.

Ltac this_line :=
  apply list_elem_of_In; simpl;
  solve [repeat first [left; reflexivity | right]].

Ltac line_iff :=
  let H := fresh "H" in
  intros ?; split;
  [ intros H; only_line H
  | first [ intros [_ ->]; this_line
          | intros [H _]; discriminate H
          | intros ->; this_line ] ].

Lemma indata_lines_layout (mu0 : R) (self : Qsc) (r : R) (params : gmap string pyval)
    (ntheta ntorMax mpol ntor : Z) (lines : list line) :
  indata_lines mu0 self r params ntheta ntorMax mpol ntor = Some lines ->
  head lines = Some banner
  /\ last lines = Some boundary_heading
  /\ length lines = (if lasym self then 34 else 32)%nat
  /\ (forall l, l ∈ lines -> is_boundary l = false)
  /\ (forall v, Assign "MPOL" v ∈ lines <-> v = SInt mpol)
  /\ (forall v, Assign "NTOR" v ∈ lines <-> v = SInt (Z.min ntor ntorMax))
  /\ (forall v, AssignSliced "RAXIS_CC" v ∈ lines <-> v = SFloats (rc self))
  /\ (forall v, AssignSliced "ZAXIS_CS" v ∈ lines <-> v = SFloats (Ropp <$> zs self))
  /\ (forall v, AssignSliced "RAXIS_CS" v ∈ lines
                <-> lasym self = true /\ v = SFloats (Ropp <$> rs self))
  /\ (forall v, AssignSliced "ZAXIS_CC" v ∈ lines
                <-> lasym self = true /\ v = SFloats (zc self)).
Proof.
  unfold indata_lines.
  destruct (params !! "delt"%string) as [delt|]; [|discriminate]. simpl.
  destruct (params !! "nstep"%string) as [nstep|]; [|discriminate]. simpl.
  destruct (params !! "tcon0"%string) as [tcon0|]; [|discriminate]. simpl.
  destruct (params !! "ns_array"%string) as [ns_array|]; [|discriminate]. simpl.
  destruct (params !! "ftol_array"%string) as [ftol_array|]; [|discriminate]. simpl.
  destruct (params !! "niter_array"%string) as [niter_array|]; [|discriminate]. simpl.
  intros [= <-].
  destruct (lasym self); simpl.
  - split; [reflexivity|]. split; [reflexivity|]. split; [reflexivity|].
    split.
    { intros l Hl%list_elem_of_In. simpl in Hl. intuition (subst; reflexivity). }
    repeat (split; [line_iff|]). line_iff.
  - split; [reflexivity|]. split; [reflexivity|]. split; [reflexivity|].
    split.
    { intros l Hl%list_elem_of_In. simpl in Hl. intuition (subst; reflexivity). }
    repeat (split; [line_iff|]). line_iff.
Qed.


(** A line that is neither a boundary record nor the closing line is in
    the file exactly when it is among the header lines. *)
Lemma elem_of_file (l : line) (lines recs : list line) :
  is_boundary l = false -> l <> Literal "/" ->
  Forall (fun l => is_boundary l = true) recs ->
  l ∈ (lines ++ recs) ++ [Literal "/"] <-> l ∈ lines.
Proof.
  intros Hl Hne Hrecs. rewrite !elem_of_app. split.
  - intros [[H|H]|H].
    + exact H.
    + rewrite Forall_forall in Hrecs. apply Hrecs in H. congruence.
    + apply list_elem_of_singleton in H. contradiction.
  - intros H. left. left. exact H.
Qed.

Lemma indata_lines_nonempty (mu0 : R) (self : Qsc) (r : R) (params : gmap string pyval)
    (ntheta ntorMax mpol ntor : Z) (lines : list line) :
  indata_lines mu0 self r params ntheta ntorMax mpol ntor = Some lines ->
  Banner [("! Resolution parameters: ntheta = "%string, SInt ntheta);
          (", mpol = "%string, SInt mpol); (", ntor = "%string, SInt ntor)] ∈ lines.
Proof.
  unfold indata_lines.
  destruct (params !! "delt"%string) as [delt|]; [|discriminate]. simpl.
  destruct (params !! "nstep"%string) as [nstep|]; [|discriminate]. simpl.
  destruct (params !! "tcon0"%string) as [tcon0|]; [|discriminate]. simpl.
  destruct (params !! "ns_array"%string) as [ns_array|]; [|discriminate]. simpl.
  destruct (params !! "ftol_array"%string) as [ftol_array|]; [|discriminate]. simpl.
  destruct (params !! "niter_array"%string) as [niter_array|]; [|discriminate]. simpl.
  intros [= <-]. this_line.
Qed.


(** X17.  The file that [to_vmec] writes is a header, then boundary
    records only, then the line [/].  The header starts with the pyQSC
    banner, ends with the heading of the boundary section, holds no
    boundary record and has 34 lines when [lasym] is true and 32 when it
    is false. *)
Theorem to_vmec_file_layout (mu0 : R)
    (Frenet_to_cylindrical : Qsc -> R -> Z -> option (grid * grid * grid))
    (self : Qsc) (filename : string) (r : R) (params : gmap string pyval)
    (ntheta ntorMax : Z) (file : list line) (self' : Qsc)
    (params' : gmap string pyval) :
  to_vmec mu0 Frenet_to_cylindrical self filename r params ntheta ntorMax
  = Some (file, self', params') ->
  exists header recs,
    file = header ++ recs ++ [Literal "/"]
    /\ length header = (if lasym self then 34 else 32)%nat
    /\ head file = Some banner
    /\ last header = Some boundary_heading
    /\ Forall (fun l => is_boundary l = false) header
    /\ Forall (fun l => is_boundary l = true) recs
    /\ last file = Some (Literal "/").
Proof.
  intros Hrun. apply to_vmec_inversion in Hrun
    as (mpol & ntor & R_2D & Z_2D & phi0 & aRBC & oRBS & oZBC & aZBS & lines & recs
        & rbs & zbc & _ & _ & _ & _ & Hlines & -> & Hrecs & _).
  apply indata_lines_layout in Hlines as (Hhead & Hlast & Hlen & Hnb & _).
  exists lines, recs. split; [rewrite <- app_assoc; reflexivity|].
  split; [exact Hlen|]. split.
  { destruct lines as [|l0 lines']; [discriminate Hhead|]. exact Hhead. }
  split; [exact Hlast|]. split; [apply Forall_forall; exact Hnb|].
  split; [exact Hrecs|]. apply last_snoc.
Qed.

Lemma to_vmec_file_layout_witness :
  exists file self' params' header recs,
    to_vmec Samples.mu0 Samples.sampled_surface Samples.helical "input.qsc" (1 / 10)%R
      Samples.mean_mode_only 2 14 = Some (file, self', params')
    /\ file = header ++ recs ++ [Literal "/"]
    /\ length header = 32%nat.
Proof.
  destruct (to_vmec_run Samples.mu0 Samples.sampled_surface Samples.helical "input.qsc"
              (1 / 10)%R Samples.mean_mode_only 2 14 0 0
              Samples.R_grid Samples.Z_grid Samples.R_grid 4)
    as (RBC & RBS & ZBC & ZBS & lines & _ & _ & _ & _ & _ & _ & _ & _ & Hrun);
    try reflexivity; try lia; [simpl; lia|].
  cbv zeta in Hrun.
  destruct (to_vmec_file_layout _ _ _ _ _ _ _ _ _ _ _ Hrun)
    as (header & recs & Hfile & Hlen & _).
  eexists _, _, _, header, recs. split; [exact Hrun|]. split; [exact Hfile|exact Hlen].
Defined.


(** X18.  The axis lines of the file.  The file has a [RAXIS_CC] line,
    which carries [rc] and nothing else, and a [ZAXIS_CS] line, which
    carries the entries of [zs] negated.  The lines [RAXIS_CS] (the
    entries of [rs] negated) and [ZAXIS_CC] (with [zc]) are in the file
    when [lasym] is true and are absent when it is false. *)
Theorem to_vmec_axis_lines (mu0 : R)
    (Frenet_to_cylindrical : Qsc -> R -> Z -> option (grid * grid * grid))
    (self : Qsc) (filename : string) (r : R) (params : gmap string pyval)
    (ntheta ntorMax : Z) (file : list line) (self' : Qsc)
    (params' : gmap string pyval) :
  to_vmec mu0 Frenet_to_cylindrical self filename r params ntheta ntorMax
  = Some (file, self', params') ->
  (forall v, AssignSliced "RAXIS_CC" v ∈ file <-> v = SFloats (rc self))
  /\ (forall v, AssignSliced "ZAXIS_CS" v ∈ file <-> v = SFloats (Ropp <$> zs self))
  /\ (forall v, AssignSliced "RAXIS_CS" v ∈ file
                <-> lasym self = true /\ v = SFloats (Ropp <$> rs self))
  /\ (forall v, AssignSliced "ZAXIS_CC" v ∈ file
                <-> lasym self = true /\ v = SFloats (zc self)).
Proof.
  intros Hrun. apply to_vmec_inversion in Hrun
    as (mpol & ntor & R_2D & Z_2D & phi0 & aRBC & oRBS & oZBC & aZBS & lines & recs
        & rbs & zbc & _ & _ & _ & _ & Hlines & -> & Hrecs & _).
  apply indata_lines_layout in Hlines
    as (_ & _ & _ & _ & _ & _ & Hrcc & Hzcs & Hrcs & Hzcc).
  split; [|split; [|split]]; intros v;
    (rewrite elem_of_file; [|reflexivity|discriminate|exact Hrecs]).
  - apply Hrcc.
  - apply Hzcs.
  - apply Hrcs.
  - apply Hzcc.
Qed.

Lemma to_vmec_axis_lines_witness :
  exists file self' params',
    to_vmec Samples.mu0 Samples.sampled_surface Samples.helical "input.qsc" (1 / 10)%R
      Samples.mean_mode_only 2 14 = Some (file, self', params')
    /\ AssignSliced "ZAXIS_CS" (SFloats [- 0; - (1 / 10)]%R) ∈ file
    /\ forall v, AssignSliced "RAXIS_CS" v ∉ file.
Proof.
  destruct (to_vmec_run Samples.mu0 Samples.sampled_surface Samples.helical "input.qsc"
              (1 / 10)%R Samples.mean_mode_only 2 14 0 0
              Samples.R_grid Samples.Z_grid Samples.R_grid 4)
    as (RBC & RBS & ZBC & ZBS & lines & _ & _ & _ & _ & _ & _ & _ & _ & Hrun);
    try reflexivity; try lia; [simpl; lia|].
  cbv zeta in Hrun.
  destruct (to_vmec_axis_lines _ _ _ _ _ _ _ _ _ _ _ Hrun) as (_ & Hzcs & Hrcs & _).
  eexists _, _, _. split; [exact Hrun|]. split.
  - apply Hzcs. reflexivity.
  - intros v Hv. apply Hrcs in Hv as [Hl _]. discriminate Hl.
Defined.


(** X19.  The resolution lines of the file.  The file has an [MPOL]
    line and an [NTOR] line; the only values they carry are [mpol] and
    [min(ntor, ntorMax)], while the comment line at the top carries
    [ntor] itself.  Both counts are non-negative; a count given in
    [params] is [int] of the value given; absent from [params], [mpol]
    is [min(ntheta div 2, 100)] and, for [nphi >= 0], [ntor] is
    [min(nphi div 2 + 1, 100)]. *)
Theorem to_vmec_resolution_lines (mu0 : R)
    (Frenet_to_cylindrical : Qsc -> R -> Z -> option (grid * grid * grid))
    (self : Qsc) (filename : string) (r : R) (params : gmap string pyval)
    (ntheta ntorMax : Z) (file : list line) (self' : Qsc)
    (params' : gmap string pyval) :
  to_vmec mu0 Frenet_to_cylindrical self filename r params ntheta ntorMax
  = Some (file, self', params') ->
  exists mpol ntor,
    0 <= mpol /\ 0 <= ntor
    /\ match params !! "mpol"%string with
       | None => mpol = Z.min (ntheta / 2) 100
       | Some x => py_int x = Some mpol
       end
    /\ match params !! "ntor"%string with
       | None => 0 <= nphi self -> ntor = Z.min (nphi self / 2 + 1) 100
       | Some x => py_int x = Some ntor
       end
    /\ (forall v, Assign "MPOL" v ∈ file <-> v = SInt mpol)
    /\ (forall v, Assign "NTOR" v ∈ file <-> v = SInt (Z.min ntor ntorMax))
    /\ Banner [("! Resolution parameters: ntheta = "%string, SInt ntheta);
               (", mpol = "%string, SInt mpol); (", ntor = "%string, SInt ntor)] ∈ file.
Proof.
  intros Hrun. apply to_vmec_inversion in Hrun
    as (mpol & ntor & R_2D & Z_2D & phi0 & aRBC & oRBS & oZBC & aZBS & lines & recs
        & rbs & zbc & Hmpol & Hntor & _ & HFou & Hlines & -> & Hrecs & _).
  apply to_Fourier_inversion in HFou as (_ & _ & _ & Hm0 & Hn0 & _).
  pose proof (indata_lines_nonempty _ _ _ _ _ _ _ _ _ Hlines) as Hbanner.
  apply indata_lines_layout in Hlines as (_ & _ & _ & _ & Hmp & Hnt & _).
  exists mpol, ntor. split; [exact Hm0|]. split; [exact Hn0|].
  split; [|split; [|split; [|split]]].
  - destruct (params !! "mpol"%string) as [x|] eqn:Hx.
    + unfold choose_mpol in Hmpol. rewrite Hx in Hmpol. exact Hmpol.
    + rewrite (choose_mpol_default _ _ Hx) in Hmpol. congruence.
  - destruct (params !! "ntor"%string) as [x|] eqn:Hx.
    + unfold choose_ntor in Hntor. rewrite Hx in Hntor. exact Hntor.
    + intros Hnphi. rewrite (choose_ntor_default _ _ Hx Hnphi) in Hntor. congruence.
  - intros v. rewrite elem_of_file; [apply Hmp|reflexivity|discriminate|exact Hrecs].
  - intros v. rewrite elem_of_file; [apply Hnt|reflexivity|discriminate|exact Hrecs].
  - apply elem_of_file; [reflexivity|discriminate|exact Hrecs|exact Hbanner].
Qed.

Lemma to_vmec_resolution_lines_witness :
  exists file self' params',
    to_vmec Samples.mu0 Samples.sampled_surface Samples.helical "input.qsc" (1 / 10)%R
      ∅ 2 2 = Some (file, self', params')
    /\ (forall v, Assign "MPOL" v ∈ file <-> v = SInt 1)
    /\ (forall v, Assign "NTOR" v ∈ file <-> v = SInt 2).
Proof.
  assert (Hmpol : choose_mpol ∅ 2 = Some 1) by (apply (choose_mpol_default ∅ 2); reflexivity).
  assert (Hntor : choose_ntor ∅ Samples.helical = Some 3).
  { apply (choose_ntor_default ∅ Samples.helical); [reflexivity|simpl; lia]. }
  destruct (to_vmec_run Samples.mu0 Samples.sampled_surface Samples.helical "input.qsc"
              (1 / 10)%R ∅ 2 2 1 3 Samples.R_grid Samples.Z_grid Samples.R_grid 4
              Hmpol Hntor ltac:(lia) ltac:(lia) eq_refl eq_refl eq_refl
              ltac:(lia) ltac:(lia) ltac:(simpl; lia))
    as (RBC & RBS & ZBC & ZBS & lines & _ & _ & _ & _ & _ & _ & _ & _ & Hrun).
  cbv zeta in Hrun.
  destruct (to_vmec_resolution_lines _ _ _ _ _ _ _ _ _ _ _ Hrun)
    as (mpol & ntor & _ & _ & Hm & Hn & Hmp & Hnt & _).
  rewrite lookup_empty in Hm, Hn. specialize (Hn ltac:(simpl; lia)). subst mpol ntor.
  eexists _, _, _. split; [exact Hrun|]. split; [exact Hmp|exact Hnt].
Defined.


(** *** Calls that raise *)

(** X20.  [to_vmec] raises when [nfp] is 0, when [ntheta] is not
    positive, and when [params] gives for [mpol] or [ntor] a list, or a
    number whose [int] is negative. *)
Theorem to_vmec_raises (mu0 : R)
    (Frenet_to_cylindrical : Qsc -> R -> Z -> option (grid * grid * grid))
    (self : Qsc) (filename : string) (r : R) (params : gmap string pyval)
    (ntheta ntorMax : Z) :
  nfp self = 0 \/ ntheta <= 0
  \/ (exists v, params !! "mpol"%string = Some v /\ unusable_count v)
  \/ (exists v, params !! "ntor"%string = Some v /\ unusable_count v) ->
  to_vmec mu0 Frenet_to_cylindrical self filename r params ntheta ntorMax = None.
Proof.
  intros Hbad.
  destruct (to_vmec mu0 Frenet_to_cylindrical self filename r params ntheta ntorMax)
    as [[[file self'] params']|] eqn:Hrun; [|reflexivity].
  apply to_vmec_inversion in Hrun
    as (mpol & ntor & R_2D & Z_2D & phi0 & aRBC & oRBS & oZBC & aZBS & lines & recs
        & rbs & zbc & Hmpol & Hntor & _ & HFou & _).
  apply to_Fourier_inversion in HFou as (_ & Hnfp & Hnt & Hm0 & Hn0 & _).
  exfalso. destruct Hbad as [H|[H|[(v & Hv & Hu)|(v & Hv & Hu)]]].
  - contradiction.
  - lia.
  - unfold choose_mpol in Hmpol. rewrite Hv in Hmpol. unfold unusable_count in Hu.
    rewrite Hmpol in Hu. lia.
  - unfold choose_ntor in Hntor. rewrite Hv in Hntor. unfold unusable_count in Hu.
    rewrite Hntor in Hu. lia.
Qed.

Lemma to_vmec_raises_witness :
  (nfp Samples.helical = 0 \/ 0 <= 0
   \/ (exists v, (∅ : gmap string pyval) !! "mpol"%string = Some v /\ unusable_count v)
   \/ (exists v, (∅ : gmap string pyval) !! "ntor"%string = Some v /\ unusable_count v))
  /\ to_vmec Samples.mu0 Samples.sampled_surface Samples.helical "input.qsc" (1 / 10)%R
       ∅ 0 14 = None.
Proof.
  assert (H : nfp Samples.helical = 0 \/ 0 <= 0
   \/ (exists v, (∅ : gmap string pyval) !! "mpol"%string = Some v /\ unusable_count v)
   \/ (exists v, (∅ : gmap string pyval) !! "ntor"%string = Some v /\ unusable_count v))
    by (right; left; lia).
  split; [exact H|].
  exact (to_vmec_raises Samples.mu0 Samples.sampled_surface Samples.helical "input.qsc"
           (1 / 10)%R ∅ 0 14 H).
Defined.


(** *** The spectra left on the configuration *)

Lemma has_shape_transpose (rows cols : nat) (a : grid) :
  has_shape rows cols a = true -> (0 < rows)%nat ->
  has_shape cols rows (transpose a) = true.
Proof.
  intros Hs Hpos. pose proof Hs as [Hlen Hrow]%has_shape_spec.
  destruct a as [|row0 a']; [simpl in Hlen; lia|].
  apply has_shape_spec. unfold transpose.
  rewrite (Hrow 0%nat row0 eq_refl). split.
  - rewrite length_fmap, length_seq. reflexivity.
  - intros k row Hk. apply list_lookup_fmap_Some_1 in Hk as (j & -> & _).
    rewrite length_fmap. exact Hlen.
Qed.

Lemma getitem_transpose (rows cols : nat) (a : grid) (i j : Z) :
  has_shape rows cols a = true ->
  0 <= i < Z.of_nat rows -> 0 <= j < Z.of_nat cols ->
  getitem (transpose a) j i = getitem a i j.
Proof.
  intros Hs Hi Hj.
  rewrite (getitem_entry cols rows (transpose a) j i)
    by (try apply has_shape_transpose; try assumption; lia).
  rewrite (getitem_entry rows cols a i j) by assumption.
  apply (transpose_entry rows cols); [assumption|lia|lia].
Qed.


(** X21.  After [to_vmec] the arrays [RBC] and [ZBS] stored on the
    configuration have [mpol+1] rows and [2*ntor+1] columns and are
    indexed [m, n + ntor]: the entry is the cosine amplitude of [R_2D],
    respectively the sine amplitude of [Z_2D], at mode [(m, n)].  With
    [lasym] true the same holds for [RBS] and [ZBC], with the sine
    amplitude of [R_2D] and the cosine amplitude of [Z_2D]. *)
Theorem to_vmec_stored_coefficients (mu0 : R)
    (Frenet_to_cylindrical : Qsc -> R -> Z -> option (grid * grid * grid))
    (self : Qsc) (filename : string) (r : R) (params : gmap string pyval)
    (ntheta ntorMax mpol ntor : Z) (R_2D Z_2D phi0_2D : grid) (nph : nat) :
  choose_mpol params ntheta = Some mpol ->
  choose_ntor params self = Some ntor ->
  0 <= mpol -> 0 <= ntor ->
  Frenet_to_cylindrical self r ntheta = Some (R_2D, Z_2D, phi0_2D) ->
  has_shape (Z.to_nat ntheta) nph R_2D = true ->
  has_shape (Z.to_nat ntheta) nph Z_2D = true ->
  0 < ntheta -> (0 < nph)%nat -> nfp self <> 0 ->
  exists file self' params' (sRBC sZBS : grid),
    to_vmec mu0 Frenet_to_cylindrical self filename r params ntheta ntorMax
    = Some (file, self', params')
    /\ RBC self' = Some (NdArray sRBC)
    /\ ZBS self' = Some (NdArray sZBS)
    /\ has_shape (Z.to_nat (mpol + 1)) (Z.to_nat (2 * ntor + 1)) sRBC = true
    /\ has_shape (Z.to_nat (mpol + 1)) (Z.to_nat (2 * ntor + 1)) sZBS = true
    /\ forall m n, 0 <= m <= mpol -> - ntor <= n <= ntor ->
         getitem sRBC m (n + ntor)
           = Some (cosine_amplitude R_2D (nfp self) ntheta (Z.of_nat nph) m n)
         /\ getitem sZBS m (n + ntor)
           = Some (sine_amplitude Z_2D (nfp self) ntheta (Z.of_nat nph) m n)
         /\ (lasym self = true ->
             exists sRBS sZBC,
               RBS self' = Some (NdArray sRBS) /\ ZBC self' = Some (NdArray sZBC)
               /\ getitem sRBS m (n + ntor)
                  = Some (sine_amplitude R_2D (nfp self) ntheta (Z.of_nat nph) m n)
               /\ getitem sZBC m (n + ntor)
                  = Some (cosine_amplitude Z_2D (nfp self) ntheta (Z.of_nat nph) m n)).
Proof.
  intros Hmpol Hntor Hm0 Hn0 HF HR HZ Hnt Hnp Hnfp.
  destruct (to_vmec_run mu0 Frenet_to_cylindrical self filename r params ntheta ntorMax
              mpol ntor R_2D Z_2D phi0_2D nph Hmpol Hntor Hm0 Hn0 HF HR HZ Hnt Hnp Hnfp)
    as (RBC & RBS & ZBC & ZBS & lines & HFou & HRBC & HRBS & HZBC & HZBS & _ & _ & _ & Hrun).
  cbv zeta in *.
  destruct (to_Fourier_amplitudes R_2D Z_2D (nfp self) ntheta mpol ntor nph (lasym self)
              HR HZ Hnt Hnp Hnfp Hm0 Hn0) as (RBC' & RBS' & ZBC' & ZBS' & HFou' & Hamp).
  rewrite HFou in HFou'. injection HFou' as <- <- <- <-.
  eexists _, _, _, (transpose RBC), (transpose ZBS). split; [exact Hrun|].
  split; [reflexivity|]. split; [reflexivity|].
  split; [apply has_shape_transpose; [apply HRBC|lia]|].
  split; [apply has_shape_transpose; [apply HZBS|lia]|].
  intros m n Hm Hn. destruct (Hamp m n Hm Hn) as (H1 & H2 & H3 & H4).
  assert (Hi : 0 <= n + ntor < Z.of_nat (Z.to_nat (2 * ntor + 1))) by lia.
  assert (Hj : 0 <= m < Z.of_nat (Z.to_nat (mpol + 1))) by lia.
  split; [|split].
  - rewrite (getitem_transpose _ _ RBC (n + ntor) m (proj1 HRBC) Hi Hj). exact H1.
  - rewrite (getitem_transpose _ _ ZBS (n + ntor) m (proj1 HZBS) Hi Hj). exact H2.
  - intros Hl. rewrite Hl in *. simpl in *. exists (transpose RBS), (transpose ZBC).
    split; [reflexivity|]. split; [reflexivity|]. split.
    + rewrite (getitem_transpose _ _ RBS (n + ntor) m (proj1 HRBS) Hi Hj). exact H3.
    + rewrite (getitem_transpose _ _ ZBC (n + ntor) m (proj1 HZBC) Hi Hj). exact H4.
Qed.

Lemma to_vmec_stored_coefficients_witness :
  exists file self' params' sRBC sZBS,
    to_vmec Samples.mu0 Samples.sampled_surface Samples.helical "input.qsc" (1 / 10)%R
      ∅ 2 14 = Some (file, self', params')
    /\ RBC self' = Some (NdArray sRBC)
    /\ ZBS self' = Some (NdArray sZBS)
    /\ getitem sRBC 1 (- 2 + 3)
       = Some (cosine_amplitude Samples.R_grid 3 2 4 1 (- 2)).
Proof.
  assert (Hmpol : choose_mpol ∅ 2 = Some 1) by (apply (choose_mpol_default ∅ 2); reflexivity).
  assert (Hntor : choose_ntor ∅ Samples.helical = Some 3).
  { apply (choose_ntor_default ∅ Samples.helical); [reflexivity|simpl; lia]. }
  destruct (to_vmec_stored_coefficients Samples.mu0 Samples.sampled_surface Samples.helical
              "input.qsc" (1 / 10)%R ∅ 2 14 1 3 Samples.R_grid Samples.Z_grid
              Samples.R_grid 4 Hmpol Hntor ltac:(lia) ltac:(lia) eq_refl eq_refl eq_refl
              ltac:(lia) ltac:(lia) ltac:(simpl; lia))
    as (file & self' & params' & sRBC & sZBS & Hrun & HR & HZ & _ & _ & Hamp).
  exists file, self', params', sRBC, sZBS.
  split; [exact Hrun|]. split; [exact HR|]. split; [exact HZ|].
  destruct (Hamp 1 (- 2) ltac:(lia) ltac:(lia)) as (H1 & _). exact H1.
Defined.

End VmecEdges.
